(** * mcp-email-server: the classic IMAP/SMTP email client

    A shallow embedding of [mcp_email_server/emails/classic.py] and
    [mcp_email_server/emails/models.py].

    Python [bytes] values are modelled as [string] (a list of 8-bit
    characters), and so is a [str] that the code stores, compares or
    concatenates; the [str] of the flags, which the code splits at white
    space, is the list of its code points.  Python [int] is [Z];
    [x | None] is [option].  The
    IMAP session, the SMTP session and the standard [email] package are
    external collaborators: they are parameters of the development, and
    every call the code makes to a session is recorded in a trace of
    events, with the log calls and the records yielded. *)

From Stdlib Require Import List String Ascii ZArith Lia Bool Arith.
From Stdlib Require Import DecimalString DecimalNat.
Import ListNotations.
Local Open Scope string_scope.
Local Open Scope list_scope.

Set Implicit Arguments.

(* ================================================================== *)
(** ** Python strings and bytes *)

Definition bytes := string.

(** [if s:] on a [str | None]. *)
Definition truthy_str (s : option string) : bool :=
  match s with
  | Some (String _ _) => true
  | _ => false
  end.

(** [sub in s] for [str] and [bytes]. *)
Fixpoint contains (sub s : string) : bool :=
  prefix sub s ||
  match s with
  | EmptyString => false
  | String _ t => contains sub t
  end.

Definition len (s : string) : Z := Z.of_nat (String.length s).

Fixpoint drop (n : nat) (s : string) : string :=
  match n, s with
  | O, _ => s
  | S k, String _ t => drop k t
  | S _, EmptyString => EmptyString
  end.

Fixpoint find_at (sub s : string) (i : Z) : Z :=
  if prefix sub s then i
  else match s with
       | EmptyString => (-1)%Z
       | String _ t => find_at sub t (i + 1)%Z
       end.

(** [s.find(sub, start)] for [0 <= start]: lowest index at or after
    [start] where [sub] occurs, or [-1]. *)
Definition find (sub s : string) (start : Z) : Z :=
  if (len s <? start)%Z then (-1)%Z
  else find_at sub (drop (Z.to_nat start) s) start.

(** Index adjustment of a Python slice bound against a sequence of length
    [n]: negative bounds count from the end, and every bound is clamped
    to [0 .. n]. *)
Definition slice_bound (n i : Z) : Z :=
  if (i <? 0)%Z then Z.max 0 (i + n) else Z.min i n.

(** [l[start:stop]] on a list. *)
Definition py_slice {A : Type} (l : list A) (start stop : Z) : list A :=
  let n := Z.of_nat (List.length l) in
  let lo := slice_bound n start in
  let hi := slice_bound n stop in
  firstn (Z.to_nat (hi - lo)) (skipn (Z.to_nat lo) l).

(** [s[start:stop]] on [bytes]. *)
Definition bytes_slice (s : bytes) (start stop : Z) : bytes :=
  let lo := slice_bound (len s) start in
  let hi := slice_bound (len s) stop in
  substring (Z.to_nat lo) (Z.to_nat (hi - lo)) s.

(** Whitespace of [bytes.split()]: space, tab, newline, carriage return,
    vertical tab, form feed. *)
Definition bytes_space (c : ascii) : bool :=
  let n := nat_of_ascii c in
  (n =? 32)%nat || ((9 <=? n)%nat && (n <=? 13)%nat).

(** [split()] without argument: maximal runs of non-space characters.
    [cur] is the word being read. *)
Fixpoint split_acc (sp : ascii -> bool) (s : string) (cur : string) : list string :=
  match s with
  | EmptyString =>
      match cur with
      | EmptyString => []
      | _ => [cur]
      end
  | String c t =>
      if sp c then
        match cur with
        | EmptyString => split_acc sp t EmptyString
        | _ => cur :: split_acc sp t EmptyString
        end
      else split_acc sp t (cur ++ String c EmptyString)%string
  end.

Definition bytes_split (s : bytes) : list bytes := split_acc bytes_space s "".

(** A [str] whose characters the code looks at, as the list of its code
    points. *)
Definition str := list N.

(** The [str] of a literal of ASCII characters. *)
Definition str_of (s : string) : str := map N_of_ascii (list_ascii_of_string s).

(** Whitespace of [str.split()]: the code points for which
    [str.isspace()] holds. *)
Definition str_space (c : N) : bool :=
  (((0x09 <=? c) && (c <=? 0x0d)) || ((0x1c <=? c) && (c <=? 0x20))
   || (c =? 0x85) || (c =? 0xa0) || (c =? 0x1680)
   || ((0x2000 <=? c) && (c <=? 0x200a))
   || (c =? 0x2028) || (c =? 0x2029) || (c =? 0x202f) || (c =? 0x205f)
   || (c =? 0x3000))%N.

(** [split()] on a [str]; [cur] is the word being read. *)
Fixpoint split_str (s : str) (cur : str) : list str :=
  match s with
  | [] =>
      match cur with
      | [] => []
      | _ => [cur]
      end
  | c :: t =>
      if str_space c then
        match cur with
        | [] => split_str t []
        | _ => cur :: split_str t []
        end
      else split_str t (cur ++ [c])
  end.

Definition str_split (s : str) : list str := split_str s [].

Fixpoint str_eqb (a b : str) : bool :=
  match a, b with
  | [], [] => true
  | x :: a', y :: b' => (x =? y)%N && str_eqb a' b'
  | _, _ => false
  end.

Definition upper_char (c : ascii) : ascii :=
  let n := nat_of_ascii c in
  if ((97 <=? n)%nat && (n <=? 122)%nat)%bool then ascii_of_nat (n - 32) else c.

(** [s.upper()] on ASCII text. *)
Fixpoint upper (s : string) : string :=
  match s with
  | EmptyString => EmptyString
  | String c t => String (upper_char c) (upper t)
  end.

(** [", ".join(l)]. *)
Fixpoint join (sep : string) (l : list string) : string :=
  match l with
  | [] => ""
  | [x] => x
  | x :: rest => (x ++ sep ++ join sep rest)%string
  end.

(* ================================================================== *)
(** ** Dates *)

Inductive Month :=
  Jan | Feb | Mar | Apr | May | Jun | Jul | Aug | Sep | Oct | Nov | Dec.

(** A [datetime.datetime] value. *)
Record datetime := {
  year : nat;
  month : Month;
  day : nat;
  hour : nat;
  minute : nat;
  second : nat
}.

(** [%b] in the C locale. *)
Definition month_abbr (m : Month) : string :=
  match m with
  | Jan => "Jan" | Feb => "Feb" | Mar => "Mar" | Apr => "Apr"
  | May => "May" | Jun => "Jun" | Jul => "Jul" | Aug => "Aug"
  | Sep => "Sep" | Oct => "Oct" | Nov => "Nov" | Dec => "Dec"
  end.

Definition digit (n : nat) : ascii := ascii_of_nat (48 + n mod 10).

(** [%d]: the day as two digits. *)
Definition two_digits (n : nat) : string :=
  String (digit (n / 10)) (String (digit n) "").

(** [%Y] as the C library of Linux renders it: the year in decimal, as
    many digits as it has and no padding (999 gives three digits). *)
Definition year_digits (n : nat) : string :=
  NilEmpty.string_of_uint (Nat.to_uint n).

(** [d.strftime("%d-%b-%Y")]. *)
Definition strftime_d_b_Y (d : datetime) : string :=
  (two_digits (day d) ++ "-" ++ month_abbr (month d) ++ "-"
     ++ year_digits (year d))%string.

(* ================================================================== *)
(** ** Search criteria: [EmailClient._build_search_criteria] *)

(** The filter arguments shared by [get_emails_stream], [get_email_count]
    and [get_emails]. *)
Record SearchFilter := {
  f_before : option datetime;
  f_since : option datetime;
  f_subject : option string;
  f_body : option string;
  f_text : option string;
  f_from_address : option string;
  f_to_address : option string;
  f_is_unread : option bool;
  f_is_flagged : option bool
}.

(** [_add_flag_criteria]: the tokens appended to the list. *)
Definition _add_flag_criteria (search_criteria : list string)
    (is_unread is_flagged : option bool) : list string :=
  let search_criteria :=
    match is_unread with
    | Some true => search_criteria ++ ["UNSEEN"]
    | Some false => search_criteria ++ ["SEEN"]
    | None => search_criteria
    end in
  match is_flagged with
  | Some true => search_criteria ++ ["FLAGGED"]
  | Some false => search_criteria ++ ["UNFLAGGED"]
  | None => search_criteria
  end.

(** [if x: search_criteria.extend([key, x])] for a text field. *)
Definition extend_text (search_criteria : list string) (key : string)
    (x : option string) : list string :=
  match x with
  | Some v => if truthy_str x then search_criteria ++ [key; v] else search_criteria
  | None => search_criteria
  end.

(** [if d: search_criteria.extend([key, d.strftime(..).upper()])]; a
    [datetime] is always truthy. *)
Definition extend_date (search_criteria : list string) (key : string)
    (d : option datetime) : list string :=
  match d with
  | Some d => search_criteria ++ [key; upper (strftime_d_b_Y d)]
  | None => search_criteria
  end.

Definition _build_search_criteria (f : SearchFilter) : list string :=
  let search_criteria := [] in
  let search_criteria := extend_date search_criteria "BEFORE" (f_before f) in
  let search_criteria := extend_date search_criteria "SINCE" (f_since f) in
  let search_criteria := extend_text search_criteria "SUBJECT" (f_subject f) in
  let search_criteria := extend_text search_criteria "BODY" (f_body f) in
  let search_criteria := extend_text search_criteria "TEXT" (f_text f) in
  let search_criteria := extend_text search_criteria "FROM" (f_from_address f) in
  let search_criteria := extend_text search_criteria "TO" (f_to_address f) in
  let search_criteria :=
    _add_flag_criteria search_criteria (f_is_unread f) (f_is_flagged f) in
  match search_criteria with
  | [] => ["ALL"]
  | _ => search_criteria
  end.

Definition no_filter : SearchFilter :=
  {| f_before := None; f_since := None; f_subject := None; f_body := None;
     f_text := None; f_from_address := None; f_to_address := None;
     f_is_unread := None; f_is_flagged := None |}.

(* ================================================================== *)
(** ** Exceptions and results of library calls *)

(** The exception classes that matter to the handlers of the code; all
    of them derive from [Exception]. *)
Inductive exc :=
  | UnicodeDecodeError
  | LookupError
  | IndexError
  | TypeError
  | OtherError (what : string).

(** The result of a call into a library or into a session. *)
Inductive reply (A : Type) :=
  | Reply (a : A)
  | Fails (e : exc).
Arguments Reply {A} a.
Arguments Fails {A} e.

(* ================================================================== *)
(** ** The standard [email] package, as the parser uses it *)

(** [r] then [k]: a failing call ends the computation with its
    exception. *)
Definition and_then {A B : Type} (r : reply A) (k : A -> reply B) : reply B :=
  match r with
  | Reply a => k a
  | Fails e => Fails e
  end.

(** What the accessors of one [EmailMessage] part return.  Under
    [policy=default] an accessor parses the header it reads, and raises
    on some malformed ones: every accessor is a call that may fail. *)
Record Part := {
  get_content_type : reply string;
  (** [part.get("Content-Disposition", "")] *)
  get_content_disposition : reply (option string);
  get_filename : reply (option string);
  (** [part.get_payload(decode=True)]; [None] on a multipart container *)
  get_payload_decoded : reply (option bytes);
  (** the declared [charset] parameter, when there is one *)
  declared_charset : reply (option string)
}.

(** [part.get_content_charset("utf-8")]. *)
Definition get_content_charset (p : Part) (failobj : string) : reply string :=
  and_then (declared_charset p)
    (fun c => match c with
              | Some c => Reply c
              | None => Reply failobj
              end).

(** What [BytesParser(policy=default).parsebytes] returns, seen through
    the accessors the code calls. *)
Record EmailMessage := {
  (** [email_message.get("Subject", "")], and likewise From and Date:
      [None] when the header is absent, a failure when reading it
      raises *)
  get_subject : reply (option string);
  get_from : reply (option string);
  get_date : reply (option string);
  is_multipart : bool;
  (** [walk()]: the message itself, then its sub-parts, depth first *)
  walk : list Part;
  (** the message itself, as a part *)
  self_part : Part
}.

(** The 10-tuple of [email.utils.parsedate_tz], reduced to the fields
    that carry information. *)
Record date_tuple := {
  dt_year : Z; dt_month : Z; dt_day : Z;
  dt_hour : Z; dt_minute : Z; dt_second : Z;
  dt_tzoffset : option Z
}.

Record EmailLib := {
  parsebytes : bytes -> reply EmailMessage;
  parsedate_tz : string -> reply (option date_tuple);
  mktime_tz : date_tuple -> reply Z;
  fromtimestamp : Z -> reply datetime;
  (** [datetime.now()]: the reading of the wall clock *)
  now : datetime;
  (** [b.decode(charset)]: fails with [UnicodeDecodeError] on bytes that
      are invalid in a known charset, with [LookupError] on a charset
      that is not known *)
  decode : bytes -> string -> reply string;
  (** [b.decode("utf-8", errors="replace")], total *)
  decode_utf8_replace : bytes -> string;
  (** [b.decode("utf-8", errors="ignore")], total; the code splits the
      result at white space *)
  decode_utf8_ignore : bytes -> str
}.

(** The dictionary returned by [_parse_email_data]. *)
Record ParsedEmail := {
  pe_subject : string;
  pe_from : string;
  pe_body : string;
  pe_date : datetime;
  pe_attachments : list string
}.

Definition get_default (h : option string) (failobj : string) : string :=
  match h with
  | Some v => v
  | None => failobj
  end.

Definition truthy_bytes (b : option bytes) : bool := truthy_str b.

Section Parser.

Variable lib : EmailLib.

Notation "x <- r ;; k" := (and_then r (fun x => k))
  (at level 61, r at next level, right associativity).

(** Lines 39-43: the date, or the wall clock on any failure. *)
Definition parse_date (date_str : string) : datetime :=
  match parsedate_tz lib date_str with
  | Reply (Some date_tuple) =>
      match mktime_tz lib date_tuple with
      | Reply ts =>
          match fromtimestamp lib ts with
          | Reply d => d
          | Fails _ => now lib
          end
      | Fails _ => now lib
      end
  | Reply None => now lib
  | Fails _ => now lib
  end.

(** [try: b.decode(charset) except UnicodeDecodeError:
    b.decode("utf-8", errors="replace")]. *)
Definition decode_or_replace (b : bytes) (charset : string) : reply string :=
  match decode lib b charset with
  | Reply s => Reply s
  | Fails UnicodeDecodeError => Reply (decode_utf8_replace lib b)
  | Fails e => Fails e
  end.

(** Lines 50-67: the loop over [email_message.walk()]. *)
Fixpoint walk_parts (parts : list Part) (body : string)
    (attachments : list string) : reply (string * list string) :=
  match parts with
  | [] => Reply (body, attachments)
  | part :: rest =>
      content_type <- get_content_type part ;;
      disposition <- get_content_disposition part ;;
      let content_disposition := get_default disposition "" in
      if contains "attachment" content_disposition then
        filename <- get_filename part ;;
        if truthy_str filename
        then walk_parts rest body (attachments ++ [get_default filename ""])
        else walk_parts rest body attachments
      else if (content_type =? "text/plain")%string then
        body_part <- get_payload_decoded part ;;
        match body_part with
        | Some b =>
            if truthy_bytes body_part then
              charset <- get_content_charset part "utf-8" ;;
              s <- decode_or_replace b charset ;;
              walk_parts rest (body ++ s)%string attachments
            else walk_parts rest body attachments
        | None => walk_parts rest body attachments
        end
      else walk_parts rest body attachments
  end.

Definition _parse_email_data (raw_email : bytes) : reply ParsedEmail :=
  email_message <- parsebytes lib raw_email ;;
  subject <- get_subject email_message ;;
  sender <- get_from email_message ;;
  date_str <- get_date email_message ;;
  let subject := get_default subject "" in
  let sender := get_default sender "" in
  let date_str := get_default date_str "" in
  let date := parse_date date_str in
  result <-
    (if is_multipart email_message then
       walk_parts (walk email_message) "" []
     else
       payload <- get_payload_decoded (self_part email_message) ;;
       match payload with
       | Some b =>
           if truthy_bytes payload then
             charset <- get_content_charset (self_part email_message) "utf-8" ;;
             s <- decode_or_replace b charset ;;
             Reply (s, [])
           else Reply ("", [])
       | None => Reply ("", [])
       end) ;;
  Reply {| pe_subject := subject; pe_from := sender; pe_body := fst result;
           pe_date := date; pe_attachments := snd result |}.

End Parser.

(* ================================================================== *)
(** ** The IMAP session and the trace of a run *)

(** One element of the [data] list of an IMAP response: the protocol
    lines are [bytes], the literals are [bytearray]; anything else is
    [Other]. *)
Inductive item :=
  | Bytes (b : bytes)
  | ByteArray (b : bytes)
  | Other.

(** The [data] of a fetch response, [None] included. *)
Definition pydata := option (list item).

(** [EmailServer] of the configuration. *)
Record EmailServer := {
  user_name : string;
  password : string;
  host : string;
  port : Z;
  use_ssl : bool;
  start_ssl : bool
}.

(** The awaited operations of an [aioimaplib] session over a server
    state [St].  Each takes the state and returns the next one with its
    reply; a reply [Fails e] is the operation raising [e]. *)
Record IMAP (St : Type) := {
  client_task : St -> St * reply unit;
  wait_hello_from_server : St -> St * reply unit;
  login : string -> string -> St -> St * reply unit;
  id_ : string -> string -> St -> St * reply unit;
  select : string -> St -> St * reply unit;
  (** the second component of the response of [uid_search] *)
  uid_search : list string -> St -> St * reply (option (list bytes));
  (** the second component of the response of [uid("fetch", uid, fmt)] *)
  uid_fetch : string -> string -> St -> St * reply pydata;
  logout : St -> St * reply unit
}.

Inductive command :=
  | CClientTask
  | CHello
  | CLogin (user pass : string)
  | CId (name version : string)
  | CSelect (mailbox : string)
  | CSearch (criteria : list string)
  | CLogout.

Inductive level := Debug | Info | Warning | Error.

(** The calls to [logger], one constructor per call site. *)
Inductive log_msg :=
  | IdCommandFailed (e : exc)
  | GetSearchCriteria (criteria : list string)
  | NoMessagesReturned
  | FoundMessageIds (n : nat)
  | FetchFormatFailed (fmt : string) (e : exc)
  | FailedAnyFormat (uid : string)
  | ResponseItems (uid : string) (n : nat)
  | ResponseItem (i : nat) (head : bytes)
  | ParsedFlags (flags : list str)
  | ErrorParsingEmail (e : exc)
  | NoEmailData (uid : string)
  | ErrorFetchingMessage (message_id : bytes) (e : exc)
  | ErrorDuringLogout (e : exc)
  | CountSearchCriteria (criteria : list string).

(** The dictionary a stream yields: the parsed fields and the flags. *)
Record EmailRecord := {
  parsed : ParsedEmail;
  flags : list str;
  is_read : bool;
  is_answered : bool;
  is_flagged : bool;
  is_deleted : bool;
  is_draft : bool;
  is_recent : bool
}.

(** What a run does, in order: session commands, fetches with the reply
    of the server, log calls, and the records handed to the consumer. *)
Inductive event :=
  | Call (c : command)
  | Fetch (uid fmt : string) (r : reply pydata)
  | Log (lvl : level) (m : log_msg)
  | Yield (r : EmailRecord).

(** How a block of code ends: normally, by an exception, or by the
    [GeneratorExit] thrown in at a [yield] when the consumer closes the
    generator. [GeneratorExit] is not an [Exception]. *)
Inductive outcome (A : Type) :=
  | Ok (a : A)
  | Raise (e : exc)
  | Closed.
Arguments Ok {A} a.
Arguments Raise {A} e.
Arguments Closed {A}.

Definition yields (evs : list event) : list EmailRecord :=
  flat_map (fun e => match e with Yield r => [r] | _ => [] end) evs.

Definition is_logout (e : event) : bool :=
  match e with
  | Call CLogout => true
  | _ => false
  end.

(** The fetches of a trace: the request encoding and the reply. *)
Definition fetches (evs : list event) : list (string * reply pydata) :=
  flat_map (fun e => match e with Fetch _ fmt r => [(fmt, r)] | _ => [] end) evs.

Definition errors_logged (evs : list event) : list log_msg :=
  flat_map (fun e => match e with Log Error m => [m] | _ => [] end) evs.

(* ================================================================== *)
(** ** The monad of the client: state, trace, exceptions *)

Section Client.

Variable St : Type.
Variable imap : IMAP St.
Variable lib : EmailLib.
Variable email_server : EmailServer.

(** The server, and the consumer of the stream: [Some k] closes the
    generator once it has received [k] records (one record when [k] is
    0: a generator that was never started has no session to close),
    [None] reads to the end. *)
Record world := {
  server : St;
  consumer : option nat
}.

Definition M (A : Type) := world -> outcome A * world * list event.

Definition ret {A} (a : A) : M A := fun w => (Ok a, w, []).

Definition bind {A B} (m : M A) (k : A -> M B) : M B := fun w =>
  match m w with
  | (Ok a, w1, e1) =>
      match k a w1 with
      | (r, w2, e2) => (r, w2, e1 ++ e2)
      end
  | (Raise e, w1, e1) => (Raise e, w1, e1)
  | (Closed, w1, e1) => (Closed, w1, e1)
  end.

Notation "x <- m ;; k" := (bind m (fun x => k))
  (at level 61, m at next level, right associativity).
Notation "m ;;; k" := (bind m (fun _ => k))
  (at level 61, right associativity).

Definition raise {A} (e : exc) : M A := fun w => (Raise e, w, []).

(** [try: m except Exception as e: h e]. *)
Definition try_except {A} (m : M A) (h : exc -> M A) : M A := fun w =>
  match m w with
  | (Raise e, w1, e1) =>
      match h e w1 with
      | (r, w2, e2) => (r, w2, e1 ++ e2)
      end
  | other => other
  end.

(** [try: m finally: fin].  The outcome is that of [m] unless [fin]
    itself does not end normally. *)
Definition try_finally {A} (m : M A) (fin : M unit) : M A := fun w =>
  match m w with
  | (r, w1, e1) =>
      match fin w1 with
      | (Ok _, w2, e2) => (r, w2, e1 ++ e2)
      | (Raise e, w2, e2) => (Raise e, w2, e1 ++ e2)
      | (Closed, w2, e2) => (Closed, w2, e1 ++ e2)
      end
  end.

Definition log (lvl : level) (m : log_msg) : M unit :=
  fun w => (Ok tt, w, [Log lvl m]).

Definition of_reply {A} (r : reply A) : outcome A :=
  match r with
  | Reply a => Ok a
  | Fails e => Raise e
  end.

(** An awaited session operation: the command is recorded, the server
    moves on, and a failing reply is raised. *)
Definition call {A} (c : command) (op : St -> St * reply A) : M A := fun w =>
  match op (server w) with
  | (s, r) => (of_reply r, {| server := s; consumer := consumer w |}, [Call c])
  end.

Definition fetch (uid fmt : string) : M pydata := fun w =>
  match uid_fetch imap uid fmt (server w) with
  | (s, r) =>
      (of_reply r, {| server := s; consumer := consumer w |}, [Fetch uid fmt r])
  end.

(** A pure library call that may raise. *)
Definition lift {A} (r : reply A) : M A := fun w => (of_reply r, w, []).

(** [yield r]: the record goes to the consumer; a consumer that has now
    received all it wanted closes the generator. *)
Definition yield_ (r : EmailRecord) : M unit := fun w =>
  match consumer w with
  | None => (Ok tt, w, [Yield r])
  | Some (S (S k)) =>
      (Ok tt, {| server := server w; consumer := Some (S k) |}, [Yield r])
  | Some _ =>
      (Closed, {| server := server w; consumer := Some 0%nat |}, [Yield r])
  end.

Fixpoint for_each {A} (l : list A) (body : A -> M unit) : M unit :=
  match l with
  | [] => ret tt
  | x :: rest => body x ;;; for_each rest body
  end.

(* ------------------------------------------------------------------ *)
(** *** One message: lines 138-232 *)

Definition fetch_formats : list string :=
  ["(BODY.PEEK[] FLAGS)"; "BODY.PEEK[] FLAGS"; "(BODY[] FLAGS)"; "(RFC822 FLAGS)"].

(** [if data:] on a response. *)
Definition truthy_data (data : pydata) : bool :=
  match data with
  | Some (_ :: _) => true
  | _ => false
  end.

Definition items_of (data : pydata) : list item :=
  match data with
  | Some l => l
  | None => []
  end.

(** Lines 156-161: a protocol line such as [FETCH (UID 71998)]. *)
Definition is_metadata (it : item) : bool :=
  match it with
  | Bytes b =>
      contains "FETCH (" b && negb (contains "RFC822" b) && negb (contains "BODY" b)
  | _ => false
  end.

(** Line 164: [isinstance(item, bytes | bytearray) and len(item) > 100]. *)
Definition long_bytes (it : item) : bool :=
  match it with
  | Bytes b | ByteArray b => (100 <? len b)%Z
  | Other => false
  end.

(** Lines 154-167: the scan that sets [has_content]. *)
Fixpoint has_content (data : list item) : bool :=
  match data with
  | [] => false
  | it :: rest =>
      if is_metadata it then has_content rest
      else if long_bytes it then true
      else has_content rest
  end.

(** Lines 149-176: one request encoding.  The result is whether the loop
    breaks, and the value of [data] afterwards. *)
Definition attempt (message_id_str fetch_format : string) : M (bool * pydata) :=
  try_except
    (data <- fetch message_id_str fetch_format ;;
     if truthy_data data then
       if has_content (items_of data) then ret (true, data)
       else ret (false, None)
     else ret (false, data))
    (fun e =>
       log Debug (FetchFormatFailed fetch_format e) ;;;
       ret (false, None)).

(** Lines 148-176: the loop over the request encodings. *)
Fixpoint fetch_loop (formats : list string) (message_id_str : string)
    (data : pydata) : M pydata :=
  match formats with
  | [] => ret data
  | fetch_format :: rest =>
      r <- attempt message_id_str fetch_format ;;
      if fst r then ret (snd r) else fetch_loop rest message_id_str (snd r)
  end.

(** Lines 188-190: the debug dump of the [bytes] items. *)
Fixpoint log_items (i : nat) (data : list item) : M unit :=
  match data with
  | [] => ret tt
  | it :: rest =>
      match it with
      | Bytes b => log Debug (ResponseItem i (bytes_slice b 0 200))
      | _ => ret tt
      end ;;;
      log_items (S i) rest
  end.

(** Lines 194-201 for one item: the flags it carries, if any. *)
Definition flags_of_item (it : item) : option (list str) :=
  match it with
  | Bytes b =>
      if contains "FLAGS (" b then
        let start := (find "FLAGS (" b 0 + 7)%Z in
        let end_ := find ")" b start in
        if ((6 <? start)%Z && (start <? end_)%Z)%bool then
          let flags_str := decode_utf8_ignore lib (bytes_slice b start end_) in
          Some (str_split flags_str)
        else None
      else None
  | _ => None
  end.

(** Lines 203-212 for one item: the raw email it carries, if any. *)
Definition raw_of_item (it : item) : option bytes :=
  match it with
  | Bytes b =>
      if (100 <? len b)%Z then
        if (contains "FETCH" b
            && negb (contains "From:" b || contains "Subject:" b))%bool
        then None
        else Some b
      else None
  | ByteArray b => if (100 <? len b)%Z then Some b else None
  | Other => None
  end.

(** Lines 193-212: the loop that extracts [raw_email] and [email_flags]. *)
Fixpoint scan_items (data : list item) (raw_email : option bytes)
    (email_flags : list str) : M (option bytes * list str) :=
  match data with
  | [] => ret (raw_email, email_flags)
  | it :: rest =>
      email_flags <-
        match flags_of_item it with
        | Some fl => log Debug (ParsedFlags fl) ;;; ret fl
        | None => ret email_flags
        end ;;
      let raw_email :=
        match raw_of_item it with
        | Some b => Some b
        | None => raw_email
        end in
      scan_items rest raw_email email_flags
  end.

(** [x in email_flags]. *)
Definition mem (x : string) (l : list str) : bool :=
  existsb (str_eqb (str_of x)) l.

(** Lines 216-224. *)
Definition add_flags (parsed_email : ParsedEmail) (email_flags : list str)
    : EmailRecord :=
  {| parsed := parsed_email;
     flags := email_flags;
     is_read := mem "\Seen" email_flags;
     is_answered := mem "\Answered" email_flags;
     is_flagged := mem "\Flagged" email_flags;
     is_deleted := mem "\Deleted" email_flags;
     is_draft := mem "\Draft" email_flags;
     is_recent := mem "\Recent" email_flags |}.

(** Lines 182-230: from the response of the successful attempt to the
    record. *)
Definition deliver (message_id_str : string) (data : pydata) : M unit :=
  log Debug (ResponseItems message_id_str (List.length (items_of data))) ;;;
  log_items 0 (items_of data) ;;;
  found <- scan_items (items_of data) None [] ;;
  let raw_email := fst found in
  let email_flags := snd found in
  match raw_email with
  | Some raw =>
      if truthy_bytes raw_email then
        try_except
          (parsed_email <- lift (_parse_email_data lib raw) ;;
           yield_ (add_flags parsed_email email_flags))
          (fun e => log Error (ErrorParsingEmail e))
      else log Error (NoEmailData message_id_str)
  | None => log Error (NoEmailData message_id_str)
  end.

(** Lines 138-232: the body of the loop over the page, for one
    [message_id]. *)
Definition process_message (message_id : bytes) : M unit :=
  try_except
    (message_id_str <- lift (decode lib message_id "utf-8") ;;
     data <- fetch_loop fetch_formats message_id_str None ;;
     if negb (truthy_data data) then
       log Error (FailedAnyFormat message_id_str)
     else deliver message_id_str data)
    (fun e => log Error (ErrorFetchingMessage message_id e)).

(* ------------------------------------------------------------------ *)
(** *** [get_emails_stream] and [get_email_count] *)

(** Lines 124-129: the identifiers of a search response. *)
Definition message_ids_of (messages : option (list bytes)) : M (list bytes) :=
  match messages with
  | Some (first :: _) =>
      if truthy_bytes (Some first) then
        let message_ids := bytes_split first in
        log Info (FoundMessageIds (List.length message_ids)) ;;; ret message_ids
      else log Warning NoMessagesReturned ;;; ret []
  | _ => log Warning NoMessagesReturned ;;; ret []
  end.

(** Lines 130-137: the identifiers of the requested page. *)
Definition page_ids (page page_size : Z) (order : string)
    (message_ids : list bytes) : list bytes :=
  let start := ((page - 1) * page_size)%Z in
  let end_ := (start + page_size)%Z in
  let message_ids :=
    if (order =? "desc")%string then rev message_ids else message_ids in
  py_slice message_ids start end_.

(** Lines 235-238: the [finally] block. *)
Definition close_session : M unit :=
  try_except (call CLogout (logout imap))
             (fun e => log Info (ErrorDuringLogout e)).

(** Lines 103-232: the [try] block of [get_emails_stream]. *)
Definition stream_body (page page_size : Z) (f : SearchFilter) (order : string)
    : M unit :=
  call CClientTask (client_task imap) ;;;
  call CHello (wait_hello_from_server imap) ;;;
  call (CLogin (user_name email_server) (password email_server))
       (login imap (user_name email_server) (password email_server)) ;;;
  try_except
    (call (CId "mcp-email-server" "1.0.0") (id_ imap "mcp-email-server" "1.0.0"))
    (fun e => log Warning (IdCommandFailed e)) ;;;
  call (CSelect "INBOX") (select imap "INBOX") ;;;
  let search_criteria := _build_search_criteria f in
  log Info (GetSearchCriteria search_criteria) ;;;
  messages <- call (CSearch search_criteria) (uid_search imap search_criteria) ;;
  message_ids <- message_ids_of messages ;;
  for_each (page_ids page page_size order message_ids) process_message.

Definition get_emails_stream (page page_size : Z) (f : SearchFilter)
    (order : string) : M unit :=
  try_finally (stream_body page page_size f order) close_session.

(** Lines 304-317: the [try] block of [get_email_count].
    [messages[0]] raises on [None] and on the empty list. *)
Definition count_body (f : SearchFilter) : M Z :=
  call CClientTask (client_task imap) ;;;
  call CHello (wait_hello_from_server imap) ;;;
  call (CLogin (user_name email_server) (password email_server))
       (login imap (user_name email_server) (password email_server)) ;;;
  call (CSelect "INBOX") (select imap "INBOX") ;;;
  let search_criteria := _build_search_criteria f in
  log Info (CountSearchCriteria search_criteria) ;;;
  messages <- call (CSearch search_criteria) (uid_search imap search_criteria) ;;
  match messages with
  | None => raise TypeError
  | Some [] => raise IndexError
  | Some (first :: _) => ret (Z.of_nat (List.length (bytes_split first)))
  end.

Definition get_email_count (f : SearchFilter) : M Z :=
  try_finally (count_body f) close_session.

End Client.

Arguments world : clear implicits.
Arguments M : clear implicits.

(* ================================================================== *)
(** ** [models.py] and [ClassicEmailHandler.get_emails] *)

Record EmailData := {
  ed_subject : string;
  ed_sender : string;
  ed_body : string;
  ed_date : datetime;
  ed_attachments : list string;
  ed_is_read : bool;
  ed_is_answered : bool;
  ed_is_flagged : bool;
  ed_is_deleted : bool;
  ed_is_draft : bool;
  ed_is_recent : bool;
  ed_flags : list str
}.

(** [EmailData.from_email]; every key it reads is set by the stream. *)
Definition from_email (email : EmailRecord) : EmailData :=
  {| ed_subject := pe_subject (parsed email);
     ed_sender := pe_from (parsed email);
     ed_body := pe_body (parsed email);
     ed_date := pe_date (parsed email);
     ed_attachments := pe_attachments (parsed email);
     ed_is_read := is_read email;
     ed_is_answered := is_answered email;
     ed_is_flagged := is_flagged email;
     ed_is_deleted := is_deleted email;
     ed_is_draft := is_draft email;
     ed_is_recent := is_recent email;
     ed_flags := flags email |}.

Record EmailPageResponse := {
  page : Z;
  page_size : Z;
  before : option datetime;
  since : option datetime;
  subject : option string;
  body : option string;
  text : option string;
  emails : list EmailData;
  total : Z
}.

Section Handler.

Variable St : Type.
Variable imap : IMAP St.
Variable lib : EmailLib.
Variable email_server : EmailServer.

(** [get_emails] reads the stream to its end, then counts on a session
    of its own.  Both sessions talk to the same server, whose state is
    passed from the one to the other. *)
Definition get_emails (page page_size : Z) (f : SearchFilter) (order : string)
    (s : St) : outcome EmailPageResponse * St * list event :=
  match get_emails_stream imap lib email_server page page_size f order
          {| server := s; consumer := None |} with
  | (Ok _, w1, e1) =>
      let emails := map from_email (yields e1) in
      match get_email_count imap email_server f
              {| server := server w1; consumer := None |} with
      | (Ok total, w2, e2) =>
          (Ok {| page := page; page_size := page_size;
                 before := f_before f; since := f_since f;
                 subject := f_subject f; body := f_body f; text := f_text f;
                 emails := emails; total := total |},
           server w2, e1 ++ e2)
      | (Raise e, w2, e2) => (Raise e, server w2, e1 ++ e2)
      | (Closed, w2, e2) => (Closed, server w2, e1 ++ e2)
      end
  | (Raise e, w1, e1) => (Raise e, server w1, e1)
  | (Closed, w1, e1) => (Closed, server w1, e1)
  end.

End Handler.

(* ================================================================== *)
(** ** Sending: [EmailClient.send_email] *)

(** A message under composition: its headers in the order they were
    set, and its payload. *)
Record MimeMessage := {
  headers : list (string * string);
  payload : string
}.

(** [msg[name] = value]. *)
Definition set_header (msg : MimeMessage) (name value : string) : MimeMessage :=
  {| headers := headers msg ++ [(name, value)]; payload := payload msg |}.

(** [if l:] on a [list[str] | None]. *)
Definition truthy_list (l : option (list string)) : bool :=
  match l with
  | Some (_ :: _) => true
  | _ => false
  end.

Definition list_of (l : option (list string)) : list string :=
  match l with
  | Some x => x
  | None => []
  end.

(** The operations of an [aiosmtplib.SMTP] session. *)
Record SMTP (St : Type) := {
  (** [__aenter__]: connect *)
  smtp_enter : St -> St * reply unit;
  smtp_login : string -> string -> St -> St * reply unit;
  send_message : MimeMessage -> list string -> St -> St * reply unit;
  (** [__aexit__]: close the connection *)
  smtp_exit : St -> St * reply unit
}.

Inductive smtp_event :=
  | SmtpEnter
  | SmtpLogin (user pass : string)
  | SmtpSend (msg : MimeMessage) (recipients : list string)
  | SmtpExit.

Section Send.

Variable St : Type.
Variable smtp : SMTP St.
(** [MIMEText(body)]: the message with the headers the constructor sets. *)
Variable MIMEText : string -> MimeMessage.
Variable email_server : EmailServer.
Variable sender : string.

(** Lines 328-335. *)
Definition compose (recipients : list string) (subject body : string)
    (cc : option (list string)) : MimeMessage :=
  let msg := MIMEText body in
  let msg := set_header msg "Subject" subject in
  let msg := set_header msg "From" sender in
  let msg := set_header msg "To" (join ", " recipients) in
  if truthy_list cc then set_header msg "Cc" (join ", " (list_of cc)) else msg.

(** Lines 349-353. *)
Definition delivery_list (recipients : list string)
    (cc bcc : option (list string)) : list string :=
  let all_recipients := recipients in
  let all_recipients :=
    if truthy_list cc then all_recipients ++ list_of cc else all_recipients in
  if truthy_list bcc then all_recipients ++ list_of bcc else all_recipients.

(** Lines 346-355: the body of the [async with] block. *)
Definition send_body (msg : MimeMessage) (recipients : list string)
    (cc bcc : option (list string)) (s : St)
    : outcome unit * St * list smtp_event :=
  match smtp_login smtp (user_name email_server) (password email_server) s with
  | (s1, Fails e) =>
      (Raise e, s1, [SmtpLogin (user_name email_server) (password email_server)])
  | (s1, Reply _) =>
      let all_recipients := delivery_list recipients cc bcc in
      match send_message smtp msg all_recipients s1 with
      | (s2, r) =>
          (of_reply r, s2,
           [SmtpLogin (user_name email_server) (password email_server);
            SmtpSend msg all_recipients])
      end
  end.

Definition send_email (recipients : list string) (subject body : string)
    (cc bcc : option (list string)) (s : St)
    : outcome unit * St * list smtp_event :=
  let msg := compose recipients subject body cc in
  match smtp_enter smtp s with
  | (s0, Fails e) => (Raise e, s0, [SmtpEnter])
  | (s0, Reply _) =>
      match send_body msg recipients cc bcc s0 with
      | (r, s2, evs) =>
          match smtp_exit smtp s2 with
          | (s3, Fails e) => (Raise e, s3, SmtpEnter :: evs ++ [SmtpExit])
          | (s3, Reply _) => (r, s3, SmtpEnter :: evs ++ [SmtpExit])
          end
      end
  end.

(** The messages handed to the session, and the delivery lists. *)
Definition sent_messages (evs : list smtp_event) : list MimeMessage :=
  flat_map (fun e => match e with SmtpSend m _ => [m] | _ => [] end) evs.

Definition sent_to (evs : list smtp_event) : list (list string) :=
  flat_map (fun e => match e with SmtpSend _ r => [r] | _ => [] end) evs.

End Send.

(* ================================================================== *)
(** ** Test doubles *)

(** A session that answers from a fixed script, whatever came before. *)
Record script := {
  r_client_task : reply unit;
  r_hello : reply unit;
  r_login : reply unit;
  r_id : reply unit;
  r_select : reply unit;
  r_search : list string -> reply (option (list bytes));
  r_fetch : string -> string -> reply pydata;
  r_logout : reply unit
}.

Definition scripted (sc : script) : IMAP unit :=
  {| client_task := fun s => (s, r_client_task sc);
     wait_hello_from_server := fun s => (s, r_hello sc);
     login := fun _ _ s => (s, r_login sc);
     id_ := fun _ _ s => (s, r_id sc);
     select := fun _ s => (s, r_select sc);
     uid_search := fun criteria s => (s, r_search sc criteria);
     uid_fetch := fun uid fmt s => (s, r_fetch sc uid fmt);
     logout := fun s => (s, r_logout sc) |}.

(** The session reaches the selected mailbox. *)
Definition established (sc : script) : Prop :=
  r_client_task sc = Reply tt /\ r_hello sc = Reply tt /\
  r_login sc = Reply tt /\ r_select sc = Reply tt.

(** The world of a consumer that reads a scripted session to the end. *)
Definition w0 : world unit := {| server := tt; consumer := None |}.

Definition test_server : EmailServer :=
  {| user_name := "user"; password := "secret"; host := "imap.example.org";
     port := 993; use_ssl := true; start_ssl := false |}.

Definition all_ascii (b : bytes) : bool :=
  forallb (fun c => (nat_of_ascii c <? 128)%nat) (list_ascii_of_string b).

Definition unknown_charset_header : string :=
  "Content-Type: text/plain; charset=x-unknown

".

(** A double of the [email] package.  Its parser reads a message that
    starts with [unknown_charset_header] as a text part in the charset
    [x-unknown], and any other input as a text part without headers; its
    codec table holds ASCII under three names, its decoder with
    replacement returns the bytes as they are, and its decoder that
    ignores errors reads the ASCII characters and drops every other
    byte. *)
Definition toy_part (charset : option string) (b : bytes) : Part :=
  {| get_content_type := Reply "text/plain";
     get_content_disposition := Reply None;
     get_filename := Reply None;
     get_payload_decoded := Reply (Some b);
     declared_charset := Reply charset |}.

Definition toy_message (p : Part) : EmailMessage :=
  {| get_subject := Reply None; get_from := Reply None; get_date := Reply None;
     is_multipart := false; walk := [p]; self_part := p |}.

Definition epoch : datetime :=
  {| year := 1970; month := Jan; day := 1; hour := 0; minute := 0; second := 0 |}.

Definition toy_lib : EmailLib :=
  {| parsebytes := fun raw =>
       if prefix unknown_charset_header raw
       then Reply (toy_message
                     (toy_part (Some "x-unknown")
                        (drop (String.length unknown_charset_header) raw)))
       else Reply (toy_message (toy_part None raw));
     parsedate_tz := fun _ => Reply None;
     mktime_tz := fun _ => Reply 0%Z;
     fromtimestamp := fun _ => Reply epoch;
     now := epoch;
     decode := fun b charset =>
       if ((charset =? "utf-8") || (charset =? "ascii") || (charset =? "us-ascii"))%string
       then if all_ascii b then Reply b else Fails UnicodeDecodeError
       else Fails LookupError;
     decode_utf8_replace := fun b => b;
     decode_utf8_ignore := fun b =>
       map N_of_ascii
         (filter (fun c => (nat_of_ascii c <? 128)%nat)
            (list_ascii_of_string b)) |}.

Definition hundred_x : string :=
  "xxxxxxxxxxxxxxxxxxxxxxxxxxxxxxxxxxxxxxxxxxxxxxxxxxxxxxxxxxxxxxxxxxxxxxxxxxxxxxxxxxxxxxxxxxxxxxxxxxxx".

Definition sample_email (uid : string) : bytes :=
  ("From: alice@example.org Subject: message " ++ uid ++ " " ++ hundred_x)%string.

(** A fetch response with the message as a literal. *)
Definition content_response (uid : string) : pydata :=
  Some [ Bytes ("1 FETCH (UID " ++ uid ++ " FLAGS (\Seen) BODY[] {150}")%string;
         ByteArray (sample_email uid);
         Bytes ")";
         Bytes "Fetch completed" ].

(** A fetch response that carries flags and no message. *)
Definition flags_only_response : pydata :=
  Some [ Bytes "1 FETCH (FLAGS (\Seen))"; Bytes "Fetch completed" ].

(** A mailbox that holds [ids] and cannot deliver the messages in
    [broken]. *)
Definition mailbox (ids : list string) (broken : string -> bool) : script :=
  {| r_client_task := Reply tt; r_hello := Reply tt; r_login := Reply tt;
     r_id := Reply tt; r_select := Reply tt;
     r_search := fun _ => Reply (Some [join " " ids; "SEARCH completed"]);
     r_fetch := fun uid _ =>
       if broken uid then Fails (OtherError "fetch failed")
       else Reply (content_response uid);
     r_logout := Reply tt |}.

(** A mailbox whose server answers only the third request encoding with
    the message. *)
Definition third_format_only : script :=
  {| r_client_task := Reply tt; r_hello := Reply tt; r_login := Reply tt;
     r_id := Reply tt; r_select := Reply tt;
     r_search := fun _ => Reply (Some ["7"; "SEARCH completed"]);
     r_fetch := fun uid fmt =>
       if (fmt =? "(BODY[] FLAGS)")%string then Reply (content_response uid)
       else Reply flags_only_response;
     r_logout := Reply tt |}.

(** A server whose search response has no lines at all. *)
Definition no_result : script :=
  {| r_client_task := Reply tt; r_hello := Reply tt; r_login := Reply tt;
     r_id := Reply tt; r_select := Reply tt;
     r_search := fun _ => Reply (Some []);
     r_fetch := fun _ _ => Reply None;
     r_logout := Reply tt |}.

(** A mailbox that holds [ids], with the given replies to login and
    logout and the given answer to the fetch of each identifier. *)
Definition mailbox_where (ids : list string) (login_reply logout_reply : reply unit)
    (answer : string -> reply pydata) : script :=
  {| r_client_task := Reply tt; r_hello := Reply tt; r_login := login_reply;
     r_id := Reply tt; r_select := Reply tt;
     r_search := fun _ => Reply (Some [join " " ids; "SEARCH completed"]);
     r_fetch := fun uid _ => answer uid;
     r_logout := logout_reply |}.

(** A fetch response whose literal is a message in an unknown charset. *)
Definition unknown_charset_response : pydata :=
  Some [ ByteArray (unknown_charset_header ++ hundred_x ++ hundred_x)%string ].

(** The world of a consumer that closes the stream after [k] records. *)
Definition closing_after (k : nat) : world unit :=
  {| server := tt; consumer := Some k |}.

Fixpoint decimal_ids (n : nat) : list string :=
  match n with
  | O => []
  | S k => decimal_ids k ++ [(two_digits (S k))]
  end.

(** The identifiers [01 .. 25]. *)
Definition ids25 : list string := decimal_ids 25.

(* ================================================================== *)
(** ** Notions used in the statements *)

Definition is_some {A : Type} (o : option A) : bool :=
  match o with
  | Some _ => true
  | None => false
  end.

(** Some field of the filter is given a value. *)
Definition any_field_set (f : SearchFilter) : bool :=
  is_some (f_before f) || is_some (f_since f) || is_some (f_subject f)
  || is_some (f_body f) || is_some (f_text f) || is_some (f_from_address f)
  || is_some (f_to_address f) || is_some (f_is_unread f)
  || is_some (f_is_flagged f).

(** Some field of the filter is given a value other than the empty text. *)
Definition any_field_used (f : SearchFilter) : bool :=
  is_some (f_before f) || is_some (f_since f) || truthy_str (f_subject f)
  || truthy_str (f_body f) || truthy_str (f_text f)
  || truthy_str (f_from_address f) || truthy_str (f_to_address f)
  || is_some (f_is_unread f) || is_some (f_is_flagged f).

Definition text_fields (f : SearchFilter) : list (option string) :=
  [f_subject f; f_body f; f_text f; f_from_address f; f_to_address f].

Definition with_text_fields (f : SearchFilter)
    (subject body text from_address to_address : option string) : SearchFilter :=
  {| f_before := f_before f; f_since := f_since f;
     f_subject := subject; f_body := body; f_text := text;
     f_from_address := from_address; f_to_address := to_address;
     f_is_unread := f_is_unread f; f_is_flagged := f_is_flagged f |}.

(** An empty text becomes an absent field. *)
Definition absent_if_empty (x : option string) : option string :=
  match x with
  | Some EmptyString => None
  | _ => x
  end.

Definition empty_subject_filter : SearchFilter :=
  with_text_fields no_filter (Some "") None None None None.

Definition unread_filter : SearchFilter :=
  {| f_before := None; f_since := None; f_subject := None; f_body := None;
     f_text := None; f_from_address := None; f_to_address := None;
     f_is_unread := Some true; f_is_flagged := None |}.

(** The tokens of the fields, before the fallback to [ALL]. *)
Definition date_tokens (key : string) (d : option datetime) : list string :=
  extend_date [] key d.

Definition text_tokens (key : string) (x : option string) : list string :=
  extend_text [] key x.

Definition field_tokens (f : SearchFilter) : list string :=
  date_tokens "BEFORE" (f_before f) ++ date_tokens "SINCE" (f_since f)
  ++ text_tokens "SUBJECT" (f_subject f) ++ text_tokens "BODY" (f_body f)
  ++ text_tokens "TEXT" (f_text f) ++ text_tokens "FROM" (f_from_address f)
  ++ text_tokens "TO" (f_to_address f)
  ++ _add_flag_criteria [] (f_is_unread f) (f_is_flagged f).

(** The positions [i] of [l] with [start <= i < stop], as the words
    "half-open slice [start, stop)" say it. *)
Definition half_open_slice {A : Type} (l : list A) (start stop : Z) : list A :=
  map snd
    (filter (fun p => ((start <=? Z.of_nat (fst p)) && (Z.of_nat (fst p) <? stop))%Z)
            (combine (seq 0 (List.length l)) l)).

(** The pages on which the slice of lines 130-137 is counted from the
    end of a list of [n] identifiers: the end bound [page * page_size] is
    negative, with a negative page or with page 1, and the list holds
    more than [-(page * page_size)] identifiers. *)
Definition served_from_the_end (page page_size : Z) (n : nat) : bool :=
  ((((page <? 0) && (0 <? page_size)) || ((page =? 1) && (page_size <? 0)))
   && (- (page * page_size) <? Z.of_nat n))%Z.

(** The identifiers a search response holds (lines 124-128). *)
Definition search_ids (messages : option (list bytes)) : list bytes :=
  match messages with
  | Some (first :: _) => bytes_split first
  | _ => []
  end.

(** An item of a response that the scan of an attempt takes for the
    message: long enough, and not a metadata line. *)
Definition content_bearing (it : item) : bool :=
  negb (is_metadata it) && long_bytes it.

(** An attempt succeeds when its response is non-empty and the scan
    finds content (lines 152-172). *)
Definition succeeded (r : reply pydata) : bool :=
  match r with
  | Reply data => truthy_data data && has_content (items_of data)
  | Fails _ => false
  end.

(** The events of one message of a scripted session read to the end. *)
Definition message_events (sc : script) (lib : EmailLib) (message_id : bytes)
    : list event :=
  snd (process_message (scripted sc) lib message_id w0).

(** The log call of lines 124-129. *)
Definition search_log (messages : option (list bytes)) : event :=
  match messages with
  | Some (String c first :: _) =>
      Log Info (FoundMessageIds (List.length (bytes_split (String c first))))
  | _ => Log Warning NoMessagesReturned
  end.

(** The events of a scripted stream before the first message. *)
Definition prelude (sc : script) (email_server : EmailServer)
    (f : SearchFilter) (messages : option (list bytes)) : list event :=
  [Call CClientTask; Call CHello;
   Call (CLogin (user_name email_server) (password email_server));
   Call (CId "mcp-email-server" "1.0.0")]
  ++ match r_id sc with
     | Reply _ => []
     | Fails e => [Log Warning (IdCommandFailed e)]
     end
  ++ [Call (CSelect "INBOX");
      Log Info (GetSearchCriteria (_build_search_criteria f));
      Call (CSearch (_build_search_criteria f));
      search_log messages].

(** What the [finally] block adds to the trace after the logout call. *)
Definition logout_log (r : reply unit) : list event :=
  match r with
  | Reply _ => []
  | Fails e => [Log Info (ErrorDuringLogout e)]
  end.

(** The value of [data] after an attempt that did not succeed. *)
Definition after_miss (r : reply pydata) : pydata :=
  match r with
  | Reply data => if truthy_data data then None else data
  | Fails _ => None
  end.

(** [fallback formats data0 attempts data]: the loop over [formats],
    entered with [data0], makes [attempts] and leaves [data]. *)
Inductive fallback :
    list string -> pydata -> list (string * reply pydata) -> pydata -> Prop :=
  | fallback_done data0 :
      fallback [] data0 [] data0
  | fallback_hit fmt rest data0 data :
      succeeded (Reply data) = true ->
      fallback (fmt :: rest) data0 [(fmt, Reply data)] data
  | fallback_miss fmt rest data0 r attempts data :
      succeeded r = false ->
      fallback rest (after_miss r) attempts data ->
      fallback (fmt :: rest) data0 ((fmt, r) :: attempts) data.

Section Invariants.

Variable St : Type.

(** Every event of every run of [m] satisfies [P], and a run of [m]
    whose consumer reads to the end is not closed and leaves the consumer
    reading. *)
Definition respects (P : event -> Prop) {A : Type} (m : M St A) : Prop :=
  forall w,
    Forall P (snd (m w)) /\
    (consumer w = None ->
     consumer (snd (fst (m w))) = None /\ fst (fst (m w)) <> Closed).

End Invariants.

(** Predicates on the events of a trace: anything but a fetch; a log
    call; anything but a logout; a fetch or a log call below [Error]. *)
Definition no_fetch (e : event) : Prop :=
  match e with
  | Fetch _ _ _ => False
  | _ => True
  end.

Definition only_log (e : event) : Prop :=
  match e with
  | Log _ _ => True
  | _ => False
  end.

(** No run of [m] yields more than [n] records. *)
Definition yields_at_most (St : Type) (n : nat) {A : Type} (m : M St A) : Prop :=
  forall w, (List.length (yields (snd (m w))) <= n)%nat.

(** The identifiers of the fetches of a trace. *)
Definition fetched (evs : list event) : list string :=
  flat_map (fun e => match e with Fetch uid _ _ => [uid] | _ => [] end) evs.

Definition not_logout (e : event) : Prop := is_logout e = false.

Definition quiet (e : event) : Prop :=
  match e with
  | Yield _ | Log Error _ | Call _ => False
  | _ => True
  end.

(* ================================================================== *)
(** ** The clients of the handler and further notions *)

(** The test of an attempt, spelled out on one item after lines 156-167:
    the item has more than 100 bytes and is not a [bytes] line that
    mentions "FETCH (" and neither "RFC822" nor "BODY". *)
Definition passes_scan (it : item) : bool :=
  match it with
  | Bytes b =>
      (100 <? len b)%Z
      && (negb (contains "FETCH (" b) || contains "RFC822" b || contains "BODY" b)
  | ByteArray b => (100 <? len b)%Z
  | Other => false
  end.

(** An attempt that ends the fallback: its response holds an item that
    passes the test. *)
Definition passes (r : reply pydata) : bool :=
  match r with
  | Reply (Some items) => existsb passes_scan items
  | _ => false
  end.

(** A content-bearing fragment as the specification words it: above the
    threshold of 100 bytes and, when it is a [bytes] line of protocol
    chatter (it mentions FETCH), marked as a message by "From:" or
    "Subject:". *)
Definition content_fragment (it : item) : bool :=
  match it with
  | Bytes b =>
      (100 <? len b)%Z
      && (negb (contains "FETCH" b) || contains "From:" b || contains "Subject:" b)
  | ByteArray b => (100 <? len b)%Z
  | Other => false
  end.

(** A fragment that carries flags. *)
Definition flags_fragment (it : item) : bool :=
  match it with
  | Bytes b => contains "FLAGS (" b
  | _ => false
  end.

(** A response that carries only flags and no content. *)
Definition only_flags (data : pydata) : bool :=
  existsb flags_fragment (items_of data)
  && negb (existsb content_fragment (items_of data)).

(** The attempts that the words of the fallback prescribe for the
    identifier [uid] on a session in state [s]: the encodings are asked
    one after the other, each on the state the previous one left, up to
    the first whose response passes. *)
Fixpoint attempts_from (St : Type) (imap : IMAP St) (formats : list string)
    (uid : string) (s : St) : list (string * reply pydata) :=
  match formats with
  | [] => []
  | fetch_format :: rest =>
      match uid_fetch imap uid fetch_format s with
      | (s', r) =>
          (fetch_format, r)
          :: (if passes r then [] else attempts_from imap rest uid s')
      end
  end.

(** A flags line of more than 100 bytes for a message whose body the
    server does not give: flags, and no content. *)
Definition long_flags_line : bytes :=
  "1 FETCH (UID 7 FLAGS (\Seen \Answered \Flagged $Forwarded $MDNSent NonJunk $label1 $label2 $label3) BODY[] NIL)".

Definition long_flags_response : pydata :=
  Some [ Bytes long_flags_line; Bytes "Fetch completed" ].

(** A mailbox whose server answers the third request encoding with the
    message, and the others with the long flags line. *)
Definition flags_before_content : script :=
  {| r_client_task := Reply tt; r_hello := Reply tt; r_login := Reply tt;
     r_id := Reply tt; r_select := Reply tt;
     r_search := fun _ => Reply (Some ["7"; "SEARCH completed"]);
     r_fetch := fun uid fmt =>
       if (fmt =? "(BODY[] FLAGS)")%string then Reply (content_response uid)
       else Reply long_flags_response;
     r_logout := Reply tt |}.

(** Line 55: the part is an attachment. *)
Definition is_attachment (part : Part) : bool :=
  match get_content_disposition part with
  | Reply disposition => contains "attachment" (get_default disposition "")
  | Fails _ => false
  end.

(** The parts that lines 60-67 add to the body. *)
Definition is_body_part (part : Part) : bool :=
  negb (is_attachment part)
  && match get_content_type part with
     | Reply content_type => (content_type =? "text/plain")%string
     | Fails _ => false
     end
  && match get_payload_decoded part with
     | Reply body_part => truthy_bytes body_part
     | Fails _ => false
     end.

(** The file names that lines 55-58 collect. *)
Definition attachment_names (parts : list Part) : list string :=
  flat_map
    (fun part =>
       if is_attachment part then
         match get_filename part with
         | Reply filename =>
             if truthy_str filename then [get_default filename ""] else []
         | Fails _ => []
         end
       else [])
    parts.

(** Some accessor of the part raises [e]. *)
Definition accessor_fails (part : Part) (e : exc) : Prop :=
  get_content_type part = Fails e \/ get_content_disposition part = Fails e \/
  get_filename part = Fails e \/ get_payload_decoded part = Fails e \/
  declared_charset part = Fails e.


(** Reading one of the three headers of the message raises [e]. *)
Definition header_fails (email_message : EmailMessage) (e : exc) : Prop :=
  get_subject email_message = Fails e \/ get_from email_message = Fails e \/
  get_date email_message = Fails e.

(** The parts the parser reads: those of [walk()] for a multipart
    message, and else the message itself. *)
Definition parts_read (email_message : EmailMessage) : list Part :=
  if is_multipart email_message then walk email_message
  else [self_part email_message].

(** No header and no accessor of a part that the parser reads raises. *)
Definition readable (email_message : EmailMessage) : Prop :=
  (forall e, ~ header_fails email_message e) /\
  (forall part e, In part (parts_read email_message) -> ~ accessor_fails part e).

(** [EmailSettings] of the configuration, as the handler reads it. *)
Record EmailSettings := {
  full_name : string;
  email_address : string;
  incoming : EmailServer;
  outgoing : EmailServer
}.

Inductive imap_class := IMAP4_SSL | IMAP4.

(** The attributes that [EmailClient.__init__] sets. *)
Record EmailClient := {
  ec_email_server : EmailServer;
  ec_sender : string;
  ec_imap_class : imap_class;
  ec_smtp_use_tls : bool;
  ec_smtp_start_tls : bool
}.

(** [EmailClient.__init__]: lines 19-26. *)
Definition EmailClient_init (email_server : EmailServer) (sender : option string)
    : EmailClient :=
  {| ec_email_server := email_server;
     ec_sender := if truthy_str sender then get_default sender ""
                  else user_name email_server;
     ec_imap_class := if use_ssl email_server then IMAP4_SSL else IMAP4;
     ec_smtp_use_tls := use_ssl email_server;
     ec_smtp_start_tls := start_ssl email_server |}.

Record ClassicEmailHandler := {
  email_settings : EmailSettings;
  incoming_client : EmailClient;
  outgoing_client : EmailClient
}.

(** [ClassicEmailHandler.__init__]: lines 359-365. *)
Definition ClassicEmailHandler_init (email_settings : EmailSettings)
    : ClassicEmailHandler :=
  {| email_settings := email_settings;
     incoming_client := EmailClient_init (incoming email_settings) None;
     outgoing_client :=
       EmailClient_init (outgoing email_settings)
         (Some (full_name email_settings ++ " <"
                ++ email_address email_settings ++ ">")%string) |}.

(** [EmailClient.send_email] on a client, and
    [ClassicEmailHandler.send_email]: lines 402-405. *)
Definition client_send_email (St : Type) (smtp : SMTP St)
    (MIMEText : string -> MimeMessage) (client : EmailClient)
    (recipients : list string) (subject body : string)
    (cc bcc : option (list string)) (s : St)
    : outcome unit * St * list smtp_event :=
  send_email smtp MIMEText (ec_email_server client) (ec_sender client)
    recipients subject body cc bcc s.

Definition handler_send_email (St : Type) (smtp : SMTP St)
    (MIMEText : string -> MimeMessage) (handler : ClassicEmailHandler)
    (recipients : list string) (subject body : string)
    (cc bcc : option (list string)) (s : St)
    : outcome unit * St * list smtp_event :=
  client_send_email smtp MIMEText (outgoing_client handler)
    recipients subject body cc bcc s.

(** The logins of a trace. *)
Definition smtp_logins (evs : list smtp_event) : list (string * string) :=
  flat_map (fun e => match e with SmtpLogin u p => [(u, p)] | _ => [] end) evs.

Definition flag_words : list string := ["UNSEEN"; "SEEN"; "FLAGGED"; "UNFLAGGED"].

Definition keyed_text_fields (f : SearchFilter) : list (string * option string) :=
  [("SUBJECT", f_subject f); ("BODY", f_body f); ("TEXT", f_text f);
   ("FROM", f_from_address f); ("TO", f_to_address f)].

(** A non-empty [str] without a white space character. *)
Definition is_str_word (s : str) : bool :=
  negb (str_eqb s []) && forallb (fun c => negb (str_space c)) s.

(** A non-empty run of characters without [bytes] whitespace. *)
Definition is_word (s : string) : bool :=
  negb (s =? "")%string
  && forallb (fun c => negb (bytes_space c)) (list_ascii_of_string s).

Definition no_space (s : string) : bool :=
  forallb (fun c => negb (bytes_space c)) (list_ascii_of_string s).

(** The identifiers in the order of the stream: reversed for [desc]. *)
Definition ordered (order : string) (ids : list bytes) : list bytes :=
  if (order =? "desc")%string then rev ids else ids.


(** An event of the session itself: a command or a log call. *)
Definition session_event (e : event) : Prop :=
  match e with
  | Fetch _ _ _ | Yield _ => False
  | _ => True
  end.

(** The criteria of the searches of a trace. *)
Definition searches (evs : list event) : list (list string) :=
  flat_map (fun e => match e with Call (CSearch c) => [c] | _ => [] end) evs.

Section MoreInvariants.

Variable St : Type.


End MoreInvariants.

Section Budget.

Variable St : Type.

(** With a consumer that closes after [k] records ([k] at least 1, and 0
    counts as 1): a run of [m] that is closed ends on the [yield] of the
    last record the consumer wanted; a run that is not closed leaves a
    consumer that wants the records not yet yielded. *)
Definition budgeted {A : Type} (m : M St A) : Prop :=
  forall w k, consumer w = Some k ->
    match m w with
    | (Closed, _, evs) =>
        (exists pre r, evs = pre ++ [Yield r]) /\
        List.length (yields evs) = Nat.max k 1
    | (_, w', evs) =>
        exists k', consumer w' = Some k' /\
          (List.length (yields evs) + Nat.max k' 1 = Nat.max k 1)%nat
    end.

End Budget.

Definition debug_log (e : event) : Prop :=
  match e with
  | Log Debug _ => True
  | _ => False
  end.

(** The last item of a response that lines 203-212 take for the raw
    email, or [raw_email] when there is none. *)
Definition last_raw (data : list item) (raw_email : option bytes) : option bytes :=
  fold_left
    (fun raw it => match raw_of_item it with Some b => Some b | None => raw end)
    data raw_email.

(** The flags of the last item of a response that carries flags (lines
    194-201), or [email_flags] when there is none. *)
Definition last_flags (lib : EmailLib) (data : list item)
    (email_flags : list str) : list str :=
  fold_left
    (fun fl it => match flags_of_item lib it with Some x => x | None => fl end)
    data email_flags.

(** A long protocol line: it mentions BODY, so the attempt does not take
    it for metadata, and it has no header, so it is not the raw email. *)
Definition long_protocol_line : bytes :=
  ("1 FETCH (UID 7 FLAGS (\Seen) BODY[] {0}" ++ hundred_x)%string.

(** A mailbox whose server answers every fetch with that line alone. *)
Definition line_only : script :=
  mailbox_where ["7"] (Reply tt) (Reply tt)
    (fun _ => Reply (Some [Bytes long_protocol_line])).

(** A double of the [email] package whose parser reads every input as
    one multipart message: a text part, an HTML part, an attached text
    file and a second text part. *)
Definition mixed_part (content_type : string)
    (content_disposition filename : option string) (payload : option bytes)
    (charset : option string) : Part :=
  {| get_content_type := Reply content_type;
     get_content_disposition := Reply content_disposition;
     get_filename := Reply filename;
     get_payload_decoded := Reply payload;
     declared_charset := Reply charset |}.

Definition mixed_parts : list Part :=
  [ mixed_part "multipart/mixed" None None None None;
    mixed_part "text/plain" None None (Some "hello ") (Some "utf-8");
    mixed_part "text/html" None None (Some "<p>hello world</p>") (Some "utf-8");
    mixed_part "text/plain" (Some "attachment; filename=notes.txt")
      (Some "notes.txt") (Some "secret") (Some "utf-8");
    mixed_part "text/plain" (Some "inline") None (Some "world") None ].

Definition multipart_lib : EmailLib :=
  {| parsebytes := fun _ =>
       Reply {| get_subject := Reply (Some "greetings");
                get_from := Reply None; get_date := Reply None;
                is_multipart := true; walk := mixed_parts;
                self_part := hd (toy_part None "") mixed_parts |};
     parsedate_tz := parsedate_tz toy_lib;
     mktime_tz := mktime_tz toy_lib;
     fromtimestamp := fromtimestamp toy_lib;
     now := now toy_lib;
     decode := decode toy_lib;
     decode_utf8_replace := decode_utf8_replace toy_lib;
     decode_utf8_ignore := decode_utf8_ignore toy_lib |}.

(** An SMTP session that accepts the connection, the login and the
    message. *)
Definition accepting_smtp : SMTP unit :=
  {| smtp_enter := fun s => (s, Reply tt);
     smtp_login := fun _ _ s => (s, Reply tt);
     send_message := fun _ _ s => (s, Reply tt);
     smtp_exit := fun s => (s, Reply tt) |}.

(** The message that [MIMEText] builds for a text of ASCII characters. *)
Definition plain_text (body : string) : MimeMessage :=
  {| headers :=
       [("Content-Type",
         ("text/plain; charset=" ++ String "034" "us-ascii"
            ++ String "034" "")%string);
        ("MIME-Version", "1.0");
        ("Content-Transfer-Encoding", "7bit")];
     payload := body |}.

Definition test_settings : EmailSettings :=
  {| full_name := "Alice Example"; email_address := "alice@example.org";
     incoming := test_server; outgoing := test_server |}.

Definition march_5 : datetime :=
  {| year := 2024; month := Mar; day := 5; hour := 0; minute := 0; second := 0 |}.

(* ================================================================== *)
(** ** Search criteria *)

Lemma extend_date_app l key d : extend_date l key d = l ++ date_tokens key d.
Proof. destruct d; simpl; [reflexivity | now rewrite app_nil_r]. Qed.

Lemma extend_text_app l key x : extend_text l key x = l ++ text_tokens key x.
Proof.
  destruct x as [[|c s]|]; simpl; try reflexivity; now rewrite app_nil_r.
Qed.

Lemma add_flag_criteria_app l u fl :
  _add_flag_criteria l u fl = l ++ _add_flag_criteria [] u fl.
Proof.
  destruct u as [[|]|], fl as [[|]|]; simpl;
    rewrite <- ?app_assoc, ?app_nil_r; reflexivity.
Qed.

Lemma build_search_criteria_tokens f :
  _build_search_criteria f =
  match field_tokens f with
  | [] => ["ALL"]
  | l => l
  end.
Proof.
  unfold _build_search_criteria, field_tokens.
  rewrite add_flag_criteria_app, !extend_text_app, !extend_date_app.
  simpl. rewrite <- !app_assoc.
  match goal with |- match ?l with _ => _ end = _ => destruct l end;
    reflexivity.
Qed.

Lemma digit_cases n :
  In (digit n) ["0"; "1"; "2"; "3"; "4"; "5"; "6"; "7"; "8"; "9"]%char.
Proof.
  unfold digit.
  pose proof (Nat.mod_upper_bound n 10 ltac:(discriminate)) as H.
  remember (n mod 10) as k eqn:E. clear E.
  do 10 (destruct k as [|k]; [simpl; tauto|]).
  lia.
Qed.

Lemma date_token_not_all d : upper (strftime_d_b_Y d) <> "ALL".
Proof.
  unfold strftime_d_b_Y, two_digits. simpl.
  pose proof (digit_cases (day d / 10)) as H.
  simpl in H.
  intros E. injection E as E _.
  repeat (destruct H as [H|H]; [rewrite <- H in E; discriminate E|]).
  exact H.
Qed.

Lemma text_tokens_used key x :
  text_tokens key x = [] <-> truthy_str x = false.
Proof. destruct x as [[|c s]|]; simpl; split; congruence. Qed.

Lemma date_tokens_used key d : date_tokens key d = [] <-> is_some d = false.
Proof. destruct d; simpl; split; congruence. Qed.

Lemma flag_tokens_used u fl :
  _add_flag_criteria [] u fl = [] <-> is_some u || is_some fl = false.
Proof. destruct u as [[|]|], fl as [[|]|]; simpl; split; congruence. Qed.

Lemma app_nil_iff {A : Type} (l l' : list A) :
  l ++ l' = [] <-> l = [] /\ l' = [].
Proof.
  split; [apply app_eq_nil | intros [-> ->]; reflexivity].
Qed.

Lemma field_tokens_used f : field_tokens f = [] <-> any_field_used f = false.
Proof.
  unfold field_tokens, any_field_used.
  rewrite !app_nil_iff, !date_tokens_used, !text_tokens_used,
    flag_tokens_used, !orb_false_iff.
  tauto.
Qed.

(** The first token of the fields is the keyword of a criterion. *)
Lemma field_tokens_head f tok rest :
  field_tokens f = tok :: rest -> tok <> "ALL".
Proof.
  destruct f as [b s su bo te fr to un fl]. unfold field_tokens. simpl.
  destruct b; [simpl; intros E; injection E as <- _; discriminate|].
  destruct s; [simpl; intros E; injection E as <- _; discriminate|].
  destruct su as [[|? ?]|];
    try (simpl; intros E; injection E as <- _; discriminate).
  all: destruct bo as [[|? ?]|];
    try (simpl; intros E; injection E as <- _; discriminate).
  all: destruct te as [[|? ?]|];
    try (simpl; intros E; injection E as <- _; discriminate).
  all: destruct fr as [[|? ?]|];
    try (simpl; intros E; injection E as <- _; discriminate).
  all: destruct to as [[|? ?]|];
    try (simpl; intros E; injection E as <- _; discriminate).
  all: destruct un as [[|]|], fl as [[|]|]; simpl; intros E;
    try discriminate E; injection E as <- _; discriminate.
Qed.

Lemma text_tokens_all key x :
  key <> "ALL" -> In "ALL" (text_tokens key x) -> x = Some "ALL".
Proof.
  intros Hk. destruct x as [[|c s]|]; simpl; try tauto.
  intros [H|[H|[]]]; congruence.
Qed.

Lemma date_tokens_all key d :
  key <> "ALL" -> ~ In "ALL" (date_tokens key d).
Proof.
  intros Hk. destruct d; simpl; [|tauto].
  intros [H|[H|[]]]; [congruence | now apply date_token_not_all in H].
Qed.

Lemma flag_tokens_all u fl : ~ In "ALL" (_add_flag_criteria [] u fl).
Proof.
  destruct u as [[|]|], fl as [[|]|]; simpl; intuition discriminate.
Qed.

Lemma field_tokens_all f :
  In "ALL" (field_tokens f) -> In (Some "ALL") (text_fields f).
Proof.
  unfold field_tokens, text_fields. rewrite !in_app_iff.
  intros H. simpl.
  repeat match type of H with
  | _ \/ _ => destruct H as [H|H]
  end.
  - now apply date_tokens_all in H.
  - now apply date_tokens_all in H.
  - apply text_tokens_all in H; [auto | discriminate].
  - apply text_tokens_all in H; [auto | discriminate].
  - apply text_tokens_all in H; [auto | discriminate].
  - apply text_tokens_all in H; [auto 6 | discriminate].
  - apply text_tokens_all in H; [auto 6 | discriminate].
  - now apply flag_tokens_all in H.
Qed.

Lemma text_tokens_absent_if_empty key x :
  text_tokens key (absent_if_empty x) = text_tokens key x.
Proof. destruct x as [[|c s]|]; reflexivity. Qed.

(** C8, as amended.  A filter in which no field holds a value other than
    the empty text gives exactly the single token [ALL].  A filter in
    which some field holds a date, a non-empty text or a flag does not:
    its tokens are those of the fields, they differ from the single token
    [ALL], and the word [ALL] occurs among them only where a text field
    has it as its value. *)
Theorem build_search_criteria_match_all (f : SearchFilter) :
  (any_field_used f = false -> _build_search_criteria f = ["ALL"]) /\
  (any_field_used f = true ->
     _build_search_criteria f = field_tokens f /\
     _build_search_criteria f <> ["ALL"] /\
     (~ In (Some "ALL") (text_fields f) ->
      ~ In "ALL" (_build_search_criteria f))).
Proof.
  rewrite build_search_criteria_tokens. split.
  - intros H. apply field_tokens_used in H. now rewrite H.
  - intros H.
    destruct (field_tokens f) as [|tok rest] eqn:E.
    + apply field_tokens_used in E. congruence.
    + split; [reflexivity|]. split.
      * intros E'. injection E' as -> _.
        now apply field_tokens_head in E.
      * intros Hno Hin. apply Hno, field_tokens_all. now rewrite E.
Qed.

Lemma build_search_criteria_match_all_witness :
  _build_search_criteria no_filter = ["ALL"] /\
  _build_search_criteria unread_filter <> ["ALL"].
Proof.
  split.
  - apply (proj1 (build_search_criteria_match_all no_filter)). reflexivity.
  - apply (proj2 (build_search_criteria_match_all unread_filter)). reflexivity.
Defined.

(** C8, as stated, fails: a filter whose subject is set, to the empty
    text, has a field set and still gives the match-all token. *)
Lemma empty_subject_gives_match_all :
  any_field_set empty_subject_filter = true /\
  _build_search_criteria empty_subject_filter = ["ALL"] /\
  In "ALL" (_build_search_criteria empty_subject_filter).
Proof. repeat split; simpl; auto. Qed.

(** C10.  Replacing any of the five text fields that holds the empty
    text by an absent field leaves the tokens unchanged ([c1] .. [c5]
    choose the fields that are replaced); a filter whose only field is an
    empty subject gives the single token [ALL]. *)
Theorem empty_text_field_is_absent (f : SearchFilter) (c1 c2 c3 c4 c5 : bool) :
  _build_search_criteria
    (with_text_fields f
       (if c1 then absent_if_empty (f_subject f) else f_subject f)
       (if c2 then absent_if_empty (f_body f) else f_body f)
       (if c3 then absent_if_empty (f_text f) else f_text f)
       (if c4 then absent_if_empty (f_from_address f) else f_from_address f)
       (if c5 then absent_if_empty (f_to_address f) else f_to_address f))
  = _build_search_criteria f
  /\ _build_search_criteria
       (with_text_fields no_filter (Some "") None None None None) = ["ALL"].
Proof.
  split; [|reflexivity].
  rewrite !build_search_criteria_tokens. unfold field_tokens. simpl.
  destruct c1, c2, c3, c4, c5; rewrite ?text_tokens_absent_if_empty;
    reflexivity.
Qed.

(* ================================================================== *)
(** ** Sending *)

Section SendFacts.

Variable St : Type.
Variable smtp : SMTP St.
Variable MIMEText : string -> MimeMessage.
Variable email_server : EmailServer.
Variable sender : string.

Lemma delivery_list_app recipients cc bcc :
  delivery_list recipients cc bcc = recipients ++ list_of cc ++ list_of bcc.
Proof.
  unfold delivery_list.
  destruct cc as [[|c cc]|], bcc as [[|b bcc]|]; simpl;
    rewrite ?app_nil_r, <- ?app_assoc; reflexivity.
Qed.

Lemma compose_headers recipients subject body cc :
  headers (compose MIMEText sender recipients subject body cc) =
  headers (MIMEText body)
  ++ [("Subject", subject); ("From", sender); ("To", join ", " recipients)]
  ++ (if truthy_list cc then [("Cc", join ", " (list_of cc))] else []).
Proof.
  unfold compose. destruct (truthy_list cc); simpl;
    rewrite <- ?app_assoc; reflexivity.
Qed.

(** What a run of [send_email] hands to the session: nothing when the
    connection or the login fails, and else one message with one
    delivery list. *)
Lemma send_email_sends recipients subject body cc bcc s :
  let evs := snd (send_email smtp MIMEText email_server sender
                    recipients subject body cc bcc s) in
  (sent_messages evs = [] /\ sent_to evs = [] /\
   exists e, fst (fst (send_email smtp MIMEText email_server sender
                    recipients subject body cc bcc s)) = Raise e) \/
  (sent_messages evs = [compose MIMEText sender recipients subject body cc] /\
   sent_to evs = [delivery_list recipients cc bcc]).
Proof.
  unfold send_email, send_body.
  destruct (smtp_enter smtp s) as [s0 [[]|e]]; simpl.
  2: { left. eauto. }
  destruct (smtp_login smtp _ _ s0) as [s1 [[]|e]]; simpl.
  - destruct (send_message smtp _ _ s1) as [s2 r].
    destruct (smtp_exit smtp s2) as [s3 [[]|e]]; simpl; right; auto.
  - destruct (smtp_exit smtp s1) as [s3 [[]|e']]; simpl; left; eauto.
Qed.

Lemma send_email_messages_any_bcc recipients subject body cc bcc bcc' s :
  sent_messages (snd (send_email smtp MIMEText email_server sender
                        recipients subject body cc bcc s)) =
  sent_messages (snd (send_email smtp MIMEText email_server sender
                        recipients subject body cc bcc' s)).
Proof.
  unfold send_email, send_body.
  destruct (smtp_enter smtp s) as [s0 [[]|e]]; simpl; [|reflexivity].
  destruct (smtp_login smtp _ _ s0) as [s1 [[]|e]]; simpl.
  - destruct (send_message smtp _ (delivery_list recipients cc bcc) s1) as [s2 r].
    destruct (send_message smtp _ (delivery_list recipients cc bcc') s1) as [s2' r'].
    destruct (smtp_exit smtp s2) as [s3 [[]|e]];
      destruct (smtp_exit smtp s2') as [s3' [[]|e']]; reflexivity.
  - destruct (smtp_exit smtp s1) as [s3 [[]|e']]; reflexivity.
Qed.

(** C6.  Whatever the session does, the messages a run of [send_email]
    hands to it are those of the run with any other bcc, the run without
    bcc among them; the headers of such a message are those of
    [MIMEText(body)] followed by Subject, From, To and, when cc is not
    empty, Cc; and the delivery list handed over with it holds every
    address of recipients, cc and bcc.  A run that hands over nothing has
    failed to connect or to log in; and on a session that accepts the
    connection and the login, the run enters, logs in, hands over that one
    message with the delivery list of recipients, cc and bcc, in this
    order, and leaves. *)
Theorem bcc_only_in_delivery_list recipients subject body cc bcc s :
  let run := send_email smtp MIMEText email_server sender
               recipients subject body cc bcc s in
  let run_without_bcc := send_email smtp MIMEText email_server sender
               recipients subject body cc None s in
  let msg_headers :=
    headers (MIMEText body)
    ++ [("Subject", subject); ("From", sender); ("To", join ", " recipients)]
    ++ (if truthy_list cc then [("Cc", join ", " (list_of cc))] else []) in
  sent_messages (snd run) = sent_messages (snd run_without_bcc) /\
  (forall bcc',
     sent_messages (snd run) =
     sent_messages (snd (send_email smtp MIMEText email_server sender
                           recipients subject body cc bcc' s))) /\
  (forall msg, In msg (sent_messages (snd run)) -> headers msg = msg_headers) /\
  (forall to, In to (sent_to (snd run)) ->
     forall a, In a recipients \/ In a (list_of cc) \/ In a (list_of bcc) ->
     In a to) /\
  (sent_to (snd run) = [delivery_list recipients cc bcc] \/
   exists e, fst (fst run) = Raise e) /\
  (forall s0 s1,
     smtp_enter smtp s = (s0, Reply tt) ->
     smtp_login smtp (user_name email_server) (password email_server) s0
       = (s1, Reply tt) ->
     exists msg,
       headers msg = msg_headers /\ payload msg = payload (MIMEText body) /\
       snd run =
         [SmtpEnter;
          SmtpLogin (user_name email_server) (password email_server);
          SmtpSend msg (recipients ++ list_of cc ++ list_of bcc);
          SmtpExit]).
Proof.
  intros run run_without_bcc msg_headers.
  pose proof (send_email_sends recipients subject body cc bcc s) as H.
  fold run in H. simpl in H.
  split; [apply send_email_messages_any_bcc|].
  split; [intros bcc'; apply send_email_messages_any_bcc|].
  assert (Hlast : forall s0 s1,
     smtp_enter smtp s = (s0, Reply tt) ->
     smtp_login smtp (user_name email_server) (password email_server) s0
       = (s1, Reply tt) ->
     exists msg,
       headers msg = msg_headers /\ payload msg = payload (MIMEText body) /\
       snd run =
         [SmtpEnter;
          SmtpLogin (user_name email_server) (password email_server);
          SmtpSend msg (recipients ++ list_of cc ++ list_of bcc);
          SmtpExit]).
  { intros s0 s1 He Hl.
    exists (compose MIMEText sender recipients subject body cc).
    split; [apply compose_headers|]. split.
    - unfold compose. destruct (truthy_list cc); reflexivity.
    - subst run. unfold send_email, send_body. rewrite He, Hl.
      rewrite delivery_list_app.
      destruct (send_message smtp _ _ s1) as [s2 r].
      destruct (smtp_exit smtp s2) as [s3 [[]|e]]; reflexivity. }
  destruct H as [(Hm & Ht & He)|(Hm & Ht)]; rewrite Hm, Ht.
  - repeat split; try (intros ? []); try exact Hlast. now right.
  - repeat split; try exact Hlast.
    + intros msg [<-|[]]. apply compose_headers.
    + intros to [<-|[]] a Ha. rewrite delivery_list_app, !in_app_iff. tauto.
    + now left.
Qed.

End SendFacts.

(* ================================================================== *)
(** ** Invariants of the runs of the client *)

Section RespectsFacts.

Variable St : Type.
Variable P : event -> Prop.

Lemma respects_ret A (a : A) : respects P (ret (St:=St) a).
Proof. intros w. simpl. split; [constructor | intros H; split; [exact H | discriminate]]. Qed.

Lemma respects_raise A e : respects P (raise (St:=St) (A:=A) e).
Proof. intros w. simpl. split; [constructor | intros H; split; [exact H | discriminate]]. Qed.

Lemma respects_log lvl m : P (Log lvl m) -> respects P (log (St:=St) lvl m).
Proof.
  intros HP w. simpl. split; [repeat constructor; exact HP|].
  intros H; split; [exact H | discriminate].
Qed.

Lemma respects_lift A (r : reply A) : respects P (lift (St:=St) r).
Proof.
  intros w. simpl. split; [constructor|].
  intros H; split; [exact H | destruct r; discriminate].
Qed.

Lemma respects_call A c (op : St -> St * reply A) :
  P (Call c) -> respects P (call c op).
Proof.
  intros HP w. unfold call. destruct (op (server w)) as [s r]. simpl.
  split; [repeat constructor; exact HP|].
  intros H; split; [exact H | destruct r; discriminate].
Qed.

Lemma respects_fetch (imap : IMAP St) uid fmt :
  (forall r, P (Fetch uid fmt r)) -> respects P (fetch imap uid fmt).
Proof.
  intros HP w. unfold fetch. destruct (uid_fetch imap uid fmt (server w)) as [s r].
  simpl. split; [repeat constructor; apply HP|].
  intros H; split; [exact H | destruct r; discriminate].
Qed.

Lemma respects_yield r : P (Yield r) -> respects P (yield_ (St:=St) r).
Proof.
  intros HP w. unfold yield_.
  destruct (consumer w) as [[|[|k]]|] eqn:E; simpl;
    (split; [repeat constructor; exact HP|]); intros H; try discriminate H.
  split; [exact E | discriminate].
Qed.

Lemma respects_bind A B (m : M St A) (k : A -> M St B) :
  respects P m -> (forall a, respects P (k a)) -> respects P (bind m k).
Proof.
  intros Hm Hk w. unfold bind.
  destruct (Hm w) as [Hev Hc].
  destruct (m w) as [[[a|e|] w1] e1]; simpl in *.
  - destruct (Hk a w1) as [Hev2 Hc2].
    destruct (k a w1) as [[r w2] e2]; simpl in *.
    split; [apply Forall_app; split; assumption|].
    intros H. apply Hc2. now apply Hc.
  - split; [assumption|]. intros H. destruct (Hc H) as [H1 _].
    split; [assumption | discriminate].
  - split; [assumption|]. intros H. destruct (Hc H) as [_ []]. reflexivity.
Qed.

Lemma respects_try_except A (m : M St A) (h : exc -> M St A) :
  respects P m -> (forall e, respects P (h e)) -> respects P (try_except m h).
Proof.
  intros Hm Hh w. unfold try_except.
  destruct (Hm w) as [Hev Hc].
  destruct (m w) as [[[a|e|] w1] e1]; simpl in *; try (split; assumption).
  destruct (Hh e w1) as [Hev2 Hc2].
  destruct (h e w1) as [[r w2] e2]; simpl in *.
  split; [apply Forall_app; split; assumption|].
  intros H. apply Hc2. now apply Hc.
Qed.

Lemma respects_for_each A (l : list A) (body : A -> M St unit) :
  (forall x, respects P (body x)) -> respects P (for_each l body).
Proof.
  intros Hb. induction l as [|x l IH]; simpl.
  - apply respects_ret.
  - apply respects_bind; [apply Hb | intros _; exact IH].
Qed.


Variable imap : IMAP St.
Variable lib : EmailLib.
Variable email_server : EmailServer.

Hypothesis P_log : forall lvl m, P (Log lvl m).
Hypothesis P_fetch : forall uid fmt r, P (Fetch uid fmt r).
Hypothesis P_yield : forall r, P (Yield r).
Hypothesis P_call : forall c, is_logout (Call c) = false -> P (Call c).

Ltac respects_step :=
  lazymatch goal with
  | |- respects _ (bind _ _) => apply respects_bind; [|intros ?]
  | |- respects _ (try_except _ _) => apply respects_try_except; [|intros ?]
  | |- respects _ (ret _) => apply respects_ret
  | |- respects _ (raise _) => apply respects_raise
  | |- respects _ (log _ _) => apply respects_log, P_log
  | |- respects _ (lift _) => apply respects_lift
  | |- respects _ (yield_ _) => apply respects_yield, P_yield
  | |- respects _ (fetch _ _ _) => apply respects_fetch; intros ?; apply P_fetch
  | |- respects _ (call _ _) => apply respects_call, P_call; reflexivity
  | |- respects _ (for_each _ _) => apply respects_for_each; intros ?
  | |- respects _ (if ?b then _ else _) => destruct b
  | |- respects _ (match ?x with _ => _ end) => destruct x
  end.

Lemma respects_attempt uid fmt : respects P (attempt imap uid fmt).
Proof. unfold attempt. repeat respects_step. Qed.

Lemma respects_fetch_loop formats uid data :
  respects P (fetch_loop imap formats uid data).
Proof.
  revert data. induction formats as [|fmt rest IH]; intros data; simpl.
  - apply respects_ret.
  - apply respects_bind; [apply respects_attempt|].
    intros [[|] d]; simpl; [apply respects_ret | apply IH].
Qed.

Lemma respects_log_items i data : respects P (log_items (St:=St) i data).
Proof.
  revert i. induction data as [|it rest IH]; intros i; simpl.
  - apply respects_ret.
  - apply respects_bind; [destruct it; respects_step | intros _; apply IH].
Qed.

Lemma respects_scan_items data raw fl :
  respects P (scan_items (St:=St) lib data raw fl).
Proof.
  revert raw fl. induction data as [|it rest IH]; intros raw fl; simpl.
  - apply respects_ret.
  - apply respects_bind; [repeat respects_step | intros ?; apply IH].
Qed.

Lemma respects_deliver uid data : respects P (deliver (St:=St) lib uid data).
Proof.
  unfold deliver.
  apply respects_bind; [respects_step|intros _].
  apply respects_bind; [apply respects_log_items|intros _].
  apply respects_bind; [apply respects_scan_items|intros [raw fl]]. simpl.
  repeat respects_step.
Qed.

Lemma respects_process_message message_id :
  respects P (process_message imap lib message_id).
Proof.
  unfold process_message.
  apply respects_try_except; [|intros e; respects_step].
  apply respects_bind; [respects_step|intros uid].
  apply respects_bind; [apply respects_fetch_loop|intros data].
  destruct (negb (truthy_data data)); [respects_step | apply respects_deliver].
Qed.

Lemma respects_message_ids_of messages :
  respects P (message_ids_of (St:=St) messages).
Proof. unfold message_ids_of. repeat respects_step. Qed.

Lemma respects_stream_body page page_size f order :
  respects P (stream_body imap lib email_server page page_size f order).
Proof.
  unfold stream_body.
  do 8 (apply respects_bind; [repeat respects_step|intros ?]).
  - apply respects_message_ids_of.
  - apply respects_for_each. intros x. apply respects_process_message.
Qed.

Lemma respects_count_body f : respects P (count_body imap email_server f).
Proof. unfold count_body. repeat respects_step. Qed.

End RespectsFacts.

Lemma filter_none {A : Type} (p : A -> bool) (l : list A) :
  Forall (fun x => p x = false) l -> filter p l = [].
Proof.
  induction 1 as [|x l Hx _ IH]; simpl; [reflexivity | now rewrite Hx].
Qed.

Lemma fetches_app e1 e2 : fetches (e1 ++ e2) = fetches e1 ++ fetches e2.
Proof. apply flat_map_app. Qed.

Lemma yields_app e1 e2 : yields (e1 ++ e2) = yields e1 ++ yields e2.
Proof. apply flat_map_app. Qed.

Lemma errors_logged_app e1 e2 :
  errors_logged (e1 ++ e2) = errors_logged e1 ++ errors_logged e2.
Proof. apply flat_map_app. Qed.

Lemma quiet_yields evs : Forall quiet evs -> yields evs = [].
Proof.
  induction 1 as [|e l He _ IH]; simpl; [reflexivity|].
  destruct e; simpl in *; try contradiction; exact IH.
Qed.

Lemma quiet_errors evs : Forall quiet evs -> errors_logged evs = [].
Proof.
  induction 1 as [|e l He _ IH]; simpl; [reflexivity|].
  destruct e as [| | [] |]; simpl in *; try contradiction; exact IH.
Qed.

Section SessionFacts.

Variable St : Type.
Variable imap : IMAP St.
Variable lib : EmailLib.
Variable email_server : EmailServer.

Lemma not_logout_log lvl m : not_logout (Log lvl m).
Proof. reflexivity. Qed.
Lemma not_logout_fetch uid fmt r : not_logout (Fetch uid fmt r).
Proof. reflexivity. Qed.
Lemma not_logout_yield r : not_logout (Yield r).
Proof. reflexivity. Qed.
Lemma not_logout_call c : is_logout (Call c) = false -> not_logout (Call c).
Proof. intros H; exact H. Qed.

(** A block that never logs out, closed by the [finally] block of the
    session: the outcome is that of the block, and the trace is that of
    the block, then the logout, then the log of its failure if it fails. *)
Lemma finally_close_session A (m : M St A) (w : world St) :
  respects not_logout m ->
  let body := m w in
  let run := try_finally m (close_session imap) w in
  fst (fst run) = fst (fst body) /\
  snd run = snd body ++ Call CLogout
              :: logout_log (snd (logout imap (server (snd (fst body))))) /\
  List.length (filter is_logout (snd run)) = 1%nat.
Proof.
  intros Hm. destruct (Hm w) as [Hev _].
  unfold try_finally, close_session, try_except, call. simpl.
  destruct (m w) as [[r w1] e1]. simpl in *.
  destruct (logout imap (server w1)) as [s2 [[]|e]]; simpl;
    rewrite ?app_nil_r; repeat split;
    rewrite filter_app, (@filter_none _ is_logout e1 Hev); reflexivity.
Qed.

(** C5.  Whatever the session answers and however the consumer behaves,
    a run of [get_emails_stream] and a run of [get_email_count] end as
    their [try] block ends (normally, by an exception raised while the
    session is set up or searched, or by the consumer closing the
    stream), and their trace is the trace of that block, in which there
    is no logout, followed by one logout and, when the logout fails, by
    the log of its failure: the logout is called exactly once, and its
    failure changes neither outcome nor result. *)
Theorem logout_exactly_once page page_size f order (w : world St) :
  let body := stream_body imap lib email_server page page_size f order w in
  let run := get_emails_stream imap lib email_server page page_size f order w in
  let count_block := count_body imap email_server f w in
  let count_run := get_email_count imap email_server f w in
  (fst (fst run) = fst (fst body) /\
   snd run = snd body ++ Call CLogout
               :: logout_log (snd (logout imap (server (snd (fst body))))) /\
   List.length (filter is_logout (snd run)) = 1%nat) /\
  (fst (fst count_run) = fst (fst count_block) /\
   snd count_run = snd count_block ++ Call CLogout
               :: logout_log (snd (logout imap (server (snd (fst count_block))))) /\
   List.length (filter is_logout (snd count_run)) = 1%nat).
Proof.
  split.
  - apply finally_close_session.
    apply respects_stream_body;
      auto using not_logout_log, not_logout_fetch, not_logout_yield.
  - apply finally_close_session.
    apply respects_count_body;
      auto using not_logout_log, not_logout_fetch, not_logout_yield.
Qed.

(** The loop over the request encodings ends normally, leaves the
    consumer alone, emits fetches and debug logs only, and makes its
    attempts as [fallback] says. *)
Lemma fetch_loop_spec formats uid data0 (w : world St) :
  exists data w' evs,
    fetch_loop imap formats uid data0 w = (Ok data, w', evs) /\
    consumer w' = consumer w /\
    Forall quiet evs /\
    fallback formats data0 (fetches evs) data.
Proof.
  revert data0 w. induction formats as [|fmt rest IH]; intros data0 w.
  - exists data0, w, []. simpl. repeat split; constructor.
  - simpl. unfold bind, attempt, try_except, bind, fetch.
    destruct (uid_fetch imap uid fmt (server w)) as [s r] eqn:Er.
    set (w1 := {| server := s; consumer := consumer w |}).
    destruct r as [data|e]; simpl.
    + destruct (truthy_data data) eqn:Et; simpl.
      * destruct (has_content (items_of data)) eqn:Eh; simpl.
        -- exists data, w1, [Fetch uid fmt (Reply data)]. simpl.
           repeat split; [repeat constructor|].
           apply fallback_hit. simpl. now rewrite Et, Eh.
        -- destruct (IH None w1) as (d & w' & evs & Hrun & Hc & Hq & Hf).
           rewrite Hrun. exists d, w', (Fetch uid fmt (Reply data) :: evs).
           simpl. repeat split; [exact Hc | constructor; [exact I|exact Hq] |].
           apply fallback_miss; simpl; rewrite Et, ?Eh; [reflexivity|exact Hf].
      * destruct (IH data w1) as (d & w' & evs & Hrun & Hc & Hq & Hf).
        rewrite Hrun. exists d, w', (Fetch uid fmt (Reply data) :: evs).
        simpl. repeat split; [exact Hc | constructor; [exact I|exact Hq] |].
        apply fallback_miss; simpl; rewrite Et; [reflexivity|exact Hf].
    + destruct (IH None w1) as (d & w' & evs & Hrun & Hc & Hq & Hf).
      rewrite Hrun.
      exists d, w',
        (Fetch uid fmt (Fails e) :: Log Debug (FetchFormatFailed fmt e) :: evs).
      simpl. repeat split; [exact Hc | repeat constructor; exact Hq |].
      apply fallback_miss; [reflexivity|exact Hf].
Qed.


Lemma has_content_exists data :
  has_content data = existsb content_bearing data.
Proof.
  induction data as [|it rest IH]; simpl; [reflexivity|].
  unfold content_bearing at 1.
  destruct (is_metadata it); simpl; [exact IH|].
  destruct (long_bytes it); simpl; [reflexivity | exact IH].
Qed.

Lemma truthy_after_miss r : truthy_data (after_miss r) = false.
Proof.
  destruct r as [data|e]; simpl; [|reflexivity].
  destruct (truthy_data data) eqn:E; [reflexivity | exact E].
Qed.

Lemma fallback_prefix formats data0 attempts data :
  fallback formats data0 attempts data ->
  map fst attempts = firstn (List.length attempts) formats.
Proof.
  induction 1; simpl; [reflexivity | reflexivity | now f_equal].
Qed.

Lemma fallback_stops formats data0 attempts data :
  fallback formats data0 attempts data ->
  forall pre a post,
    attempts = pre ++ a :: post -> succeeded (snd a) = true -> post = [].
Proof.
  induction 1 as [d0|fmt rest d0 d Hs|fmt rest d0 r atts d Hs Hf IH];
    intros pre a post E Ha.
  - destruct pre; discriminate E.
  - destruct pre as [|x pre]; [now injection E | destruct pre; discriminate E].
  - destruct pre as [|x pre]; simpl in E.
    + injection E as <- _. simpl in Ha. congruence.
    + injection E as _ E. eapply IH; eassumption.
Qed.

Lemma fallback_exhausted formats data0 attempts data :
  fallback formats data0 attempts data ->
  Forall (fun a => succeeded (snd a) = false) attempts ->
  List.length attempts = List.length formats /\
  (truthy_data data0 = false -> truthy_data data = false).
Proof.
  induction 1 as [d0|fmt rest d0 d Hs|fmt rest d0 r atts d Hs Hf IH];
    intros Hall.
  - auto.
  - inversion Hall; subst. simpl in *. congruence.
  - inversion Hall; subst. destruct (IH H2) as [Hl Ht]. simpl. split.
    + now f_equal.
    + intros _. apply Ht, truthy_after_miss.
Qed.

Lemma fallback_last formats data0 attempts data :
  fallback formats data0 attempts data ->
  forall pre a, attempts = pre ++ [a] ->
    (succeeded (snd a) = true /\ snd a = Reply data /\ truthy_data data = true)
    \/ (succeeded (snd a) = false /\ List.length attempts = List.length formats).
Proof.
  induction 1 as [d0|fmt rest d0 d Hs|fmt rest d0 r atts d Hs Hf IH];
    intros pre a E.
  - destruct pre; discriminate E.
  - destruct pre as [|x pre]; [|destruct pre; discriminate E].
    injection E as <-. left. simpl. repeat split; [exact Hs|].
    simpl in Hs. now apply andb_true_iff in Hs as [Hs _].
  - destruct pre as [|x pre]; simpl in E.
    + injection E as E1 E2. subst. inversion Hf; subst. right. auto.
    + injection E as _ E. destruct (IH _ _ E) as [H|[H1 H2]]; [now left|].
      right. split; [exact H1 | simpl; now f_equal].
Qed.


Lemma no_fetch_fetches evs : Forall no_fetch evs -> fetches evs = [].
Proof.
  induction 1 as [|e l He _ IH]; simpl; [reflexivity|].
  destruct e; simpl in *; try contradiction; exact IH.
Qed.

Lemma only_log_yields evs : Forall only_log evs -> yields evs = [].
Proof.
  induction 1 as [|e l He _ IH]; simpl; [reflexivity|].
  destruct e; simpl in *; try contradiction; exact IH.
Qed.

Lemma yields_at_most_logs A (m : M St A) :
  respects only_log m -> yields_at_most 0 m.
Proof.
  intros H w. destruct (H w) as [Hev _].
  now rewrite (only_log_yields Hev).
Qed.

Lemma yields_at_most_bind A B a b (m : M St A) (k : A -> M St B) :
  yields_at_most a m -> (forall x, yields_at_most b (k x)) ->
  yields_at_most (a + b) (bind m k).
Proof.
  intros Hm Hk w. unfold bind. specialize (Hm w).
  destruct (m w) as [[[x|e|] w1] e1]; simpl in *; try lia.
  specialize (Hk x w1). destruct (k x w1) as [[r w2] e2]; simpl in *.
  rewrite yields_app, length_app. lia.
Qed.

Lemma yields_at_most_try_except A a b (m : M St A) (h : exc -> M St A) :
  yields_at_most a m -> (forall e, yields_at_most b (h e)) ->
  yields_at_most (a + b) (try_except m h).
Proof.
  intros Hm Hh w. unfold try_except. specialize (Hm w).
  destruct (m w) as [[[x|e|] w1] e1]; simpl in *; try lia.
  specialize (Hh e w1). destruct (h e w1) as [[r w2] e2]; simpl in *.
  rewrite yields_app, length_app. lia.
Qed.

Lemma yields_at_most_yield r : yields_at_most 1 (yield_ (St:=St) r).
Proof.
  intros w. unfold yield_. destruct (consumer w) as [[|[|k]]|]; simpl; lia.
Qed.

Lemma only_log_log lvl m : only_log (Log lvl m).
Proof. exact I. Qed.

Lemma deliver_yields uid data :
  yields_at_most 1 (deliver (St:=St) lib uid data).
Proof.
  unfold deliver.
  apply (@yields_at_most_bind _ _ 0 1);
    [apply yields_at_most_logs, respects_log, only_log_log | intros _].
  apply (@yields_at_most_bind _ _ 0 1);
    [apply yields_at_most_logs, respects_log_items, only_log_log | intros _].
  apply (@yields_at_most_bind _ _ 0 1);
    [apply yields_at_most_logs, respects_scan_items, only_log_log |].
  intros [raw fl]. simpl.
  assert (Hlog : forall m, yields_at_most 1 (log (St:=St) Error m)).
  { intros m w. simpl. lia. }
  destruct raw as [raw|]; [|apply Hlog].
  destruct (truthy_bytes (Some raw)); [|apply Hlog].
  apply (@yields_at_most_try_except _ 1 0).
  - apply (@yields_at_most_bind _ _ 0 1).
    + intros w. simpl. lia.
    + intros p. apply yields_at_most_yield.
  - intros e w. simpl. lia.
Qed.

Lemma no_fetch_log lvl m : no_fetch (Log lvl m).
Proof. exact I. Qed.
Lemma no_fetch_yield r : no_fetch (Yield r).
Proof. exact I. Qed.

(** One message, step by step: the identifier does not decode; or every
    attempt fails; or an attempt succeeds and the response is handed
    over. *)
Lemma process_message_run message_id (w : world St) :
  (exists e,
     decode lib message_id "utf-8" = Fails e /\
     process_message imap lib message_id w =
     (Ok tt, w, [Log Error (ErrorFetchingMessage message_id e)])) \/
  (exists uid data w1 e1,
     decode lib message_id "utf-8" = Reply uid /\
     fetch_loop imap fetch_formats uid None w = (Ok data, w1, e1) /\
     Forall quiet e1 /\
     fallback fetch_formats None (fetches e1) data /\
     ((truthy_data data = false /\
       process_message imap lib message_id w =
       (Ok tt, w1, e1 ++ [Log Error (FailedAnyFormat uid)])) \/
      (truthy_data data = true /\
       exists r w2 e2,
         process_message imap lib message_id w = (r, w2, e1 ++ e2) /\
         fetches e2 = [] /\ (List.length (yields e2) <= 1)%nat))).
Proof.
  unfold process_message, try_except, bind, lift.
  destruct (decode lib message_id "utf-8") as [uid|e]; cbn [of_reply].
  2: { left. eexists. split; reflexivity. }
  right.
  destruct (fetch_loop_spec fetch_formats uid None w)
    as (data & w1 & e1 & Hrun & Hc & Hq & Hf).
  exists uid, data, w1, e1. rewrite Hrun.
  repeat split; try assumption.
  destruct (truthy_data data) eqn:Et; cbn [negb app].
  - right. split; [reflexivity|].
    pose proof (deliver_yields uid data w1) as Hy.
    assert (Hn : respects no_fetch (deliver (St:=St) lib uid data))
      by (apply respects_deliver; auto using no_fetch_log, no_fetch_yield).
    destruct (Hn w1) as [Hn1 _].
    destruct (deliver lib uid data w1) as [[[[]|e|] w2] e2]; simpl in *.
    + exists (Ok tt), w2, e2. auto using no_fetch_fetches.
    + exists (Ok tt), w2, (e2 ++ [Log Error (ErrorFetchingMessage message_id e)]).
      rewrite app_assoc, fetches_app, yields_app, length_app, app_nil_r. simpl.
      rewrite (no_fetch_fetches Hn1). repeat split. lia.
    + exists Closed, w2, e2. auto using no_fetch_fetches.
  - left. auto.
Qed.


End SessionFacts.

(* ================================================================== *)
(** ** Pages, scripted sessions and the parser *)

Lemma py_slice_window {A : Type} (l : list A) (start size : Z) :
  (0 <= start)%Z -> (0 <= size)%Z ->
  py_slice l start (start + size) =
  firstn (Z.to_nat size) (skipn (Z.to_nat start) l).
Proof.
  intros Hs Hz. unfold py_slice, slice_bound.
  destruct (Z.ltb_spec start 0); [lia|].
  destruct (Z.ltb_spec (start + size) 0); [lia|].
  destruct (Z_lt_le_dec start (Z.of_nat (List.length l))) as [Hlt|Hge].
  - rewrite (Z.min_l start) by lia.
    destruct (Z_le_gt_dec (start + size) (Z.of_nat (List.length l))) as [Hle|Hgt].
    + rewrite Z.min_l by lia. f_equal. lia.
    + rewrite Z.min_r by lia.
      rewrite !firstn_all2; try reflexivity; rewrite length_skipn; lia.
  - rewrite (Z.min_r start) by lia.
    rewrite (skipn_all2 l) by lia.
    rewrite (skipn_all2 (n := Z.to_nat start) l) by lia.
    now rewrite !firstn_nil.
Qed.

Lemma half_open_from {A : Type} (l : list A) (k : nat) (start stop : Z) :
  map snd
    (filter (fun p => ((start <=? Z.of_nat (fst p)) && (Z.of_nat (fst p) <? stop))%Z)
            (combine (seq k (List.length l)) l)) =
  firstn (Z.to_nat (stop - Z.max start (Z.of_nat k)))
         (skipn (Z.to_nat (start - Z.of_nat k)) l).
Proof.
  revert k. induction l as [|x t IH]; intros k.
  - simpl. now rewrite skipn_nil, firstn_nil.
  - cbn [List.length seq combine filter fst].
    destruct (Z.leb_spec start (Z.of_nat k)) as [Hs|Hs];
      destruct (Z.ltb_spec (Z.of_nat k) stop) as [Ht|Ht];
      cbn [andb map snd]; rewrite IH.
    + replace (Z.to_nat (start - Z.of_nat k)) with 0%nat by lia.
      replace (Z.to_nat (start - Z.of_nat (S k))) with 0%nat by lia.
      replace (Z.to_nat (stop - Z.max start (Z.of_nat k)))
        with (S (Z.to_nat (stop - Z.max start (Z.of_nat (S k))))) by lia.
      reflexivity.
    + replace (Z.to_nat (stop - Z.max start (Z.of_nat k))) with 0%nat by lia.
      replace (Z.to_nat (stop - Z.max start (Z.of_nat (S k)))) with 0%nat by lia.
      reflexivity.
    + replace (Z.to_nat (start - Z.of_nat k))
        with (S (Z.to_nat (start - Z.of_nat (S k)))) by lia.
      replace (Z.max start (Z.of_nat (S k))) with (Z.max start (Z.of_nat k)) by lia.
      reflexivity.
    + replace (Z.to_nat (start - Z.of_nat k))
        with (S (Z.to_nat (start - Z.of_nat (S k)))) by lia.
      replace (Z.max start (Z.of_nat (S k))) with (Z.max start (Z.of_nat k)) by lia.
      reflexivity.
Qed.

Lemma half_open_slice_window {A : Type} (l : list A) (start size : Z) :
  (0 <= start)%Z ->
  half_open_slice l start (start + size) =
  firstn (Z.to_nat size) (skipn (Z.to_nat start) l).
Proof.
  intros Hs. unfold half_open_slice. rewrite half_open_from.
  f_equal; [|f_equal]; lia.
Qed.

Lemma half_open_slice_run {A : Type} (l : list A) (start stop : Z) :
  half_open_slice l start stop =
  firstn (Z.to_nat (stop - Z.max start 0)) (skipn (Z.to_nat start) l).
Proof.
  unfold half_open_slice. rewrite half_open_from.
  change (Z.of_nat 0) with 0%Z. now rewrite Z.sub_0_r.
Qed.

Lemma run_nil {A : Type} (l : list A) (k a : nat) :
  firstn k (skipn a l) = [] <-> k = 0%nat \/ (List.length l <= a)%nat.
Proof.
  split.
  - intros H. apply (f_equal (@List.length A)) in H.
    rewrite length_firstn, length_skipn in H. simpl in H. lia.
  - intros [-> | H]; [reflexivity|]. rewrite skipn_all2 by lia. apply firstn_nil.
Qed.

Lemma served_from_the_end_iff (page page_size : Z) (n : nat) :
  served_from_the_end page page_size n = true <->
  (((page < 0 /\ 0 < page_size) \/ (page = 1 /\ page_size < 0)) /\
   - (page * page_size) < Z.of_nat n)%Z.
Proof.
  unfold served_from_the_end.
  rewrite andb_true_iff, orb_true_iff, !andb_true_iff, !Z.ltb_lt, Z.eqb_eq.
  reflexivity.
Qed.

(** The slice of Python against the half-open slice, for every page and
    page size: they are the same list unless the page is served from the
    end, and then the half-open slice is empty and the slice of Python is
    not. *)
Lemma slices_agree {A : Type} (l : list A) (page page_size : Z) :
  let start := ((page - 1) * page_size)%Z in
  let stop := (start + page_size)%Z in
  (served_from_the_end page page_size (List.length l) = false ->
   py_slice l start stop = half_open_slice l start (page * page_size)) /\
  (served_from_the_end page page_size (List.length l) = true ->
   half_open_slice l start (page * page_size) = [] /\
   py_slice l start stop <> [] /\
   py_slice l start stop =
     firstn (Z.to_nat (Z.of_nat (List.length l) + page * page_size
                       - (if (page <? 0)%Z
                          then Z.max 0 (Z.of_nat (List.length l) + start)
                          else 0)))
       (skipn (Z.to_nat (if (page <? 0)%Z
                         then Z.max 0 (Z.of_nat (List.length l) + start)
                         else 0)) l)).
Proof.
  intros start stop.
  assert (Hstop : (page * page_size = stop)%Z) by (subst stop start; lia).
  assert (Hstart : (start = stop - page_size)%Z) by (subst stop; lia).
  pose proof (served_from_the_end_iff page page_size (List.length l)) as Hiff.
  rewrite Hstop in *. rewrite half_open_slice_run.
  unfold py_slice, slice_bound.
  clearbody stop start.
  set (n := Z.of_nat (List.length l)) in *.
  assert (Hn : (0 <= n)%Z) by (subst n; lia).
  split; intros H.
  - assert (Hno : ~ (((page < 0 /\ 0 < page_size) \/ (page = 1 /\ page_size < 0)) /\
                      - stop < n)%Z) by (rewrite <- Hiff; congruence).
    clear Hiff H.
    destruct (Z_lt_le_dec start 0) as [Hs|Hs];
      destruct (Z_lt_le_dec page_size 0) as [Hz|Hz].
    + assert (E1 : firstn (Z.to_nat (stop - Z.max start 0))
                     (skipn (Z.to_nat start) l) = [])
        by (apply run_nil; left; lia).
      rewrite E1. apply run_nil. left.
      destruct (Z.ltb_spec start 0) as [Hlo|Hlo]; [|lia].
      destruct (Z.ltb_spec stop 0) as [Hhi|Hhi]; [|lia]. lia.
    + assert (Hp : (page <= 0)%Z) by (clear - Hstop Hstart Hs Hz; nia).
      assert (Hp' : (stop <= 0)%Z) by (clear - Hstop Hp Hz; nia).
      assert (E1 : firstn (Z.to_nat (stop - Z.max start 0))
                     (skipn (Z.to_nat start) l) = [])
        by (apply run_nil; left; lia).
      rewrite E1. apply run_nil. left.
      destruct (Z.ltb_spec start 0) as [Hlo|Hlo]; [|lia].
      destruct (Z.ltb_spec stop 0) as [Hhi|Hhi]; [|lia].
      assert (page < 0)%Z by (clear - Hstop Hp Hz Hhi; nia). lia.
    + assert (E1 : firstn (Z.to_nat (stop - Z.max start 0))
                     (skipn (Z.to_nat start) l) = [])
        by (apply run_nil; left; lia).
      rewrite E1. apply run_nil. left.
      destruct (Z.ltb_spec start 0) as [Hlo|Hlo]; [lia|].
      destruct (Z.ltb_spec stop 0) as [Hhi|Hhi]; [|lia].
      assert (page = 1)%Z by (clear - Hstop Hstart Hs Hz Hhi; nia). lia.
    + destruct (Z.ltb_spec start 0) as [Hlo|Hlo]; [lia|].
      destruct (Z.ltb_spec stop 0) as [Hhi|Hhi]; [lia|].
      rewrite Z.max_l by lia.
      destruct (Z_lt_le_dec start n) as [Hlt|Hge].
      * rewrite (Z.min_l start) by lia.
        destruct (Z_le_gt_dec stop n) as [Hle|Hgt].
        -- rewrite Z.min_l by lia. reflexivity.
        -- rewrite Z.min_r by lia.
           rewrite !firstn_all2; try reflexivity; rewrite length_skipn; lia.
      * rewrite (Z.min_r start) by lia.
        rewrite (skipn_all2 l) by lia.
        rewrite (skipn_all2 (n := Z.to_nat start) l) by lia.
        now rewrite !firstn_nil.
  - apply Hiff in H as [H Hlong]. clear Hiff.
    assert (Hs : (stop < 0)%Z /\
                 ((page < 0 /\ start < stop) \/ (page = 1 /\ start = 0))%Z)
      by (clear - Hstop Hstart H; nia).
    split; [apply run_nil; left; lia|].
    destruct (Z.ltb_spec stop 0) as [Hhi|Hhi]; [|lia].
    destruct (Z.ltb_spec start 0) as [Hlo|Hlo];
      destruct (Z.ltb_spec page 0) as [Hpg|Hpg]; try lia.
    + split.
      * intros E. apply run_nil in E. lia.
      * rewrite (Z.max_r 0 (stop + n)) by lia.
        replace (stop + n)%Z with (n + stop)%Z by lia.
        replace (start + n)%Z with (n + start)%Z by lia. reflexivity.
    + split.
      * intros E. apply run_nil in E. lia.
      * rewrite (Z.max_r 0 (stop + n)) by lia.
        replace (Z.min start n) with 0%Z by lia.
        replace (stop + n)%Z with (n + stop)%Z by lia. reflexivity.
Qed.

Lemma page_ids_nil page page_size order :
  page_ids page page_size order [] = [].
Proof.
  unfold page_ids, py_slice.
  destruct (order =? "desc")%string; simpl; now rewrite skipn_nil, firstn_nil.
Qed.

Section ReadToTheEnd.

Variable St : Type.
Variable imap : IMAP St.
Variable lib : EmailLib.

(** Read to the end, one message ends normally and leaves the consumer
    reading: no failure of its own gets out of it. *)
Lemma process_message_reads message_id (w : world St) :
  consumer w = None ->
  exists w' evs,
    process_message imap lib message_id w = (Ok tt, w', evs) /\
    consumer w' = None.
Proof.
  intros Hw.
  assert (H : respects (fun _ => True) (process_message imap lib message_id))
    by (apply respects_process_message; auto).
  destruct (H w) as [_ Hc]. destruct (Hc Hw) as [Hc1 Hc2]. clear H Hc.
  revert Hc1 Hc2. unfold process_message, try_except.
  match goal with |- context [bind ?m ?k w] => destruct (bind m k w) as [[[[]|e|] w1] e1] end;
    simpl; intros Hc1 Hc2; try contradiction; eauto.
Qed.

Lemma for_each_reads ids (w : world St) :
  consumer w = None ->
  exists w' evs,
    for_each ids (process_message imap lib) w = (Ok tt, w', evs) /\
    consumer w' = None.
Proof.
  revert w. induction ids as [|x ids IH]; intros w Hw.
  - exists w, []. auto.
  - destruct (process_message_reads x w Hw) as (w1 & e1 & H1 & Hw1).
    destruct (IH w1 Hw1) as (w2 & e2 & H2 & Hw2).
    exists w2, (e1 ++ e2).
    change (for_each (x :: ids) (process_message imap lib))
      with (bind (process_message imap lib x)
              (fun _ => for_each ids (process_message imap lib))).
    unfold bind. rewrite H1, H2. auto.
Qed.

End ReadToTheEnd.

Section ScriptedFacts.

Variable sc : script.
Variable lib : EmailLib.
Variable email_server : EmailServer.

Lemma world_unit (w : world unit) : consumer w = None -> w = w0.
Proof. destruct w as [[] c]. simpl. intros ->. reflexivity. Qed.

Lemma process_message_scripted message_id :
  process_message (scripted sc) lib message_id w0 =
  (Ok tt, w0, message_events sc lib message_id).
Proof.
  unfold message_events.
  destruct (process_message_reads (scripted sc) lib message_id w0 eq_refl)
    as (w' & evs & H & Hw).
  rewrite H. simpl. now rewrite (world_unit w' Hw).
Qed.

Lemma for_each_scripted ids :
  for_each ids (process_message (scripted sc) lib) w0 =
  (Ok tt, w0, flat_map (message_events sc lib) ids).
Proof.
  induction ids as [|x ids IH]; [reflexivity|].
  change (for_each (x :: ids) (process_message (scripted sc) lib))
    with (bind (process_message (scripted sc) lib x)
            (fun _ => for_each ids (process_message (scripted sc) lib))).
  unfold bind. rewrite process_message_scripted, IH. reflexivity.
Qed.

Lemma message_ids_of_run messages (w : world unit) :
  message_ids_of messages w = (Ok (search_ids messages), w, [search_log messages]).
Proof.
  destruct messages as [[|[|c first] rest]|]; reflexivity.
Qed.

Lemma stream_body_scripted page page_size f order messages :
  established sc ->
  r_search sc (_build_search_criteria f) = Reply messages ->
  stream_body (scripted sc) lib email_server page page_size f order w0 =
  (Ok tt, w0,
   prelude sc email_server f messages
   ++ flat_map (message_events sc lib)
        (page_ids page page_size order (search_ids messages))).
Proof.
  intros (H1 & H2 & H3 & H4) Hs.
  unfold stream_body, bind, call, try_except, log, prelude. cbn.
  rewrite H1, H2, H3, H4, Hs. cbn.
  destruct (r_id sc) as [[]|e]; cbn;
    rewrite message_ids_of_run, for_each_scripted; reflexivity.
Qed.


Lemma get_emails_stream_scripted page page_size f order messages :
  established sc ->
  r_search sc (_build_search_criteria f) = Reply messages ->
  get_emails_stream (scripted sc) lib email_server page page_size f order w0 =
  (Ok tt, w0,
   (prelude sc email_server f messages
    ++ flat_map (message_events sc lib)
         (page_ids page page_size order (search_ids messages)))
   ++ Call CLogout :: logout_log (r_logout sc)).
Proof.
  intros He Hs. unfold get_emails_stream, try_finally.
  rewrite stream_body_scripted with (messages := messages) by assumption.
  unfold close_session, try_except, call. cbn.
  destruct (r_logout sc) as [[]|e]; cbn; rewrite ?app_nil_r; reflexivity.
Qed.

Lemma count_body_scripted f messages :
  established sc ->
  r_search sc (_build_search_criteria f) = Reply messages ->
  exists evs,
    count_body (scripted sc) email_server f w0 =
    (match messages with
     | None => Raise TypeError
     | Some [] => Raise IndexError
     | Some (first :: _) => Ok (Z.of_nat (List.length (bytes_split first)))
     end, w0, evs) /\
    In (Call (CSearch (_build_search_criteria f))) evs.
Proof.
  intros (H1 & H2 & H3 & H4) Hs.
  unfold count_body, bind, call, log. cbn.
  rewrite H1, H2, H3, H4, Hs. cbn.
  destruct messages as [[|first rest]|]; cbn; eexists; split;
    try reflexivity; simpl; auto 10.
Qed.

Lemma get_email_count_scripted f messages :
  established sc ->
  r_search sc (_build_search_criteria f) = Reply messages ->
  exists evs,
    get_email_count (scripted sc) email_server f w0 =
    (match messages with
     | None => Raise TypeError
     | Some [] => Raise IndexError
     | Some (first :: _) => Ok (Z.of_nat (List.length (bytes_split first)))
     end, w0, evs) /\
    In (Call (CSearch (_build_search_criteria f))) evs.
Proof.
  intros He Hs. unfold get_email_count, try_finally.
  destruct (count_body_scripted f He Hs) as (evs & Hrun & Hin).
  rewrite Hrun. unfold close_session, try_except, call. cbn.
  destruct (r_logout sc) as [[]|e]; cbn; eexists; split; try reflexivity;
    apply in_or_app; now left.
Qed.

Lemma yields_flat_map (g : bytes -> list event) ids :
  yields (flat_map g ids) = flat_map (fun x => yields (g x)) ids.
Proof.
  induction ids as [|x ids IH]; simpl; [reflexivity|].
  now rewrite yields_app, IH.
Qed.

Lemma yields_prelude f messages : yields (prelude sc email_server f messages) = [].
Proof.
  unfold prelude, search_log.
  destruct (r_id sc) as [[]|e], messages as [[|[|c first] rest]|]; reflexivity.
Qed.

Lemma fetches_prelude f messages : fetches (prelude sc email_server f messages) = [].
Proof.
  unfold prelude, search_log.
  destruct (r_id sc) as [[]|e], messages as [[|[|c first] rest]|]; reflexivity.
Qed.

Lemma yields_logout : yields (Call CLogout :: logout_log (r_logout sc)) = [].
Proof. destruct (r_logout sc) as [[]|e]; reflexivity. Qed.

Lemma fetches_logout : fetches (Call CLogout :: logout_log (r_logout sc)) = [].
Proof. destruct (r_logout sc) as [[]|e]; reflexivity. Qed.

Lemma message_yields_at_most_one message_id :
  (List.length (yields (message_events sc lib message_id)) <= 1)%nat.
Proof.
  unfold message_events.
  destruct (process_message_run (scripted sc) lib message_id w0)
    as [(e & _ & Hrun)|(uid & data & w1 & e1 & _ & _ & Hq & _ & Hrun)].
  - rewrite Hrun. simpl. lia.
  - destruct Hrun as [(_ & Hrun)|(_ & r & w2 & e2 & Hrun & _ & Hy)];
      rewrite Hrun; simpl; rewrite yields_app, (quiet_yields Hq); simpl; lia.
Qed.

(** C1.  On any session, the loop over any list of identifiers, read to
    the end, ends normally: no failure of a message gets out of it.  On a
    session that answers by script and sets up, the stream ends normally
    and what it yields is, identifier by identifier and in the order of
    the page, what each message yields when it is processed alone: no
    record for a message whose fetch or parse fails, one record for each
    of the others. *)
Theorem stream_isolates_failures page page_size f order messages :
  (forall (St : Type) (imap : IMAP St) (ids : list bytes) (w : world St),
     consumer w = None ->
     exists w' evs,
       for_each ids (process_message imap lib) w = (Ok tt, w', evs) /\
       consumer w' = None) /\
  (established sc ->
   r_search sc (_build_search_criteria f) = Reply messages ->
   let run := get_emails_stream (scripted sc) lib email_server
                page page_size f order w0 in
   let ids := page_ids page page_size order (search_ids messages) in
   fst (fst run) = Ok tt /\
   yields (snd run) =
     flat_map (fun message_id => yields (message_events sc lib message_id)) ids /\
   (forall message_id,
      (List.length (yields (message_events sc lib message_id)) <= 1)%nat)).
Proof.
  split; [intros St imap ids w; apply for_each_reads|].
  intros He Hs run ids. subst run.
  rewrite get_emails_stream_scripted with (messages := messages) by assumption.
  cbn [fst snd].
  split; [reflexivity|]. split; [|apply message_yields_at_most_one].
  rewrite !yields_app, yields_prelude, yields_logout, yields_flat_map, app_nil_r.
  reflexivity.
Qed.


(** C4, as amended.  For every page and page size, the stream ends
    normally and processes, in order, the identifiers of the slice of
    lines 130-137 of the identifiers of the search (reversed first when
    the order is [desc]).  That slice is the half-open slice
    [(page-1)*page_size, page*page_size) exactly when the page is not
    served from the end; a page whose half-open slice holds no identifier
    then ends with no fetch and no record, as does every page that starts
    at or after the end of the list; and for a page of at least 1 and a
    size of at least 0 the slice is the [page_size] identifiers after the
    first [(page-1)*page_size].  A page served from the end has an empty
    half-open slice and is processed all the same: the identifiers from
    the start bound, counted from the end when the page is negative, up
    to the end bound, counted from the end. *)
Theorem stream_page page page_size f order messages :
  established sc ->
  r_search sc (_build_search_criteria f) = Reply messages ->
  let run := get_emails_stream (scripted sc) lib email_server
               page page_size f order w0 in
  let ids := if (order =? "desc")%string then rev (search_ids messages)
             else search_ids messages in
  let n := Z.of_nat (List.length ids) in
  let start := ((page - 1) * page_size)%Z in
  let window := half_open_slice ids start (page * page_size) in
  let served := page_ids page page_size order (search_ids messages) in
  fst (fst run) = Ok tt /\
  snd run =
    (prelude sc email_server f messages
     ++ flat_map (message_events sc lib) served)
    ++ Call CLogout :: logout_log (r_logout sc) /\
  yields (snd run) =
    flat_map (fun message_id => yields (message_events sc lib message_id)) served /\
  (served = window <->
   served_from_the_end page page_size (List.length ids) = false) /\
  (served = window -> window = [] ->
   yields (snd run) = [] /\ fetches (snd run) = []) /\
  ((n <= start)%Z ->
   served = window /\ window = [] /\
   yields (snd run) = [] /\ fetches (snd run) = []) /\
  ((1 <= page)%Z -> (0 <= page_size)%Z ->
   served = window /\
   window = firstn (Z.to_nat page_size) (skipn (Z.to_nat start) ids)) /\
  (served_from_the_end page page_size (List.length ids) = true ->
   window = [] /\ served <> [] /\
   served =
     firstn (Z.to_nat (n + page * page_size
                       - (if (page <? 0)%Z then Z.max 0 (n + start) else 0)))
       (skipn (Z.to_nat (if (page <? 0)%Z then Z.max 0 (n + start) else 0))
          ids)).
Proof.
  intros He Hs run ids n start window served.
  assert (Hrun : run =
    (Ok tt, w0,
     (prelude sc email_server f messages
      ++ flat_map (message_events sc lib) served)
     ++ Call CLogout :: logout_log (r_logout sc))).
  { subst run served. now apply get_emails_stream_scripted. }
  assert (Hy : yields (snd run) =
    flat_map (fun message_id => yields (message_events sc lib message_id)) served).
  { rewrite Hrun. cbn [snd].
    rewrite !yields_app, yields_prelude, yields_logout, yields_flat_map, app_nil_r.
    reflexivity. }
  assert (Hnil : served = [] -> yields (snd run) = [] /\ fetches (snd run) = []).
  { intros E. split; [now rewrite Hy, E|].
    rewrite Hrun, E. cbn [snd flat_map].
    now rewrite !fetches_app, fetches_prelude, fetches_logout. }
  assert (Hserved : served = py_slice ids start (start + page_size)) by reflexivity.
  destruct (slices_agree ids page page_size) as [Hsame Hend].
  fold start in Hsame, Hend. fold window in Hsame, Hend. fold n in Hend.
  rewrite <- Hserved in Hsame, Hend.
  assert (Hiff : served = window <->
                 served_from_the_end page page_size (List.length ids) = false).
  { split; [|exact Hsame].
    intros E. destruct (served_from_the_end _ _ _); [|reflexivity].
    destruct (Hend eq_refl) as (Hw & Hne & _). congruence. }
  assert (Hin : (1 <= page)%Z -> (0 <= page_size)%Z ->
                served_from_the_end page page_size (List.length ids) = false).
  { intros Hp Hz.
    destruct (served_from_the_end _ _ _) eqn:E; [|reflexivity].
    apply served_from_the_end_iff in E. lia. }
  assert (Hout : (n <= start)%Z ->
                 served_from_the_end page page_size (List.length ids) = false).
  { intros Hn.
    destruct (served_from_the_end _ _ _) eqn:E; [|reflexivity].
    apply served_from_the_end_iff in E. subst n start. nia. }
  split; [now rewrite Hrun|]. split; [now rewrite Hrun|].
  split; [exact Hy|]. split; [exact Hiff|].
  split; [intros E Hw; apply Hnil; congruence|].
  split.
  { intros Hn. pose proof (Hsame (Hout Hn)) as E.
    assert (Hw : window = []).
    { subst window. rewrite half_open_slice_run. apply run_nil. right.
      subst n. lia. }
    split; [exact E|]. split; [exact Hw|]. apply Hnil. congruence. }
  split; [|exact Hend].
  intros Hp Hz. split; [apply Hsame, Hin; assumption|].
  subst window.
  replace (page * page_size)%Z with (start + page_size)%Z by (subst start; lia).
  apply half_open_slice_window. subst start. nia.
Qed.

(** C7, at the failing input.  When the search response is [None] or
    has no line, the stream ends normally and yields nothing, and the
    count raises [TypeError] or [IndexError]. *)
Theorem count_fails_on_missing_result page page_size f order messages :
  established sc ->
  r_search sc (_build_search_criteria f) = Reply messages ->
  messages = None \/ messages = Some [] ->
  let run := get_emails_stream (scripted sc) lib email_server
               page page_size f order w0 in
  let count := get_email_count (scripted sc) email_server f w0 in
  (fst (fst run) = Ok tt /\ yields (snd run) = []) /\
  fst (fst count) =
    Raise (match messages with None => TypeError | Some _ => IndexError end).
Proof.
  intros He Hs Hm run count. split.
  - subst run.
    rewrite get_emails_stream_scripted with (messages := messages) by assumption.
    cbn [fst snd]. split; [reflexivity|].
    rewrite !yields_app, yields_prelude, yields_logout.
    destruct Hm as [-> | ->]; cbn [search_ids]; now rewrite page_ids_nil.
  - subst count.
    destruct (get_email_count_scripted f He Hs) as (evs & Hrun & _).
    rewrite Hrun. destruct Hm as [-> | ->]; reflexivity.
Qed.

(** A search response whose first line is empty is counted as zero and
    streamed as nothing. *)
Lemma empty_line_is_zero page page_size f order rest :
  established sc ->
  r_search sc (_build_search_criteria f) = Reply (Some ("" :: rest)) ->
  fst (fst (get_email_count (scripted sc) email_server f w0)) = Ok 0%Z /\
  fst (fst (get_emails_stream (scripted sc) lib email_server
              page page_size f order w0)) = Ok tt /\
  yields (snd (get_emails_stream (scripted sc) lib email_server
              page page_size f order w0)) = [].
Proof.
  intros He Hs.
  destruct (get_email_count_scripted f He Hs) as (evs & Hrun & _).
  rewrite Hrun.
  rewrite get_emails_stream_scripted with (messages := Some ("" :: rest))
    by assumption.
  cbn [fst snd]. repeat split.
  rewrite !yields_app, yields_prelude, yields_logout.
  change (search_ids (Some ("" :: rest))) with (@nil bytes).
  now rewrite page_ids_nil.
Qed.

Lemma get_emails_scripted page page_size f order line rest :
  established sc ->
  r_search sc (_build_search_criteria f) = Reply (Some (line :: rest)) ->
  exists p,
    fst (fst (get_emails (scripted sc) lib email_server
                page page_size f order tt)) = Ok p /\
    total p = Z.of_nat (List.length (bytes_split line)) /\
    emails p =
      map from_email
        (flat_map (fun message_id => yields (message_events sc lib message_id))
           (page_ids page page_size order (bytes_split line))).
Proof.
  intros He Hs. unfold get_emails.
  change {| server := tt; consumer := None |} with w0.
  rewrite get_emails_stream_scripted with (messages := Some (line :: rest))
    by assumption.
  change {| server := server w0; consumer := None |} with w0.
  destruct (get_email_count_scripted f He Hs) as (evs & Hrun & _).
  rewrite Hrun. eexists. cbn [fst snd total emails].
  repeat split.
  rewrite !yields_app, yields_prelude, yields_logout, yields_flat_map, app_nil_r.
  reflexivity.
Qed.

(** C9.  On a session that answers by script and sets up, with a search
    response of at least one line: [get_emails] returns a page whose
    [total] is the number of identifiers of the search, which is what
    [get_email_count] returns for the filter, whatever the page, the page
    size and the order; the emails of the page are those of the slice. *)
Theorem total_is_count page page_size order page' page_size' order' f line rest :
  established sc ->
  r_search sc (_build_search_criteria f) = Reply (Some (line :: rest)) ->
  exists p p',
    fst (fst (get_emails (scripted sc) lib email_server
                page page_size f order tt)) = Ok p /\
    fst (fst (get_emails (scripted sc) lib email_server
                page' page_size' f order' tt)) = Ok p' /\
    total p = Z.of_nat (List.length (search_ids (Some (line :: rest)))) /\
    total p' = total p /\
    emails p =
      map from_email
        (flat_map (fun message_id => yields (message_events sc lib message_id))
           (page_ids page page_size order (search_ids (Some (line :: rest))))) /\
    fst (fst (get_email_count (scripted sc) email_server f w0)) = Ok (total p).
Proof.
  intros He Hs.
  destruct (get_emails_scripted page page_size f order He Hs)
    as (p & Hp & Ht & Hem).
  destruct (get_emails_scripted page' page_size' f order' He Hs)
    as (p' & Hp' & Ht' & _).
  destruct (get_email_count_scripted f He Hs) as (evs & Hrun & _).
  exists p, p'. simpl. rewrite Hrun, Ht, Ht'. auto 10.
Qed.

End ScriptedFacts.

(** C3, at the failing input.  A single-part message whose payload is
    not empty and whose declared charset is unknown to the codec: the
    parser raises, and unless reading a header of the message has raised
    before, what it raises is the [LookupError] of the codec, which its
    handler of [UnicodeDecodeError] does not catch. *)
Theorem parse_fails_on_unknown_charset (lib : EmailLib) (raw b : bytes)
    (charset : string) (email_message : EmailMessage) :
  parsebytes lib raw = Reply email_message ->
  is_multipart email_message = false ->
  get_payload_decoded (self_part email_message) = Reply (Some b) ->
  b <> "" ->
  declared_charset (self_part email_message) = Reply (Some charset) ->
  decode lib b charset = Fails LookupError ->
  (exists e, _parse_email_data lib raw = Fails e) /\
  ((forall e, ~ header_fails email_message e) ->
   _parse_email_data lib raw = Fails LookupError).
Proof.
  intros Hr Hm Hp Hb Hc Hd.
  assert (H : forall su se da,
            get_subject email_message = Reply su ->
            get_from email_message = Reply se ->
            get_date email_message = Reply da ->
            _parse_email_data lib raw = Fails LookupError).
  { intros su se da Hsu Hse Hda.
    unfold _parse_email_data, get_content_charset, decode_or_replace.
    rewrite Hr. cbn [and_then]. rewrite Hsu, Hse, Hda, Hm. cbn [and_then].
    rewrite Hp. cbn [and_then]. rewrite Hc. cbn [and_then]. rewrite Hd.
    destruct b; [congruence | reflexivity]. }
  split.
  - destruct (get_subject email_message) as [su|e] eqn:Hsu.
    2: { exists e. unfold _parse_email_data. rewrite Hr. cbn [and_then].
         now rewrite Hsu. }
    destruct (get_from email_message) as [se|e] eqn:Hse.
    2: { exists e. unfold _parse_email_data. rewrite Hr. cbn [and_then].
         rewrite Hsu. cbn [and_then]. now rewrite Hse. }
    destruct (get_date email_message) as [da|e] eqn:Hda.
    2: { exists e. unfold _parse_email_data. rewrite Hr. cbn [and_then].
         rewrite Hsu. cbn [and_then]. rewrite Hse. cbn [and_then].
         now rewrite Hda. }
    exists LookupError. eapply H; reflexivity.
  - intros Hh.
    destruct (get_subject email_message) as [su|e] eqn:Hsu;
      [|exfalso; apply (Hh e); left; exact Hsu].
    destruct (get_from email_message) as [se|e] eqn:Hse;
      [|exfalso; apply (Hh e); right; left; exact Hse].
    destruct (get_date email_message) as [da|e] eqn:Hda;
      [|exfalso; apply (Hh e); right; right; exact Hda].
    eapply H; reflexivity.
Qed.

(** A part none of whose accessors raises. *)
Lemma readable_part part :
  (forall e, ~ accessor_fails part e) ->
  exists content_type disposition filename body_part charset,
    get_content_type part = Reply content_type /\
    get_content_disposition part = Reply disposition /\
    get_filename part = Reply filename /\
    get_payload_decoded part = Reply body_part /\
    declared_charset part = Reply charset.
Proof.
  unfold accessor_fails. intros H.
  destruct (get_content_type part) as [a1|e]; [|exfalso; apply (H e); auto].
  destruct (get_content_disposition part) as [a2|e];
    [|exfalso; apply (H e); auto].
  destruct (get_filename part) as [a3|e]; [|exfalso; apply (H e); auto].
  destruct (get_payload_decoded part) as [a4|e]; [|exfalso; apply (H e); auto].
  destruct (declared_charset part) as [a5|e]; [|exfalso; apply (H e); auto 6].
  exists a1, a2, a3, a4, a5. auto.
Qed.

Lemma walk_parts_total lib parts body attachments :
  (forall part e, In part parts -> ~ accessor_fails part e) ->
  (forall b c e, decode lib b c = Fails e -> e = UnicodeDecodeError) ->
  exists r, walk_parts lib parts body attachments = Reply r.
Proof.
  intros Ha Hd. revert body attachments.
  induction parts as [|part rest IH]; intros body attachments.
  - simpl. eauto.
  - assert (IH' : forall b a, exists r, walk_parts lib rest b a = Reply r).
    { apply IH. intros p e Hin. apply Ha. now right. }
    destruct (readable_part (fun e => Ha part e (or_introl eq_refl)))
      as (ct & cd & fn & pl & cs & H1 & H2 & H3 & H4 & H5).
    cbn [walk_parts]. unfold get_content_charset.
    rewrite H1, H2. cbn [and_then].
    destruct (contains "attachment" _).
    + rewrite H3. cbn [and_then]. destruct (truthy_str fn); apply IH'.
    + destruct (ct =? "text/plain")%string; [|apply IH'].
      rewrite H4. cbn [and_then].
      destruct pl as [b|]; [|apply IH'].
      destruct (truthy_bytes (Some b)); [|apply IH'].
      rewrite H5. unfold decode_or_replace.
      destruct cs as [c|]; cbn [and_then];
        (destruct (decode lib b _) as [t|e] eqn:E; cbn [and_then]; [apply IH'|]);
        rewrite (Hd _ _ _ E); cbn [and_then]; apply IH'.
Qed.

(** When the library parses the message and reads its headers and its
    parts without raising, and the codec fails by [UnicodeDecodeError]
    only, the parser returns, and the date of a header that does not
    parse is the wall clock. *)
Lemma parse_email_data_total lib raw email_message :
  parsebytes lib raw = Reply email_message ->
  readable email_message ->
  (forall b c e, decode lib b c = Fails e -> e = UnicodeDecodeError) ->
  exists p,
    _parse_email_data lib raw = Reply p /\
    (forall date_str,
       get_date email_message = Reply date_str ->
       parsedate_tz lib (get_default date_str "") = Reply None ->
       pe_date p = now lib).
Proof.
  intros Hr [Hh Ha] Hd. unfold _parse_email_data. rewrite Hr. cbn [and_then].
  destruct (get_subject email_message) as [su|e] eqn:Hsu;
    [|exfalso; apply (Hh e); left; exact Hsu].
  destruct (get_from email_message) as [se|e] eqn:Hse;
    [|exfalso; apply (Hh e); right; left; exact Hse].
  destruct (get_date email_message) as [da|e] eqn:Hda;
    [|exfalso; apply (Hh e); right; right; exact Hda].
  cbn [and_then]. unfold parts_read in Ha.
  assert (Hdate : forall p : ParsedEmail,
            pe_date p = parse_date lib (get_default da "") ->
            forall date_str, Reply da = Reply date_str ->
              parsedate_tz lib (get_default date_str "") = Reply None ->
              pe_date p = now lib).
  { intros p Hp date_str E Hn. injection E as <-. rewrite Hp.
    unfold parse_date. now rewrite Hn. }
  destruct (is_multipart email_message).
  - destruct (walk_parts_total lib (walk email_message) "" [] Ha Hd)
      as ([body att] & ->).
    cbn [and_then]. eexists. split; [reflexivity|]. now apply Hdate.
  - destruct (readable_part (fun e => Ha _ e (or_introl eq_refl)))
      as (ct & cd & fn & pl & cs & H1 & H2 & H3 & H4 & H5).
    unfold get_content_charset. rewrite H4. cbn [and_then].
    destruct pl as [b|].
    + destruct (truthy_bytes (Some b)).
      * rewrite H5. unfold decode_or_replace.
        destruct cs as [c|]; cbn [and_then];
          (destruct (decode lib b _) as [t|e] eqn:E; cbn [and_then];
           [|rewrite (Hd _ _ _ E); cbn [and_then]]);
          (eexists; split; [reflexivity|]; now apply Hdate).
      * cbn [and_then]. eexists. split; [reflexivity|]. now apply Hdate.
    + cbn [and_then]. eexists. split; [reflexivity|]. now apply Hdate.
Qed.

(* ================================================================== *)
(** ** The statements on the test doubles *)

Lemma mailbox_established ids broken : established (mailbox ids broken).
Proof. repeat split. Qed.

Lemma stream_isolates_failures_witness :
  established (mailbox ["1"; "2"; "3"] (String.eqb "2")) /\
  yields (snd (get_emails_stream
                 (scripted (mailbox ["1"; "2"; "3"] (String.eqb "2")))
                 toy_lib test_server 1 10 no_filter "asc" w0)) =
  flat_map
    (fun message_id =>
       yields (message_events (mailbox ["1"; "2"; "3"] (String.eqb "2"))
                 toy_lib message_id))
    ["1"; "2"; "3"] /\
  map (fun r => pe_body (parsed r))
    (yields (snd (get_emails_stream
                    (scripted (mailbox ["1"; "2"; "3"] (String.eqb "2")))
                    toy_lib test_server 1 10 no_filter "asc" w0))) =
  [sample_email "1"; sample_email "3"].
Proof.
  split; [apply mailbox_established|]. split.
  - exact (proj1 (proj2
      (proj2 (stream_isolates_failures
                (mailbox ["1"; "2"; "3"] (String.eqb "2")) toy_lib test_server
                1 10 no_filter "asc" (Some ["1 2 3"; "SEARCH completed"]))
         (mailbox_established ["1"; "2"; "3"] (String.eqb "2")) eq_refl))).
  - vm_compute. reflexivity.
Defined.

Lemma stream_page_witness :
  established (mailbox ids25 (fun _ => false)) /\
  served_from_the_end 2 10 (List.length (rev ids25)) = false /\
  half_open_slice (rev ids25) 10 20 =
    ["15"; "14"; "13"; "12"; "11"; "10"; "09"; "08"; "07"; "06"] /\
  yields (snd (get_emails_stream (scripted (mailbox ids25 (fun _ => false)))
                 toy_lib test_server 2 10 no_filter "desc" w0)) =
  flat_map
    (fun message_id =>
       yields (message_events (mailbox ids25 (fun _ => false)) toy_lib message_id))
    (half_open_slice (rev ids25) 10 20).
Proof.
  split; [apply mailbox_established|].
  split; [reflexivity|]. split; [vm_compute; reflexivity|].
  destruct (stream_page toy_lib test_server 2 10 no_filter "desc"
              (mailbox_established ids25 (fun _ => false)) eq_refl)
    as (_ & _ & Hy & Hiff & _).
  rewrite Hy, (proj2 Hiff eq_refl). reflexivity.
Defined.

(** C4, as stated, fails on a page that is served from the end.  Page -1
    of size 10 over 25 identifiers is out of range, the positions from
    -20 to -11 hold no identifier, and the stream fetches and yields the
    ten identifiers at positions 5 to 14.  Page 1 of size -3 has the empty
    half-open slice from 0 to -3, and the stream fetches and yields the
    first 22 identifiers. *)
Lemma negative_page_is_served :
  (half_open_slice ids25 ((-1 - 1) * 10) (-1 * 10) = [] /\
   fst (fst (get_emails_stream (scripted (mailbox ids25 (fun _ => false)))
               toy_lib test_server (-1) 10 no_filter "asc" w0)) = Ok tt /\
   fetched (snd (get_emails_stream (scripted (mailbox ids25 (fun _ => false)))
                   toy_lib test_server (-1) 10 no_filter "asc" w0)) =
     ["06"; "07"; "08"; "09"; "10"; "11"; "12"; "13"; "14"; "15"] /\
   List.length
     (yields (snd (get_emails_stream (scripted (mailbox ids25 (fun _ => false)))
                     toy_lib test_server (-1) 10 no_filter "asc" w0))) = 10%nat) /\
  (half_open_slice ids25 ((1 - 1) * -3) (1 * -3) = [] /\
   fst (fst (get_emails_stream (scripted (mailbox ids25 (fun _ => false)))
               toy_lib test_server 1 (-3) no_filter "asc" w0)) = Ok tt /\
   fetched (snd (get_emails_stream (scripted (mailbox ids25 (fun _ => false)))
                   toy_lib test_server 1 (-3) no_filter "asc" w0)) =
     firstn 22 ids25 /\
   List.length
     (yields (snd (get_emails_stream (scripted (mailbox ids25 (fun _ => false)))
                     toy_lib test_server 1 (-3) no_filter "asc" w0))) = 22%nat).
Proof. vm_compute. repeat split. Qed.

Lemma count_fails_on_missing_result_witness :
  established no_result /\
  fst (fst (get_emails_stream (scripted no_result) toy_lib test_server
              1 10 no_filter "desc" w0)) = Ok tt /\
  yields (snd (get_emails_stream (scripted no_result) toy_lib test_server
                 1 10 no_filter "desc" w0)) = [] /\
  fst (fst (get_email_count (scripted no_result) test_server no_filter w0)) =
    Raise IndexError.
Proof.
  assert (He : established no_result) by (repeat split).
  split; [exact He|].
  pose proof (count_fails_on_missing_result toy_lib test_server 1 10
                no_filter "desc" He eq_refl (or_intror eq_refl)) as H.
  simpl in H. destruct H as [[H1 H2] H3]. auto.
Defined.

Lemma total_is_count_witness :
  established (mailbox ids25 (fun _ => false)) /\
  exists p,
    fst (fst (get_emails (scripted (mailbox ids25 (fun _ => false)))
                toy_lib test_server 2 10 no_filter "desc" tt)) = Ok p /\
    total p = 25%Z /\
    List.length (emails p) = 10%nat.
Proof.
  split; [apply mailbox_established|].
  destruct (total_is_count toy_lib test_server 2 10 "desc" 1 5 "asc" no_filter
              (mailbox_established ids25 (fun _ => false)) eq_refl)
    as (p & p' & Hp & _ & Ht & _ & He & _).
  exists p. split; [exact Hp|]. split.
  - rewrite Ht. vm_compute. reflexivity.
  - rewrite He. vm_compute. reflexivity.
Defined.

Lemma parse_fails_on_unknown_charset_witness :
  decode toy_lib "hello" "x-unknown" = Fails LookupError /\
  _parse_email_data toy_lib (unknown_charset_header ++ "hello")%string =
    Fails LookupError.
Proof.
  split; [reflexivity|].
  apply (proj2 (parse_fails_on_unknown_charset toy_lib
           (unknown_charset_header ++ "hello")%string (b := "hello")
           (charset := "x-unknown")
           (email_message := toy_message (toy_part (Some "x-unknown") "hello"))
           eq_refl eq_refl eq_refl ltac:(discriminate) eq_refl eq_refl)).
  intros e [H|[H|H]]; discriminate H.
Defined.

(** The session that answers only the third request encoding with the
    message: three attempts, the third one with the content, one record. *)
Example third_format_is_the_last :
  fetches (snd (process_message (scripted third_format_only) toy_lib "7" w0)) =
    [("(BODY.PEEK[] FLAGS)", Reply flags_only_response);
     ("BODY.PEEK[] FLAGS", Reply flags_only_response);
     ("(BODY[] FLAGS)", Reply (content_response "7"))] /\
  map (fun r => pe_body (parsed r))
    (yields (snd (process_message (scripted third_format_only) toy_lib "7" w0)))
  = [sample_email "7"].
Proof. vm_compute. split; reflexivity. Qed.

(* ================================================================== *)
(** ** Examples *)

Example criteria_all : _build_search_criteria no_filter = ["ALL"].
Proof. reflexivity. Qed.

Example criteria_date :
  _build_search_criteria
    {| f_before := Some {| year := 2024; month := Mar; day := 5;
                           hour := 0; minute := 0; second := 0 |};
       f_since := None; f_subject := Some "hi"; f_body := None;
       f_text := None; f_from_address := None; f_to_address := None;
       f_is_unread := Some true; f_is_flagged := Some false |}
  = ["BEFORE"; "05-MAR-2024"; "SUBJECT"; "hi"; "UNSEEN"; "UNFLAGGED"].
Proof. reflexivity. Qed.

Example split_ids : bytes_split " 12  7 903 " = ["12"; "7"; "903"].
Proof. reflexivity. Qed.

Example slice_neg : py_slice [1;2;3;4;5]%Z (-4) (-2) = [2;3]%Z.
Proof. reflexivity. Qed.

Example find_flags : find "FLAGS (" "1 FETCH (FLAGS (\Seen))" 0 = 9%Z.
Proof. reflexivity. Qed.

(** A rejected login: the exception gets out, after one logout. *)
Example logout_after_failed_login :
  get_emails_stream
    (scripted (mailbox_where ["1"] (Fails (OtherError "auth")) (Reply tt)
                 (fun uid => Reply (content_response uid))))
    toy_lib test_server 1 10 no_filter "desc" w0 =
  (Raise (OtherError "auth"), w0,
   [Call CClientTask; Call CHello; Call (CLogin "user" "secret"); Call CLogout]).
Proof. reflexivity. Qed.

(** A consumer that closes the stream after the first of three records:
    one fetch, one record, one logout. *)
Example logout_after_early_close :
  let run := get_emails_stream
               (scripted (mailbox ["1"; "2"; "3"] (fun _ => false)))
               toy_lib test_server 1 10 no_filter "asc" (closing_after 1) in
  fst (fst run) = Closed /\
  fetched (snd run) = ["1"] /\
  List.length (yields (snd run)) = 1%nat /\
  filter is_logout (snd run) = [Call CLogout] /\
  last (snd run) (Call CHello) = Call CLogout.
Proof. vm_compute. repeat split. Qed.

(** A logout that fails after a count: the count is returned, the
    failure is logged. *)
Example logout_failure_is_logged :
  exists evs,
    get_email_count
      (scripted (mailbox_where ["1"; "2"; "3"] (Reply tt)
                   (Fails (OtherError "connection lost"))
                   (fun uid => Reply (content_response uid))))
      test_server no_filter w0 =
    (Ok 3%Z, w0,
     evs ++ [Call CLogout;
             Log Info (ErrorDuringLogout (OtherError "connection lost"))]).
Proof. eexists (_ :: _ :: _ :: _ :: _ :: _ :: nil). reflexivity. Qed.

(** A message that the parser rejects is skipped, with the error logged,
    and the messages around it are yielded. *)
Example parse_failure_is_isolated :
  let run := get_emails_stream
               (scripted (mailbox_where ["1"; "2"; "3"] (Reply tt) (Reply tt)
                  (fun uid => if (uid =? "2")%string
                              then Reply unknown_charset_response
                              else Reply (content_response uid))))
               toy_lib test_server 1 10 no_filter "asc" w0 in
  fst (fst run) = Ok tt /\
  map (fun r => pe_body (parsed r)) (yields (snd run)) =
    [sample_email "1"; sample_email "3"] /\
  errors_logged (snd run) = [ErrorParsingEmail LookupError].
Proof. vm_compute. repeat split. Qed.

(* ================================================================== *)
(** ** Further properties: strings *)

Lemma append_assoc (a b c : string) :
  ((a ++ b) ++ c)%string = (a ++ (b ++ c))%string.
Proof. induction a as [|x a IH]; simpl; [reflexivity | now rewrite IH]. Qed.

Lemma length_append (a b : string) :
  String.length (a ++ b) = String.length a + String.length b.
Proof. induction a as [|x a IH]; simpl; [reflexivity | now rewrite IH]. Qed.

Lemma prefix_nil (t : string) : prefix "" t = true.
Proof. destruct t; reflexivity. Qed.

Lemma prefix_append (s t : string) : prefix s (s ++ t) = true.
Proof.
  induction s as [|c s IH]; simpl; [apply prefix_nil|].
  destruct (ascii_dec c c); [exact IH | congruence].
Qed.

Lemma prefix_append_long (sub u v : string) :
  String.length sub <= String.length u -> prefix sub (u ++ v) = prefix sub u.
Proof.
  revert u. induction sub as [|c sub IH]; intros u H.
  - now rewrite !prefix_nil.
  - destruct u as [|x u]; simpl in *; [lia|].
    destruct (ascii_dec c x); [apply IH; lia | reflexivity].
Qed.

Lemma drop_append (a b : string) : drop (String.length a) (a ++ b) = b.
Proof. induction a as [|x a IH]; simpl; [reflexivity | exact IH]. Qed.

Lemma substring_prefix (m b : string) :
  substring 0 (String.length m) (m ++ b) = m.
Proof.
  induction m as [|y m IH]; simpl; [now destruct b | now rewrite IH].
Qed.

Lemma substring_append (a m b : string) :
  substring (String.length a) (String.length m) (a ++ m ++ b) = m.
Proof.
  induction a as [|x a IH]; simpl; [apply substring_prefix | exact IH].
Qed.

Lemma find_at_here (sub s : string) (i : Z) :
  prefix sub s = true -> find_at sub s i = i.
Proof. intros H. destruct s; cbn [find_at]; now rewrite H. Qed.

Lemma contains_append_r (sub a b : string) :
  prefix sub b = true -> contains sub (a ++ b) = true.
Proof.
  intros H. induction a as [|x a IH]; cbn [append contains].
  - destruct b; cbn [contains]; now rewrite H.
  - rewrite IH. apply orb_true_r.
Qed.

Lemma find_at_first (sub pre hd tl : string) (i : Z) :
  String.length sub <= String.length hd + 1 ->
  contains sub (pre ++ hd) = false ->
  prefix sub (hd ++ tl) = true ->
  find_at sub (pre ++ hd ++ tl) i = (i + len pre)%Z.
Proof.
  intros Hk. revert i. induction pre as [|c pre IH]; intros i Hc Hp.
  - simpl. rewrite find_at_here by exact Hp. unfold len. simpl. lia.
  - cbn [append] in *. cbn [contains] in Hc.
    apply orb_false_iff in Hc as [Hc1 Hc2].
    cbn [find_at].
    assert (Hpre : prefix sub (String c (pre ++ hd ++ tl)) = false).
    { rewrite <- Hc1.
      change (String c (pre ++ hd ++ tl))
        with (String c pre ++ (hd ++ tl))%string.
      rewrite <- append_assoc. apply prefix_append_long.
      simpl. rewrite length_append. lia. }
    rewrite Hpre, IH by assumption.
    unfold len. simpl String.length. lia.
Qed.

Lemma find_at_none (sub s : string) (i : Z) :
  contains sub s = false -> find_at sub s i = (-1)%Z.
Proof.
  revert i. induction s as [|c s IH]; intros i H; cbn [contains find_at] in *.
  - apply orb_false_iff in H as [H1 _]. now rewrite H1.
  - apply orb_false_iff in H as [H1 H2]. rewrite H1. now apply IH.
Qed.

Lemma append_nil_r (s : string) : (s ++ "")%string = s.
Proof. induction s as [|c s IH]; simpl; [reflexivity | now rewrite IH]. Qed.


(* ================================================================== *)
(** ** Further properties: search criteria and pages *)

Lemma digit_upper n : upper_char (digit n) = digit n.
Proof.
  pose proof (digit_cases n) as H. simpl in H.
  repeat (destruct H as [H|H]; [rewrite <- H; reflexivity|]). contradiction.
Qed.

Lemma digit_inj a b : digit a = digit b -> a mod 10 = b mod 10.
Proof.
  unfold digit. intros H.
  assert (Ha : a mod 10 < 10) by (apply Nat.mod_upper_bound; discriminate).
  assert (Hb : b mod 10 < 10) by (apply Nat.mod_upper_bound; discriminate).
  apply (f_equal nat_of_ascii) in H.
  rewrite !nat_ascii_embedding in H by lia. lia.
Qed.

Lemma upper_app a b : upper (a ++ b) = (upper a ++ upper b)%string.
Proof. induction a as [|c a IH]; simpl; [reflexivity | now rewrite IH]. Qed.

Lemma year_digits_upper n : upper (year_digits n) = year_digits n.
Proof.
  unfold year_digits.
  induction (Nat.to_uint n) as [|u IH|u IH|u IH|u IH|u IH|u IH|u IH|u IH|u IH|u IH];
    simpl; try rewrite IH; reflexivity.
Qed.

Lemma year_digits_inj a b : year_digits a = year_digits b -> a = b.
Proof.
  unfold year_digits. intros H.
  apply (f_equal NilEmpty.uint_of_string) in H.
  rewrite !NilEmpty.usu in H. injection H as H.
  now apply Unsigned.to_uint_inj.
Qed.

(** The number of digits of a year of [datetime]. *)
Lemma year_digits_length n :
  (Z.of_nat n < 10000)%Z ->
  String.length (year_digits n) =
  if (Z.of_nat n <? 10)%Z then 1
  else if (Z.of_nat n <? 100)%Z then 2
  else if (Z.of_nat n <? 1000)%Z then 3 else 4.
Proof.
  intros H.
  assert (Hall :
    forallb
      (fun n => Nat.eqb (String.length (year_digits n))
                  (if (Z.of_nat n <? 10)%Z then 1
                   else if (Z.of_nat n <? 100)%Z then 2
                   else if (Z.of_nat n <? 1000)%Z then 3 else 4))
      (seq 0 (Z.to_nat 10000)) = true) by (vm_compute; reflexivity).
  rewrite forallb_forall in Hall. apply Nat.eqb_eq, Hall, in_seq. lia.
Qed.

Lemma date_token_shape d :
  upper (strftime_d_b_Y d) =
  (two_digits (day d) ++ "-" ++ upper (month_abbr (month d)) ++ "-"
     ++ year_digits (year d))%string.
Proof.
  unfold strftime_d_b_Y, two_digits.
  rewrite ?upper_app. simpl. rewrite ?upper_app. simpl.
  now rewrite !digit_upper, year_digits_upper.
Qed.

Lemma two_digit_number a b :
  a < 100 -> b < 100 ->
  (a / 10) mod 10 = (b / 10) mod 10 -> a mod 10 = b mod 10 -> a = b.
Proof.
  intros Ha Hb H1 H2.
  pose proof (Nat.div_mod_eq a 10). pose proof (Nat.div_mod_eq b 10).
  assert (a / 10 < 10) by (apply Nat.Div0.div_lt_upper_bound; lia).
  assert (b / 10 < 10) by (apply Nat.Div0.div_lt_upper_bound; lia).
  rewrite !Nat.mod_small in H1 by lia. lia.
Qed.

(** X1.  The token of a date is the day in two digits, the month in
    three capitals and the year in decimal without padding.  For days
    below 100 and years below 10000 (the range of [datetime]): the token
    has eleven characters exactly when the year has four digits, and
    fewer for a year below 1000; and two dates with the same token have
    the same day, month and year. *)
Theorem date_token_determines_date (d1 d2 : datetime) :
  day d1 < 100 -> day d2 < 100 ->
  (Z.of_nat (year d1) < 10000)%Z -> (Z.of_nat (year d2) < 10000)%Z ->
  String.length (upper (strftime_d_b_Y d1)) =
    7 + String.length (year_digits (year d1)) /\
  (String.length (upper (strftime_d_b_Y d1)) = 11 <->
   (1000 <= Z.of_nat (year d1))%Z) /\
  (String.length (upper (strftime_d_b_Y d1)) <= 11) /\
  (upper (strftime_d_b_Y d1) = upper (strftime_d_b_Y d2) ->
   day d1 = day d2 /\ month d1 = month d2 /\ year d1 = year d2).
Proof.
  intros Hd1 Hd2 Hy1 Hy2. rewrite !date_token_shape.
  assert (Hlen : String.length
            (two_digits (day d1) ++ "-" ++ upper (month_abbr (month d1)) ++ "-"
               ++ year_digits (year d1)) =
          7 + String.length (year_digits (year d1))).
  { destruct (month d1); reflexivity. }
  rewrite Hlen, (year_digits_length _ Hy1).
  split; [reflexivity|].
  split; [|split].
  - destruct (Z.ltb_spec (Z.of_nat (year d1)) 10);
      [|destruct (Z.ltb_spec (Z.of_nat (year d1)) 100);
        [|destruct (Z.ltb_spec (Z.of_nat (year d1)) 1000)]]; lia.
  - destruct (Z.of_nat (year d1) <? 10)%Z, (Z.of_nat (year d1) <? 100)%Z,
      (Z.of_nat (year d1) <? 1000)%Z; lia.
  - unfold two_digits. intros E.
    destruct (month d1), (month d2); simpl in E; try discriminate E;
      injection E as E1 E2 E3;
      apply digit_inj in E1, E2; apply year_digits_inj in E3;
      (split; [now apply two_digit_number|]); (split; [reflexivity|]);
      exact E3.
Qed.

Lemma date_tokens_digit key d w :
  In w (date_tokens key d) -> w = key \/ exists c s, w = String c s /\ In c ["0"; "1"; "2"; "3"; "4"; "5"; "6"; "7"; "8"; "9"]%char.
Proof.
  destruct d as [d|]; [|simpl; tauto].
  unfold date_tokens, extend_date. cbn [app].
  intros [H|[H|[]]]; [now left|right].
  rewrite date_token_shape in H. unfold two_digits in H. simpl in H.
  eexists _, _. split; [symmetry; exact H | apply digit_cases].
Qed.

Lemma date_tokens_not_flag key d w :
  In w flag_words -> ~ In key flag_words -> ~ In w (date_tokens key d).
Proof.
  intros Hw Hk Hin. apply date_tokens_digit in Hin as [->|(c & s & -> & Hc)].
  - contradiction.
  - simpl in Hw, Hc.
    repeat (destruct Hw as [Hw|Hw]; [injection Hw as <- _; intuition discriminate|]).
    contradiction.
Qed.

Lemma text_tokens_in key x w :
  In w (text_tokens key x) -> w = key \/ x = Some w.
Proof.
  destruct x as [[|c s]|]; simpl; try tauto.
  intros [H|[H|[]]]; [now left | right; congruence].
Qed.

(** X2.  When no text field holds one of the four flag words as its
    value, the builder emits UNSEEN exactly when [is_unread] is true,
    SEEN exactly when it is false, FLAGGED exactly when [is_flagged] is
    true and UNFLAGGED exactly when it is false; [_add_flag_criteria]
    keeps the list it is given and appends at most two tokens. *)
Theorem flag_criteria_follow_the_flags (f : SearchFilter) :
  (forall w, In w flag_words -> ~ In (Some w) (text_fields f)) ->
  (In "UNSEEN" (_build_search_criteria f) <-> f_is_unread f = Some true) /\
  (In "SEEN" (_build_search_criteria f) <-> f_is_unread f = Some false) /\
  (In "FLAGGED" (_build_search_criteria f) <-> f_is_flagged f = Some true) /\
  (In "UNFLAGGED" (_build_search_criteria f) <-> f_is_flagged f = Some false) /\
  (forall l u fl, exists added,
     _add_flag_criteria l u fl = l ++ added /\ (List.length added <= 2)%nat).
Proof.
  intros Hno.
  assert (Hin : forall w, In w flag_words ->
            (In w (_build_search_criteria f) <->
             In w (_add_flag_criteria [] (f_is_unread f) (f_is_flagged f)))).
  { intros w Hw. rewrite build_search_criteria_tokens.
    assert (Hf : In w (field_tokens f) <->
                 In w (_add_flag_criteria [] (f_is_unread f) (f_is_flagged f))).
    { unfold field_tokens. rewrite !in_app_iff. split; [|tauto].
      intros H.
      repeat match type of H with _ \/ _ => destruct H as [H|H] end;
        try exact H;
        try (exfalso; revert H; apply date_tokens_not_flag;
             [exact Hw | simpl; intuition discriminate]);
        apply text_tokens_in in H as [->| H];
        try (exfalso; simpl in Hw; intuition discriminate);
        exfalso; apply (Hno w Hw); unfold text_fields; rewrite <- H;
        simpl; auto 6. }
    destruct (field_tokens f) as [|t ts] eqn:E; [|exact Hf].
    rewrite <- Hf. simpl. split; [|tauto].
    intros [<-|[]]. simpl in Hw. intuition discriminate. }
  repeat split.
  - intros H. apply Hin in H; [|simpl; auto].
    destruct (f_is_unread f) as [[|]|], (f_is_flagged f) as [[|]|];
      simpl in H; intuition discriminate.
  - intros E. apply Hin; [simpl; auto|]. rewrite E.
    destruct (f_is_flagged f) as [[|]|]; simpl; auto.
  - intros H. apply Hin in H; [|simpl; auto].
    destruct (f_is_unread f) as [[|]|], (f_is_flagged f) as [[|]|];
      simpl in H; intuition discriminate.
  - intros E. apply Hin; [simpl; auto|]. rewrite E.
    destruct (f_is_flagged f) as [[|]|]; simpl; auto.
  - intros H. apply Hin in H; [|simpl; auto].
    destruct (f_is_unread f) as [[|]|], (f_is_flagged f) as [[|]|];
      simpl in H; intuition discriminate.
  - intros E. apply Hin; [simpl; auto|]. rewrite E.
    destruct (f_is_unread f) as [[|]|]; simpl; auto.
  - intros H. apply Hin in H; [|simpl; auto 6].
    destruct (f_is_unread f) as [[|]|], (f_is_flagged f) as [[|]|];
      simpl in H; intuition discriminate.
  - intros E. apply Hin; [simpl; auto 6|]. rewrite E.
    destruct (f_is_unread f) as [[|]|]; simpl; auto.
  - intros l u fl. exists (_add_flag_criteria [] u fl).
    split; [apply add_flag_criteria_app|].
    destruct u as [[|]|], fl as [[|]|]; simpl; lia.
Qed.

(** X3.  The builder never returns the empty list, and every text field
    with a non-empty value appears in its result as the keyword of the
    field immediately followed by the value as it was given. *)
Theorem text_criteria_are_pairs (f : SearchFilter) :
  _build_search_criteria f <> [] /\
  (forall key x s,
     In (key, x) (keyed_text_fields f) -> x = Some s -> s <> "" ->
     exists pre post, _build_search_criteria f = pre ++ key :: s :: post).
Proof.
  rewrite build_search_criteria_tokens. split.
  { destruct (field_tokens f); discriminate. }
  intros key x s Hin -> Hs.
  assert (Ht : text_tokens key (Some s) = [key; s])
    by (destruct s; [congruence | reflexivity]).
  assert (H : exists pre post, field_tokens f = pre ++ key :: s :: post).
  { unfold field_tokens. simpl in Hin.
    repeat (destruct Hin as [Hin|Hin];
            [injection Hin as <- Hx; rewrite Hx, Ht|]); try contradiction.
    - exists (date_tokens "BEFORE" (f_before f) ++ date_tokens "SINCE" (f_since f)).
      eexists. rewrite <- !app_assoc. reflexivity.
    - exists (date_tokens "BEFORE" (f_before f) ++ date_tokens "SINCE" (f_since f)
              ++ text_tokens "SUBJECT" (f_subject f)).
      eexists. rewrite <- !app_assoc. reflexivity.
    - exists (date_tokens "BEFORE" (f_before f) ++ date_tokens "SINCE" (f_since f)
              ++ text_tokens "SUBJECT" (f_subject f) ++ text_tokens "BODY" (f_body f)).
      eexists. rewrite <- !app_assoc. reflexivity.
    - exists (date_tokens "BEFORE" (f_before f) ++ date_tokens "SINCE" (f_since f)
              ++ text_tokens "SUBJECT" (f_subject f) ++ text_tokens "BODY" (f_body f)
              ++ text_tokens "TEXT" (f_text f)).
      eexists. rewrite <- !app_assoc. reflexivity.
    - exists (date_tokens "BEFORE" (f_before f) ++ date_tokens "SINCE" (f_since f)
              ++ text_tokens "SUBJECT" (f_subject f) ++ text_tokens "BODY" (f_body f)
              ++ text_tokens "TEXT" (f_text f)
              ++ text_tokens "FROM" (f_from_address f)).
      eexists. rewrite <- !app_assoc. reflexivity. }
  destruct H as (pre & post & H). rewrite H.
  exists pre, post. destruct pre; reflexivity.
Qed.


Lemma no_space_app a b : no_space (a ++ b) = no_space a && no_space b.
Proof.
  unfold no_space. induction a as [|c a IH]; simpl; [reflexivity|].
  now rewrite IH, andb_assoc.
Qed.

Lemma split_acc_word s rest cur :
  no_space s = true ->
  split_acc bytes_space (s ++ rest) cur =
  split_acc bytes_space rest (cur ++ s).
Proof.
  revert cur. induction s as [|c s IH]; intros cur H; simpl.
  - now rewrite append_nil_r.
  - unfold no_space in H. simpl in H. apply andb_true_iff in H as [Hc Hs].
    apply negb_true_iff in Hc. rewrite Hc, IH by exact Hs.
    now rewrite append_assoc.
Qed.

Lemma is_word_spec s : is_word s = true <-> s <> "" /\ no_space s = true.
Proof.
  unfold is_word, no_space. rewrite andb_true_iff, negb_true_iff.
  rewrite String.eqb_neq. tauto.
Qed.

Lemma split_acc_words s cur :
  no_space cur = true ->
  Forall (fun t => is_word t = true) (split_acc bytes_space s cur).
Proof.
  revert cur. induction s as [|c s IH]; intros cur Hc; simpl.
  - destruct cur as [|x cur]; constructor; [|constructor].
    apply is_word_spec. split; [discriminate | exact Hc].
  - destruct (bytes_space c) eqn:E.
    + destruct cur as [|x cur]; [apply IH; reflexivity|].
      constructor; [|apply IH; reflexivity].
      apply is_word_spec. split; [discriminate | exact Hc].
    + apply IH. rewrite no_space_app, Hc. unfold no_space. simpl.
      now rewrite E.
Qed.

Lemma bytes_split_join ids :
  Forall (fun t => is_word t = true) ids ->
  bytes_split (join " " ids) = ids.
Proof.
  unfold bytes_split. induction 1 as [|x ids Hx Hids IH]; [reflexivity|].
  apply is_word_spec in Hx as [Hne Hns].
  destruct ids as [|y ids].
  - simpl. rewrite <- (append_nil_r x) at 1.
    rewrite split_acc_word by exact Hns. simpl.
    destruct x; [congruence | reflexivity].
  - change (join " " (x :: y :: ids))
      with (x ++ String " " (join " " (y :: ids)))%string.
    rewrite split_acc_word by exact Hns.
    cbn [split_acc append]. change (bytes_space " ") with true. cbn iota.
    destruct x as [|c x]; [congruence|]. now rewrite IH.
Qed.


Lemma py_slice_part {A : Type} (l : list A) (start stop : Z) :
  exists pre post, l = pre ++ py_slice l start stop ++ post.
Proof.
  unfold py_slice.
  set (lo := Z.to_nat (slice_bound (Z.of_nat (List.length l)) start)).
  set (k := Z.to_nat (_ - _)).
  exists (firstn lo l), (skipn k (skipn lo l)).
  now rewrite (firstn_skipn k (skipn lo l)), firstn_skipn.
Qed.

Lemma py_slice_length {A : Type} (l : list A) (start size : Z) :
  (0 <= size)%Z ->
  (List.length (py_slice l start (start + size)) <= Z.to_nat size)%nat.
Proof.
  intros Hs. unfold py_slice.
  etransitivity; [apply firstn_le_length|].
  unfold slice_bound.
  destruct (Z.ltb_spec start 0); destruct (Z.ltb_spec (start + size) 0); lia.
Qed.

Lemma firstn_plus {A : Type} (a b : nat) (l : list A) :
  firstn (a + b) l = firstn a l ++ firstn b (skipn a l).
Proof.
  revert l. induction a as [|a IH]; intros l; [reflexivity|].
  destruct l as [|x l]; simpl; [now rewrite firstn_nil | now rewrite IH].
Qed.

(** X4.  For every page number and page size, negative ones included,
    the identifiers of the page are one contiguous run of the ordered
    identifier list; when the page size is not negative the page holds
    at most [page_size] identifiers. *)
Theorem page_is_a_run_of_the_list page page_size order (message_ids : list bytes) :
  (exists pre post,
     ordered order message_ids =
     pre ++ page_ids page page_size order message_ids ++ post) /\
  ((0 <= page_size)%Z ->
   (List.length (page_ids page page_size order message_ids)
    <= Z.to_nat page_size)%nat).
Proof.
  unfold page_ids, ordered. split.
  - apply py_slice_part.
  - apply py_slice_length.
Qed.

(** X5.  For a page size of at least 0, the pages 1 to [n], one after the
    other, are the first [n * page_size] identifiers of the ordered
    list: no identifier is skipped or repeated between pages, and the
    pages cover the list once [n * page_size] reaches its length. *)
Theorem pages_tile_the_list page_size order (message_ids : list bytes) (n : nat) :
  (0 <= page_size)%Z ->
  flat_map (fun p => page_ids (Z.of_nat p) page_size order message_ids) (seq 1 n)
  = firstn (n * Z.to_nat page_size) (ordered order message_ids) /\
  ((List.length message_ids <= n * Z.to_nat page_size)%nat ->
   flat_map (fun p => page_ids (Z.of_nat p) page_size order message_ids) (seq 1 n)
   = ordered order message_ids).
Proof.
  intros Hs.
  assert (H : flat_map (fun p => page_ids (Z.of_nat p) page_size order message_ids)
                (seq 1 n)
              = firstn (n * Z.to_nat page_size) (ordered order message_ids)).
  { induction n as [|n IH]; [reflexivity|].
    rewrite seq_S, flat_map_app, IH. cbn [flat_map]. rewrite app_nil_r.
    unfold page_ids. fold (ordered order message_ids).
    rewrite py_slice_window by nia.
    replace (Z.to_nat ((Z.of_nat (1 + n) - 1) * page_size))
      with (n * Z.to_nat page_size)%nat by nia.
    rewrite <- firstn_plus. f_equal. lia. }
  split; [exact H|]. intros Hl. rewrite H. apply firstn_all2.
  unfold ordered. destruct (order =? "desc")%string; rewrite ?length_rev; exact Hl.
Qed.

Section SearchLine.

Variable sc : script.
Variable email_server : EmailServer.

(** X6.  On a scripted session that sets up, when the first line of the
    search response is a list of identifiers (non-empty words) joined by
    single spaces, the identifiers read are exactly those, and the count
    is their number; whatever the line, no identifier read from it is
    empty or holds white space. *)
Theorem search_line_is_split_into_its_identifiers f (ids : list string) rest :
  established sc ->
  Forall (fun t => is_word t = true) ids ->
  r_search sc (_build_search_criteria f) = Reply (Some (join " " ids :: rest)) ->
  search_ids (Some (join " " ids :: rest)) = ids /\
  fst (fst (get_email_count (scripted sc) email_server f w0))
    = Ok (Z.of_nat (List.length ids)) /\
  (forall line rest',
     Forall (fun t => is_word t = true) (search_ids (Some (line :: rest')))).
Proof.
  intros He Hw Hs.
  assert (Hsplit : bytes_split (join " " ids) = ids)
    by now apply bytes_split_join.
  split; [exact Hsplit|]. split.
  - destruct (get_email_count_scripted email_server f He Hs) as (evs & Hrun & _).
    rewrite Hrun. cbn [fst]. now rewrite Hsplit.
  - intros line rest'. apply split_acc_words. reflexivity.
Qed.

End SearchLine.

(* ================================================================== *)
(** ** Further properties: the stream, the count and the handler *)


Lemma session_event_yields evs : Forall session_event evs -> yields evs = [].
Proof.
  induction 1 as [|e l He _ IH]; simpl; [reflexivity|].
  destruct e; simpl in *; try contradiction; exact IH.
Qed.

Section StreamBounds.

Variable St : Type.
Variable imap : IMAP St.
Variable lib : EmailLib.
Variable email_server : EmailServer.



Lemma close_session_events (w : world St) :
  Forall session_event (snd (close_session imap w)) /\
  exists w', fst (close_session imap w) = (Ok tt, w').
Proof.
  unfold close_session, try_except, call.
  destruct (logout imap (server w)) as [s [[]|e]]; simpl;
    split; eauto; repeat constructor.
Qed.



Lemma session_event_log lvl m : session_event (Log lvl m).
Proof. exact I. Qed.






Lemma yields_at_most_quiet A (m : M St A) :
  respects session_event m -> yields_at_most 0 m.
Proof.
  intros H w. destruct (H w) as [Hev _].
  now rewrite (session_event_yields Hev).
Qed.

Lemma yields_at_most_then A B n (m : M St A) (k : A -> M St B) :
  respects session_event m -> (forall x, yields_at_most n (k x)) ->
  yields_at_most n (bind m k).
Proof.
  intros Hm Hk. apply (yields_at_most_bind (a := 0) (b := n));
    [now apply yields_at_most_quiet | exact Hk].
Qed.

Lemma process_message_yields_at_most message_id :
  yields_at_most 1 (process_message imap lib message_id).
Proof.
  intros w.
  destruct (process_message_run imap lib message_id w)
    as [(e & _ & Hrun)|(uid & data & w1 & e1 & _ & _ & Hq & _ & Hrun)].
  - rewrite Hrun. simpl. lia.
  - destruct Hrun as [(_ & Hrun)|(_ & r & w2 & e2 & Hrun & _ & Hy)];
      rewrite Hrun; simpl; rewrite yields_app, (quiet_yields Hq); simpl; lia.
Qed.

Lemma for_each_yields_at_most ids :
  yields_at_most (List.length ids) (for_each ids (process_message imap lib)).
Proof.
  induction ids as [|x ids IH]; [intros w; simpl; lia|].
  change (for_each (x :: ids) (process_message imap lib))
    with (bind (process_message imap lib x)
            (fun _ => for_each ids (process_message imap lib))).
  apply (yields_at_most_bind (a := 1) (b := List.length ids));
    [apply process_message_yields_at_most | intros _; exact IH].
Qed.

Lemma stream_body_yields_at_most page page_size f order :
  (0 <= page_size)%Z ->
  yields_at_most (Z.to_nat page_size)
    (stream_body imap lib email_server page page_size f order).
Proof.
  intros Hs. unfold stream_body.
  assert (Hc : forall A c (op : St -> St * reply A),
            respects session_event (call c op))
    by (intros; apply respects_call; exact I).
  do 3 (apply yields_at_most_then; [apply Hc | intros _]).
  apply yields_at_most_then; [|intros _].
  { apply respects_try_except; [apply Hc|].
    intros e. apply respects_log, session_event_log. }
  apply yields_at_most_then; [apply Hc | intros _].
  apply yields_at_most_then; [apply respects_log, session_event_log | intros _].
  apply yields_at_most_then; [apply Hc | intros messages].
  apply yields_at_most_then.
  { apply respects_message_ids_of. exact session_event_log. }
  intros ids w.
  etransitivity; [apply for_each_yields_at_most|].
  unfold page_ids. apply py_slice_length. exact Hs.
Qed.


(** X8.  For a page size of at least 0, on any session and with any
    consumer and page number, the stream yields at most [page_size]
    records, and a page returned by [get_emails] holds at most
    [page_size] emails. *)
Theorem page_never_exceeds_page_size page page_size f order (w : world St) (s : St) :
  (0 <= page_size)%Z ->
  (List.length
     (yields (snd (get_emails_stream imap lib email_server
                     page page_size f order w))) <= Z.to_nat page_size)%nat /\
  (forall p,
     fst (fst (get_emails imap lib email_server page page_size f order s)) = Ok p ->
     (List.length (emails p) <= Z.to_nat page_size)%nat).
Proof.
  intros Hs.
  assert (H : forall w',
    (List.length
       (yields (snd (get_emails_stream imap lib email_server
                       page page_size f order w'))) <= Z.to_nat page_size)%nat).
  { intros w'. unfold get_emails_stream, try_finally.
    pose proof (@stream_body_yields_at_most page page_size f order Hs w') as Hb.
    destruct (stream_body imap lib email_server page page_size f order w')
      as [[r w1] e1]. simpl in Hb.
    destruct (close_session_events w1) as [Hq (w2 & Hc)].
    destruct (close_session imap w1) as [[r2 w3] e2]. simpl in *.
    injection Hc as -> ->. simpl.
    now rewrite yields_app, (session_event_yields Hq), app_nil_r. }
  split; [apply H|].
  intros p. unfold get_emails.
  specialize (H {| server := s; consumer := None |}).
  destruct (get_emails_stream imap lib email_server page page_size f order
              {| server := s; consumer := None |}) as [[[[]|e|] w1] e1];
    simpl in *; try discriminate.
  destruct (get_email_count imap email_server f
              {| server := server w1; consumer := None |})
    as [[[n|e|] w2] e2]; simpl; try discriminate.
  intros E. injection E as <-. simpl. now rewrite length_map.
Qed.



(** X9.  On any session, [get_email_count] fetches no message and yields
    nothing; it searches at most once, with the tokens of the filter;
    and a count it returns is not negative and follows one search. *)
Theorem count_reads_no_message f (w : world St) :
  let run := get_email_count imap email_server f w in
  fetches (snd run) = [] /\ yields (snd run) = [] /\
  (searches (snd run) = [] \/
   searches (snd run) = [_build_search_criteria f]) /\
  (forall n, fst (fst run) = Ok n ->
     (0 <= n)%Z /\ searches (snd run) = [_build_search_criteria f]).
Proof.
  unfold get_email_count, try_finally, close_session, try_except, count_body,
    bind, call, log, raise, ret.
  destruct (client_task imap (server w)) as [s1 [[]|e1]]; cbn -[_build_search_criteria].
  2: { destruct (logout imap s1) as [s' [[]|e']]; cbn; intuition discriminate. }
  destruct (wait_hello_from_server imap s1) as [s2 [[]|e2]]; cbn -[_build_search_criteria].
  2: { destruct (logout imap s2) as [s' [[]|e']]; cbn; intuition discriminate. }
  destruct (login imap _ _ s2) as [s3 [[]|e3]]; cbn -[_build_search_criteria].
  2: { destruct (logout imap s3) as [s' [[]|e']]; cbn; intuition discriminate. }
  destruct (select imap _ s3) as [s4 [[]|e4]]; cbn -[_build_search_criteria].
  2: { destruct (logout imap s4) as [s' [[]|e']]; cbn; intuition discriminate. }
  destruct (uid_search imap _ s4) as [s5 [[[|first rest]|]|e5]];
    cbn -[_build_search_criteria];
    destruct (logout imap s5) as [s' [[]|e']]; cbn -[_build_search_criteria];
    (split; [reflexivity|]); (split; [reflexivity|]);
    (split; [now right|]); intros n E; try discriminate E;
    (split; [|reflexivity]); injection E as E; lia.
Qed.






End StreamBounds.

Section BudgetFacts.

Variable St : Type.
Variable imap : IMAP St.
Variable lib : EmailLib.
Variable email_server : EmailServer.

Lemma budgeted_ret A (a : A) : budgeted (ret (St:=St) a).
Proof. intros w k Hw. simpl. eauto. Qed.

Lemma budgeted_raise A e : budgeted (raise (St:=St) (A:=A) e).
Proof. intros w k Hw. simpl. eauto. Qed.

Lemma budgeted_log lvl m : budgeted (log (St:=St) lvl m).
Proof. intros w k Hw. simpl. eauto. Qed.

Lemma budgeted_lift A (r : reply A) : budgeted (lift (St:=St) r).
Proof. intros w k Hw. unfold lift. destruct r; simpl; eauto. Qed.

Lemma budgeted_call A c (op : St -> St * reply A) : budgeted (call c op).
Proof.
  intros w k Hw. unfold call. destruct (op (server w)) as [s [a|e]]; simpl; eauto.
Qed.

Lemma budgeted_fetch uid fmt : budgeted (fetch imap uid fmt).
Proof.
  intros w k Hw. unfold fetch.
  destruct (uid_fetch imap uid fmt (server w)) as [s [a|e]]; simpl; eauto.
Qed.

Lemma budgeted_yield r : budgeted (yield_ (St:=St) r).
Proof.
  intros w k Hw. unfold yield_. rewrite Hw.
  destruct k as [|[|k]]; simpl.
  - split; [exists [], r; reflexivity | reflexivity].
  - split; [exists [], r; reflexivity | reflexivity].
  - exists (S k). split; [reflexivity | lia].
Qed.

Lemma budgeted_bind A B (m : M St A) (k : A -> M St B) :
  budgeted m -> (forall a, budgeted (k a)) -> budgeted (bind m k).
Proof.
  intros Hm Hk w n Hw. unfold bind. specialize (Hm w n Hw).
  destruct (m w) as [[[a|e|] w1] e1]; try exact Hm.
  destruct Hm as (n1 & Hw1 & H1).
  specialize (Hk a w1 n1 Hw1).
  destruct (k a w1) as [[[b|e|] w2] e2].
  - destruct Hk as (n2 & Hw2 & H2). exists n2.
    rewrite yields_app, length_app. split; [exact Hw2 | lia].
  - destruct Hk as (n2 & Hw2 & H2). exists n2.
    rewrite yields_app, length_app. split; [exact Hw2 | lia].
  - destruct Hk as ((pre & r & ->) & H2). split.
    + exists (e1 ++ pre), r. now rewrite app_assoc.
    + rewrite yields_app, length_app. lia.
Qed.

Lemma budgeted_try_except A (m : M St A) (h : exc -> M St A) :
  budgeted m -> (forall e, budgeted (h e)) -> budgeted (try_except m h).
Proof.
  intros Hm Hh w n Hw. unfold try_except. specialize (Hm w n Hw).
  destruct (m w) as [[[a|e|] w1] e1]; try exact Hm.
  destruct Hm as (n1 & Hw1 & H1).
  specialize (Hh e w1 n1 Hw1).
  destruct (h e w1) as [[[b|e'|] w2] e2].
  - destruct Hh as (n2 & Hw2 & H2). exists n2.
    rewrite yields_app, length_app. split; [exact Hw2 | lia].
  - destruct Hh as (n2 & Hw2 & H2). exists n2.
    rewrite yields_app, length_app. split; [exact Hw2 | lia].
  - destruct Hh as ((pre & r & ->) & H2). split.
    + exists (e1 ++ pre), r. now rewrite app_assoc.
    + rewrite yields_app, length_app. lia.
Qed.

Lemma budgeted_for_each A (l : list A) (body : A -> M St unit) :
  (forall x, budgeted (body x)) -> budgeted (for_each l body).
Proof.
  intros Hb. induction l as [|x l IH]; simpl.
  - apply budgeted_ret.
  - apply budgeted_bind; [apply Hb | intros _; exact IH].
Qed.

Ltac budgeted_step :=
  lazymatch goal with
  | |- budgeted (bind _ _) => apply budgeted_bind; [|intros ?]
  | |- budgeted (try_except _ _) => apply budgeted_try_except; [|intros ?]
  | |- budgeted (ret _) => apply budgeted_ret
  | |- budgeted (raise _) => apply budgeted_raise
  | |- budgeted (log _ _) => apply budgeted_log
  | |- budgeted (lift _) => apply budgeted_lift
  | |- budgeted (yield_ _) => apply budgeted_yield
  | |- budgeted (fetch _ _ _) => apply budgeted_fetch
  | |- budgeted (call _ _) => apply budgeted_call
  | |- budgeted (if ?b then _ else _) => destruct b
  | |- budgeted (match ?x with _ => _ end) => destruct x
  end.

Lemma budgeted_fetch_loop formats uid data :
  budgeted (fetch_loop imap formats uid data).
Proof.
  revert data. induction formats as [|fmt rest IH]; intros data; simpl.
  - apply budgeted_ret.
  - apply budgeted_bind; [unfold attempt; repeat budgeted_step|].
    intros [[|] d]; simpl; [apply budgeted_ret | apply IH].
Qed.

Lemma budgeted_log_items i data : budgeted (log_items (St:=St) i data).
Proof.
  revert i. induction data as [|it rest IH]; intros i; simpl.
  - apply budgeted_ret.
  - apply budgeted_bind; [destruct it; budgeted_step | intros _; apply IH].
Qed.

Lemma budgeted_scan_items data raw fl :
  budgeted (scan_items (St:=St) lib data raw fl).
Proof.
  revert raw fl. induction data as [|it rest IH]; intros raw fl; simpl.
  - apply budgeted_ret.
  - apply budgeted_bind; [repeat budgeted_step | intros ?; apply IH].
Qed.

Lemma budgeted_process_message message_id :
  budgeted (process_message imap lib message_id).
Proof.
  unfold process_message.
  apply budgeted_try_except; [|intros e; budgeted_step].
  apply budgeted_bind; [budgeted_step|intros uid].
  apply budgeted_bind; [apply budgeted_fetch_loop|intros data].
  destruct (negb (truthy_data data)); [budgeted_step|].
  unfold deliver.
  apply budgeted_bind; [budgeted_step|intros _].
  apply budgeted_bind; [apply budgeted_log_items|intros _].
  apply budgeted_bind; [apply budgeted_scan_items|intros [raw fl]]. simpl.
  repeat budgeted_step.
Qed.

Lemma budgeted_stream_body page page_size f order :
  budgeted (stream_body imap lib email_server page page_size f order).
Proof.
  unfold stream_body.
  do 8 (apply budgeted_bind; [repeat budgeted_step|intros ?]).
  - unfold message_ids_of. repeat budgeted_step.
  - apply budgeted_for_each. intros x. apply budgeted_process_message.
Qed.

Lemma close_session_run (w : world St) :
  close_session imap w =
  (Ok tt, {| server := fst (logout imap (server w)); consumer := consumer w |},
   Call CLogout :: logout_log (snd (logout imap (server w)))).
Proof.
  unfold close_session, try_except, call.
  destruct (logout imap (server w)) as [s [[]|e]]; reflexivity.
Qed.

Lemma yields_logout_log r : yields (Call CLogout :: logout_log r) = [].
Proof. destruct r; reflexivity. Qed.

(** X11.  With a consumer that closes the stream after [k] records (at
    least one), on any session: the stream yields at most [k] records;
    when it is closed it has yielded exactly [k], and the last record is
    followed by the logout alone, with no further fetch; when it ends
    normally the page ran out before the [k]-th record. *)
Theorem closing_consumer_stops_the_stream page page_size f order
    (w : world St) (k : nat) :
  consumer w = Some k ->
  let run := get_emails_stream imap lib email_server page page_size f order w in
  (List.length (yields (snd run)) <= Nat.max k 1)%nat /\
  (fst (fst run) = Closed ->
   List.length (yields (snd run)) = Nat.max k 1 /\
   exists pre r tail,
     snd run = pre ++ Yield r :: Call CLogout :: tail /\
     fetches tail = [] /\ yields tail = []) /\
  (fst (fst run) = Ok tt -> (List.length (yields (snd run)) < Nat.max k 1)%nat).
Proof.
  intros Hw. unfold get_emails_stream, try_finally.
  pose proof (@budgeted_stream_body page page_size f order w k Hw) as Hb.
  destruct (stream_body imap lib email_server page page_size f order w)
    as [[r w1] e1].
  rewrite close_session_run. cbn [fst snd].
  rewrite yields_app, yields_logout_log, app_nil_r.
  destruct r as [[]|e|].
  - destruct Hb as (k' & _ & H). split; [lia|]. split; [discriminate|].
    intros _. lia.
  - destruct Hb as (k' & _ & H). split; [lia|]. split; discriminate.
  - destruct Hb as ((pre & r & ->) & H). split; [lia|]. split; [|discriminate].
    intros _. split; [exact H|].
    exists pre, r, (logout_log (snd (logout imap (server w1)))).
    rewrite <- app_assoc. split; [reflexivity|].
    destruct (snd (logout imap (server w1))); split; reflexivity.
Qed.

End BudgetFacts.

(* ================================================================== *)
(** ** Further properties: from the response to the record *)

Lemma debug_log_yields evs : Forall debug_log evs -> yields evs = [].
Proof.
  induction 1 as [|e l He _ IH]; simpl; [reflexivity|].
  destruct e; simpl in *; try contradiction; exact IH.
Qed.

Lemma debug_log_errors evs : Forall debug_log evs -> errors_logged evs = [].
Proof.
  induction 1 as [|e l He _ IH]; simpl; [reflexivity|].
  destruct e as [| |[]|]; simpl in *; try contradiction; exact IH.
Qed.

Lemma debug_log_fetches evs : Forall debug_log evs -> fetches evs = [].
Proof.
  induction 1 as [|e l He _ IH]; simpl; [reflexivity|].
  destruct e; simpl in *; try contradiction; exact IH.
Qed.

Section DeliverFacts.

Variable St : Type.
Variable imap : IMAP St.
Variable lib : EmailLib.

Lemma log_items_run i data (w : world St) :
  exists evs, log_items i data w = (Ok tt, w, evs) /\ Forall debug_log evs.
Proof.
  revert i. induction data as [|it rest IH]; intros i.
  - exists []. split; [reflexivity | constructor].
  - destruct (IH (S i)) as (evs & Hrun & Hev).
    cbn [log_items]. unfold bind.
    destruct it as [b|b|]; cbn; rewrite Hrun; eexists; split;
      try reflexivity; repeat constructor; exact Hev.
Qed.

Lemma scan_items_run data raw fl (w : world St) :
  exists evs,
    scan_items lib data raw fl w =
    (Ok (last_raw data raw, last_flags lib data fl), w, evs) /\
    Forall debug_log evs.
Proof.
  revert raw fl. induction data as [|it rest IH]; intros raw fl.
  - exists []. split; [reflexivity | constructor].
  - cbn [scan_items last_raw last_flags fold_left]. unfold bind.
    destruct (flags_of_item lib it) as [x|]; cbn.
    + destruct (IH (match raw_of_item it with Some b => Some b | None => raw end) x)
        as (evs & Hrun & Hev).
      unfold last_raw, last_flags in Hrun. rewrite Hrun.
      eexists; split; [reflexivity|]. repeat constructor. exact Hev.
    + destruct (IH (match raw_of_item it with Some b => Some b | None => raw end) fl)
        as (evs & Hrun & Hev).
      unfold last_raw, last_flags in Hrun. rewrite Hrun.
      eexists; split; [reflexivity|]. exact Hev.
Qed.

Lemma raw_of_item_long it b : raw_of_item it = Some b -> (100 < len b)%Z.
Proof.
  destruct it as [x|x|]; simpl; try discriminate.
  - destruct (Z.ltb_spec 100 (len x)); [|discriminate].
    destruct (_ && _)%bool; [discriminate|]. intros E. now injection E as <-.
  - destruct (Z.ltb_spec 100 (len x)); [|discriminate].
    intros E. now injection E as <-.
Qed.

Lemma last_raw_long data raw0 b :
  last_raw data raw0 = Some b -> raw0 = Some b \/ (100 < len b)%Z.
Proof.
  unfold last_raw. revert raw0. induction data as [|it rest IH]; intros raw0; simpl.
  - now left.
  - intros H. apply IH in H as [H|H]; [|now right].
    destruct (raw_of_item it) as [x|] eqn:E; [|now left].
    injection H as ->. right. eapply raw_of_item_long; eassumption.
Qed.

Lemma last_raw_app data1 data2 raw0 :
  last_raw (data1 ++ data2) raw0 = last_raw data2 (last_raw data1 raw0).
Proof. apply fold_left_app. Qed.

Lemma last_raw_some data b : exists b', last_raw data (Some b) = Some b'.
Proof.
  unfold last_raw. revert b. induction data as [|it rest IH]; intros b; simpl.
  - eauto.
  - destruct (raw_of_item it); apply IH.
Qed.

Lemma deliver_run uid data (w : world St) :
  let run := deliver lib uid data w in
  fetches (snd run) = [] /\
  match last_raw (items_of data) None with
  | None =>
      fst run = (Ok tt, w) /\ yields (snd run) = [] /\
      errors_logged (snd run) = [NoEmailData uid]
  | Some raw =>
      match _parse_email_data lib raw with
      | Reply parsed_email =>
          yields (snd run) =
            [add_flags parsed_email (last_flags lib (items_of data) [])] /\
          errors_logged (snd run) = []
      | Fails e =>
          fst run = (Ok tt, w) /\ yields (snd run) = [] /\
          errors_logged (snd run) = [ErrorParsingEmail e]
      end
  end /\
  (forall b, In (ByteArray b) (items_of data) -> (100 < len b)%Z ->
     has_content (items_of data) = true /\
     last_raw (items_of data) None <> None).
Proof.
  intros run. subst run. unfold deliver, bind. cbn [log].
  destruct (log_items_run 0 (items_of data) w) as (e1 & H1 & Hq1).
  rewrite H1.
  destruct (scan_items_run (items_of data) None [] w) as (e2 & H2 & Hq2).
  rewrite H2. cbn [fst snd].
  assert (Hq : Forall debug_log
                 ((Log Debug (ResponseItems uid (List.length (items_of data)))
                   :: nil) ++ e1 ++ e2)).
  { apply Forall_app. split; [repeat constructor|].
    apply Forall_app. split; assumption. }
  split; [|split].
  - destruct (last_raw (items_of data) None) as [raw|] eqn:Er.
    + destruct (truthy_bytes (Some raw)).
      * unfold try_except, bind, lift, yield_.
        destruct (_parse_email_data lib raw) as [p|e]; cbn.
        -- destruct (consumer w) as [[|[|k]]|]; cbn;
             rewrite !fetches_app, (debug_log_fetches Hq1),
               (debug_log_fetches Hq2); reflexivity.
        -- rewrite !fetches_app, (debug_log_fetches Hq1),
             (debug_log_fetches Hq2); reflexivity.
      * cbn. rewrite !fetches_app, (debug_log_fetches Hq1),
          (debug_log_fetches Hq2); reflexivity.
    + cbn. rewrite !fetches_app, (debug_log_fetches Hq1),
        (debug_log_fetches Hq2); reflexivity.
  - destruct (last_raw (items_of data) None) as [raw|] eqn:Er.
    + assert (Ht : truthy_bytes (Some raw) = true).
      { apply last_raw_long in Er as [Er|Er]; [discriminate|].
        destruct raw; [unfold len in Er; simpl in Er; lia | reflexivity]. }
      rewrite Ht. unfold try_except, bind, lift, yield_.
      destruct (_parse_email_data lib raw) as [p|e]; cbn.
      * destruct (consumer w) as [[|[|k]]|]; cbn;
          rewrite !yields_app, !errors_logged_app,
            (debug_log_yields Hq1), (debug_log_yields Hq2),
            (debug_log_errors Hq1), (debug_log_errors Hq2); split; reflexivity.
      * rewrite !yields_app, !errors_logged_app,
          (debug_log_yields Hq1), (debug_log_yields Hq2),
          (debug_log_errors Hq1), (debug_log_errors Hq2).
        repeat split; rewrite ?app_nil_r; reflexivity.
    + cbn. rewrite !yields_app, !errors_logged_app,
        (debug_log_yields Hq1), (debug_log_yields Hq2),
        (debug_log_errors Hq1), (debug_log_errors Hq2).
      repeat split; rewrite ?app_nil_r; reflexivity.
  - intros b Hin Hb. split.
    + rewrite has_content_exists. apply existsb_exists.
      exists (ByteArray b). split; [exact Hin|].
      unfold content_bearing. simpl. now apply Z.ltb_lt.
    + apply in_split in Hin as (l1 & l2 & ->).
      rewrite last_raw_app. cbn [last_raw fold_left raw_of_item].
      apply Z.ltb_lt in Hb. rewrite Hb.
      fold (last_raw l2 (Some b)).
      destruct (last_raw_some l2 b) as (b' & ->). discriminate.
Qed.


(** X12.  What lines 182-230 make of a response: nothing is fetched; when
    no item qualifies as the raw email the message is skipped with
    [NoEmailData] logged; otherwise the last qualifying item is parsed,
    and either the record of that parse is yielded, with the flags of
    the last item that carries flags, or the parser's exception is
    logged and nothing is yielded.  A [bytearray] item longer than 100
    bytes makes the attempt succeed and always qualifies. *)
Theorem deliver_hands_over_the_last_literal uid data (w : world St) :
  let run := deliver lib uid data w in
  fetches (snd run) = [] /\
  match last_raw (items_of data) None with
  | None =>
      fst run = (Ok tt, w) /\ yields (snd run) = [] /\
      errors_logged (snd run) = [NoEmailData uid]
  | Some raw =>
      match _parse_email_data lib raw with
      | Reply parsed_email =>
          yields (snd run) =
            [add_flags parsed_email (last_flags lib (items_of data) [])] /\
          errors_logged (snd run) = []
      | Fails e =>
          fst run = (Ok tt, w) /\ yields (snd run) = [] /\
          errors_logged (snd run) = [ErrorParsingEmail e]
      end
  end /\
  (forall b, In (ByteArray b) (items_of data) -> (100 < len b)%Z ->
     has_content (items_of data) = true /\
     last_raw (items_of data) None <> None).
Proof. apply deliver_run. Qed.

Lemma fetch_loop_first_hit fmt rest uid data0 data s (w : world St) :
  uid_fetch imap uid fmt (server w) = (s, Reply data) ->
  has_content (items_of data) = true ->
  fetch_loop imap (fmt :: rest) uid data0 w =
  (Ok data, {| server := s; consumer := consumer w |},
   [Fetch uid fmt (Reply data)]) /\ truthy_data data = true.
Proof.
  intros Hf Hc.
  assert (Ht : truthy_data data = true).
  { destruct data as [[|it l]|]; simpl in *; congruence. }
  split; [|exact Ht].
  cbn [fetch_loop]. unfold bind, attempt, try_except, bind, fetch.
  rewrite Hf. cbn. rewrite Ht, Hc. reflexivity.
Qed.

(** X13.  When the response to the first request encoding passes the
    content test of the attempt but holds no item that qualifies as the
    raw email, the message ends normally after that single fetch, with
    no record and [NoEmailData] logged: the other encodings are not
    tried. *)
Theorem content_without_message_ends_the_fallback message_id uid data s
    (w : world St) :
  decode lib message_id "utf-8" = Reply uid ->
  uid_fetch imap uid "(BODY.PEEK[] FLAGS)" (server w) = (s, Reply data) ->
  has_content (items_of data) = true ->
  last_raw (items_of data) None = None ->
  let run := process_message imap lib message_id w in
  fst (fst run) = Ok tt /\
  map fst (fetches (snd run)) = ["(BODY.PEEK[] FLAGS)"] /\
  yields (snd run) = [] /\
  errors_logged (snd run) = [NoEmailData uid].
Proof.
  intros Hd Hf Hc Hr run.
  destruct (@fetch_loop_first_hit _
              ["BODY.PEEK[] FLAGS"; "(BODY[] FLAGS)"; "(RFC822 FLAGS)"]
              _ None _ _ _ Hf Hc) as [Hloop Ht].
  pose proof (deliver_run uid data {| server := s; consumer := consumer w |})
    as (Hnf & Hrun & _).
  rewrite Hr in Hrun. destruct Hrun as (Hfst & Hy & He).
  assert (E : run =
    (Ok tt, {| server := s; consumer := consumer w |},
     [Fetch uid "(BODY.PEEK[] FLAGS)" (Reply data)]
     ++ snd (deliver lib uid data {| server := s; consumer := consumer w |}))).
  { subst run. unfold process_message, try_except, bind, lift.
    rewrite Hd. cbn [of_reply].
    change fetch_formats
      with ["(BODY.PEEK[] FLAGS)"; "BODY.PEEK[] FLAGS"; "(BODY[] FLAGS)";
            "(RFC822 FLAGS)"].
    rewrite Hloop, Ht. cbn [negb].
    destruct (deliver lib uid data {| server := s; consumer := consumer w |})
      as [[r w2] e2]. cbn [fst snd] in *. injection Hfst as -> ->.
    reflexivity. }
  rewrite E. cbn [fst snd].
  rewrite fetches_app, yields_app, errors_logged_app, Hnf, Hy, He.
  repeat split.
Qed.

Lemma deliver_never_raises uid data (w : world St) e :
  fst (fst (deliver lib uid data w)) <> Raise e.
Proof.
  unfold deliver, bind. cbn [log].
  destruct (log_items_run 0 (items_of data) w) as (e1 & H1 & _). rewrite H1.
  destruct (scan_items_run (items_of data) None [] w) as (e2 & H2 & _).
  rewrite H2. cbn [fst snd].
  destruct (last_raw (items_of data) None) as [raw|]; [|cbn; discriminate].
  destruct (truthy_bytes (Some raw)); [|cbn; discriminate].
  unfold try_except, bind, lift, yield_.
  destruct (_parse_email_data lib raw) as [p|e']; cbn; [|discriminate].
  destruct (consumer w) as [[|[|k]]|]; cbn; discriminate.
Qed.

Lemma passes_scan_content_bearing it : passes_scan it = content_bearing it.
Proof.
  destruct it as [b|b|]; unfold passes_scan, content_bearing; cbn;
    try reflexivity.
  destruct (contains "FETCH (" b), (contains "RFC822" b), (contains "BODY" b),
    (100 <? len b)%Z; reflexivity.
Qed.

Lemma succeeded_passes r : succeeded r = passes r.
Proof.
  destruct r as [[items|]|e]; cbn; try reflexivity.
  rewrite has_content_exists.
  assert (H : existsb content_bearing items = existsb passes_scan items).
  { induction items as [|it rest IH]; [reflexivity|].
    cbn [existsb]. now rewrite IH, passes_scan_content_bearing. }
  rewrite H. destruct items; reflexivity.
Qed.

Lemma content_fragment_raw it : content_fragment it = is_some (raw_of_item it).
Proof.
  destruct it as [b|b|]; cbn; try reflexivity;
    destruct (100 <? len b)%Z; cbn; try reflexivity.
  destruct (contains "FETCH" b), (contains "From:" b), (contains "Subject:" b);
    reflexivity.
Qed.

Lemma no_content_no_raw data raw0 :
  existsb content_fragment data = false -> last_raw data raw0 = raw0.
Proof.
  unfold last_raw. revert raw0.
  induction data as [|it rest IH]; intros raw0 H; [reflexivity|].
  cbn [existsb] in H. apply orb_false_iff in H as [H1 H2].
  cbn [fold_left]. rewrite content_fragment_raw in H1.
  destruct (raw_of_item it); [discriminate | now apply IH].
Qed.

Lemma fetches_nil_fetched evs : fetches evs = [] -> fetched evs = [].
Proof.
  induction evs as [|e evs IH]; [reflexivity|].
  destruct e; cbn; try exact IH. discriminate.
Qed.

Lemma fetched_app e1 e2 : fetched (e1 ++ e2) = fetched e1 ++ fetched e2.
Proof. apply flat_map_app. Qed.

(** The loop asks the server as [attempts_from] says, always for the
    same identifier. *)
Lemma fetch_loop_attempts formats uid data0 (w : world St) :
  fetches (snd (fetch_loop imap formats uid data0 w))
    = attempts_from imap formats uid (server w) /\
  fetched (snd (fetch_loop imap formats uid data0 w))
    = map (fun _ => uid) (attempts_from imap formats uid (server w)).
Proof.
  revert data0 w. induction formats as [|fmt rest IH]; intros data0 w;
    [split; reflexivity|].
  cbn [fetch_loop attempts_from]. unfold bind, attempt, try_except, bind, fetch.
  destruct (uid_fetch imap uid fmt (server w)) as [s r] eqn:Er.
  rewrite <- succeeded_passes.
  set (w1 := {| server := s; consumer := consumer w |}).
  destruct r as [data|e]; cbn [of_reply succeeded].
  - destruct (truthy_data data) eqn:Et; cbn [andb].
    + destruct (has_content (items_of data)) eqn:Eh; cbn.
      * split; reflexivity.
      * destruct (IH None w1) as [H1 H2].
        destruct (fetch_loop imap rest uid None w1) as [[r' w'] e'].
        cbn in *. now rewrite H1, H2.
    + cbn. destruct (IH data w1) as [H1 H2].
      destruct (fetch_loop imap rest uid data w1) as [[r' w'] e'].
      cbn in *. now rewrite H1, H2.
  - cbn. destruct (IH None w1) as [H1 H2].
    destruct (fetch_loop imap rest uid None w1) as [[r' w'] e'].
    cbn in *. now rewrite H1, H2.
Qed.

(** One message whose identifier decodes: the loop over the encodings,
    then either the error of a message that no encoding delivered, or
    what lines 182-230 make of the response. *)
Lemma process_message_steps message_id uid (w : world St) :
  decode lib message_id "utf-8" = Reply uid ->
  exists data w1 e1,
    fetch_loop imap fetch_formats uid None w = (Ok data, w1, e1) /\
    Forall quiet e1 /\
    fallback fetch_formats None (fetches e1) data /\
    process_message imap lib message_id w =
      if truthy_data data
      then (fst (fst (deliver lib uid data w1)),
            snd (fst (deliver lib uid data w1)),
            e1 ++ snd (deliver lib uid data w1))
      else (Ok tt, w1, e1 ++ [Log Error (FailedAnyFormat uid)]).
Proof.
  intros Hd.
  destruct (fetch_loop_spec imap fetch_formats uid None w)
    as (data & w1 & e1 & Hrun & _ & Hq & Hf).
  exists data, w1, e1. repeat split; try assumption.
  unfold process_message, try_except, bind, lift.
  rewrite Hd. cbn [of_reply]. rewrite Hrun.
  destruct (truthy_data data); cbn [negb]; [|reflexivity].
  pose proof (deliver_never_raises uid data w1) as Hn.
  destruct (deliver lib uid data w1) as [[[[]|e|] w2] e2]; cbn [fst snd] in *;
    try reflexivity.
  now specialize (Hn e).
Qed.

Lemma fallback_nonempty fmt rest data0 attempts data :
  fallback (fmt :: rest) data0 attempts data -> attempts <> [].
Proof. inversion 1; discriminate. Qed.

Lemma fallback_length formats data0 attempts data :
  fallback formats data0 attempts data ->
  (List.length attempts <= List.length formats)%nat.
Proof. induction 1; simpl; lia. Qed.

(** C2, with the defect of the test.  On any session and for any
    consumer.  The request encodings are the fixed four, the two peek
    forms first.  For an identifier that is not UTF-8 no attempt is made:
    the message ends normally with the error logged.  For an identifier
    that decodes, the server is asked for the
    identifier with the first encoding, then, as long as the response
    does not pass the test of the attempt, with the next one on the state
    the previous request left: at least one attempt and at most four, no
    attempt after one that passes, and a next attempt after each that
    does not until the four are used.  No exception gets out.  When the
    four attempts fail the message ends normally with no record and
    [FailedAnyFormat] logged.  When the last attempt passes, the record
    comes from its response.  On a response whose [bytes] lines have at
    most 100 bytes, the test is the one of the claim: it passes exactly
    when the response holds a content-bearing fragment, and a response
    that carries only flags fails.  On longer lines it is not: a response
    to the first encoding that carries only flags and passes the test
    ends the fallback after that one attempt, with no record and
    [NoEmailData] logged. *)
Theorem fetch_fallback (message_id : bytes) (w : world St) :
  let run := process_message imap lib message_id w in
  let attempts := fetches (snd run) in
  fetch_formats =
    ["(BODY.PEEK[] FLAGS)"; "BODY.PEEK[] FLAGS"; "(BODY[] FLAGS)"; "(RFC822 FLAGS)"] /\
  (forall e,
     decode lib message_id "utf-8" = Fails e ->
     attempts = [] /\
     run = (Ok tt, w, [Log Error (ErrorFetchingMessage message_id e)])) /\
  forall uid,
  decode lib message_id "utf-8" = Reply uid ->
  attempts = attempts_from imap fetch_formats uid (server w) /\
  (attempts <> [] /\ (List.length attempts <= 4)%nat /\
   map fst attempts = firstn (List.length attempts) fetch_formats /\
   fetched (snd run) = map (fun _ => uid) attempts) /\
  (forall pre a post,
     attempts = pre ++ a :: post -> passes (snd a) = true -> post = []) /\
  (forall pre a,
     attempts = pre ++ [a] -> passes (snd a) = false ->
     List.length attempts = 4%nat) /\
  (forall e, fst (fst run) <> Raise e) /\
  (Forall (fun a => passes (snd a) = false) attempts ->
   fst (fst run) = Ok tt /\ yields (snd run) = [] /\
   errors_logged (snd run) = [FailedAnyFormat uid]) /\
  (forall pre fmt data raw parsed_email,
     attempts = pre ++ [(fmt, Reply data)] -> passes (Reply data) = true ->
     last_raw (items_of data) None = Some raw ->
     _parse_email_data lib raw = Reply parsed_email ->
     yields (snd run) =
       [add_flags parsed_email (last_flags lib (items_of data) [])] /\
     errors_logged (snd run) = []) /\
  (forall data,
     (forall b, In (Bytes b) (items_of data) -> (len b <= 100)%Z) ->
     passes (Reply data) = existsb content_fragment (items_of data) /\
     (only_flags data = true -> passes (Reply data) = false)) /\
  (forall data s,
     uid_fetch imap uid "(BODY.PEEK[] FLAGS)" (server w) = (s, Reply data) ->
     only_flags data = true -> passes (Reply data) = true ->
     attempts = [("(BODY.PEEK[] FLAGS)", Reply data)] /\
     fst (fst run) = Ok tt /\ yields (snd run) = [] /\
     errors_logged (snd run) = [NoEmailData uid]).
Proof.
  intros run attempts.
  split; [reflexivity|]. split.
  { intros e Hd. subst attempts run.
    destruct (process_message_run imap lib message_id w)
      as [(e' & Hd' & Hrun)|(uid & data & w1 & e1 & Hd' & _)]; [|congruence].
    rewrite Hrun. split; [reflexivity|]. congruence. }
  intros uid Hd.
  destruct (process_message_steps message_id w Hd)
    as (data & w1 & e1 & Hloop & Hq & Hf & Hrun).
  pose proof (deliver_run uid data w1) as (Hnf & Hdel & _).
  assert (Hatt : attempts = fetches e1).
  { subst attempts run. rewrite Hrun.
    destruct (truthy_data data); cbn [snd]; rewrite fetches_app;
      [rewrite Hnf | cbn]; apply app_nil_r. }
  assert (Hfrom : fetches e1 = attempts_from imap fetch_formats uid (server w) /\
                  fetched e1 = map (fun _ => uid) (fetches e1)).
  { destruct (fetch_loop_attempts fetch_formats uid None w) as [H1 H2].
    rewrite Hloop in H1, H2. cbn [snd] in H1, H2. rewrite H2, H1. auto. }
  assert (Hy : yields (snd run) =
               if truthy_data data then yields (snd (deliver lib uid data w1))
               else []).
  { subst run. rewrite Hrun.
    destruct (truthy_data data); cbn [snd];
      rewrite yields_app, (quiet_yields Hq); reflexivity. }
  assert (He : errors_logged (snd run) =
               if truthy_data data
               then errors_logged (snd (deliver lib uid data w1))
               else [FailedAnyFormat uid]).
  { subst run. rewrite Hrun.
    destruct (truthy_data data); cbn [snd];
      rewrite errors_logged_app, (quiet_errors Hq); reflexivity. }
  assert (Hlast : forall pre a,
            attempts = pre ++ [a] ->
            (passes (snd a) = true /\ snd a = Reply data /\
             truthy_data data = true) \/
            (passes (snd a) = false /\ List.length attempts = 4%nat)).
  { intros pre a E. rewrite Hatt in E.
    pose proof (fallback_last Hf) as HL. specialize (HL _ _ E).
    rewrite succeeded_passes in HL. rewrite Hatt. exact HL. }
  assert (Hfail : Forall (fun a => passes (snd a) = false) attempts ->
                  truthy_data data = false).
  { intros Hall. rewrite Hatt in Hall.
    assert (Hall' : Forall (fun a => succeeded (snd a) = false) (fetches e1)).
    { eapply Forall_impl; [|exact Hall]. intros a Ha.
      now rewrite succeeded_passes. }
    destruct (fallback_exhausted Hf Hall') as [_ Ht]. now apply Ht. }
  split; [rewrite Hatt; apply Hfrom|].
  split.
  { rewrite Hatt. repeat split.
    - eapply fallback_nonempty. exact Hf.
    - apply (fallback_length Hf).
    - eapply fallback_prefix. exact Hf.
    - subst run. rewrite Hrun.
      destruct (truthy_data data); cbn [snd]; rewrite fetched_app;
        [rewrite (fetches_nil_fetched _ Hnf) | cbn]; rewrite app_nil_r;
        apply Hfrom. }
  split.
  { intros pre a post E Ha. rewrite Hatt in E.
    rewrite <- succeeded_passes in Ha.
    eapply fallback_stops; eassumption. }
  split.
  { intros pre a E Ha. destruct (Hlast _ _ E) as [(H & _)|(_ & H)];
      [congruence | exact H]. }
  split.
  { intros e. subst run. rewrite Hrun.
    destruct (truthy_data data); cbn [fst]; [|discriminate].
    apply deliver_never_raises. }
  split.
  { intros Hall. apply Hfail in Hall.
    rewrite Hy, He. subst run. rewrite Hrun, Hall. auto. }
  split.
  { intros pre fmt data' raw parsed_email E Hp Hraw Hparse.
    destruct (Hlast _ _ E) as [(_ & Hdata & Ht)|(H & _)];
      [|cbn [snd] in H; congruence].
    cbn [snd] in Hdata. injection Hdata as ->.
    rewrite Hy, He, Ht. rewrite Hraw, Hparse in Hdel. exact Hdel. }
  split.
  { intros data' Hshort.
    assert (Heq : forall items,
              (forall b, In (Bytes b) items -> (len b <= 100)%Z) ->
              existsb passes_scan items = existsb content_fragment items).
    { induction items as [|it rest IH]; intros Hs; [reflexivity|].
      cbn [existsb]. rewrite IH by (intros b Hb; apply Hs; now right).
      f_equal. destruct it as [b|b|]; cbn; try reflexivity.
      assert (Hb : (len b <= 100)%Z) by (apply Hs; now left).
      destruct (Z.ltb_spec 100 (len b)); [lia | reflexivity]. }
    assert (Hp : passes (Reply data') = existsb content_fragment (items_of data')).
    { destruct data' as [items|]; [|reflexivity]. now apply Heq. }
    split; [exact Hp|]. rewrite Hp. unfold only_flags.
    intros H. apply andb_true_iff in H as [_ H].
    now apply negb_true_iff in H. }
  intros data' s Hfetch Honly Hp.
  assert (Hone : attempts = [("(BODY.PEEK[] FLAGS)", Reply data')]).
  { rewrite Hatt. rewrite (proj1 Hfrom).
    change fetch_formats
      with ["(BODY.PEEK[] FLAGS)"; "BODY.PEEK[] FLAGS"; "(BODY[] FLAGS)";
            "(RFC822 FLAGS)"].
    cbn [attempts_from]. rewrite Hfetch, Hp. reflexivity. }
  split; [exact Hone|].
  destruct (Hlast [] _ Hone) as [(_ & Hdata & Ht)|(H & _)];
    [|cbn [snd] in H; congruence].
  cbn [snd] in Hdata. injection Hdata as ->.
  assert (Hraw : last_raw (items_of data) None = None).
  { apply no_content_no_raw. unfold only_flags in Honly.
    apply andb_true_iff in Honly as [_ H]. now apply negb_true_iff in H. }
  rewrite Hraw in Hdel. destruct Hdel as (Hfst & Hy' & He').
  rewrite Hy, He, Ht. subst run. rewrite Hrun, Ht. cbn [fst].
  rewrite Hfst. auto.
Qed.

End DeliverFacts.

Section FlagFacts.

Variable lib : EmailLib.

Lemma split_str_words s cur :
  forallb (fun c => negb (str_space c)) cur = true ->
  Forall (fun w => is_str_word w = true) (split_str s cur).
Proof.
  revert cur. induction s as [|c t IH]; intros cur Hcur.
  - destruct cur as [|x cur]; [constructor|].
    constructor; [|constructor]. unfold is_str_word. now rewrite Hcur.
  - cbn [split_str]. destruct (str_space c) eqn:Ec.
    + destruct cur as [|x cur]; [now apply IH|].
      constructor; [|now apply IH].
      unfold is_str_word. now rewrite Hcur.
    + apply IH. rewrite forallb_app, Hcur. cbn. now rewrite Ec.
Qed.

(** X14.  For a [bytes] item in which the first "FLAGS (" is followed by
    [fl] and a closing parenthesis, [fl] holding none: the flags read
    are the words of the decoded [fl], split at the white space of
    [str.split()], and none when [fl] is empty; without the closing
    parenthesis no flags are read; a [bytearray] item is never read for
    flags; and a flag that is read is never empty and holds no white
    space character, the no-break space included. *)
Theorem flags_are_read_between_the_parentheses (pre fl rest : string) :
  contains "FLAGS (" (pre ++ "FLAGS ") = false ->
  contains ")" fl = false ->
  flags_of_item lib (Bytes (pre ++ "FLAGS (" ++ fl ++ ")" ++ rest)%string) =
    (if (fl =? "")%string then None
     else Some (str_split (decode_utf8_ignore lib fl))) /\
  flags_of_item lib (Bytes (pre ++ "FLAGS (" ++ fl)%string) = None /\
  flags_of_item lib (ByteArray (pre ++ "FLAGS (" ++ fl ++ ")" ++ rest)%string) = None /\
  (forall it email_flags,
     flags_of_item lib it = Some email_flags ->
     Forall (fun w => is_str_word w = true) email_flags) /\
  str_split (str_of "\Seen" ++ [0xa0%N] ++ str_of "\Flagged")
    = [str_of "\Seen"; str_of "\Flagged"].
Proof.
  intros Hpre Hfl.
  assert (Hstart : forall tl,
            find "FLAGS (" (pre ++ "FLAGS (" ++ tl) 0 = len pre).
  { intros tl. unfold find.
    destruct (Z.ltb_spec (len (pre ++ "FLAGS (" ++ tl)) 0);
      [unfold len in *; lia|].
    change (drop (Z.to_nat 0) (pre ++ "FLAGS (" ++ tl))
      with (pre ++ "FLAGS " ++ ("(" ++ tl))%string.
    rewrite find_at_first;
      [lia | simpl; lia | exact Hpre | exact (prefix_append "FLAGS (" tl)]. }
  assert (Hin : forall tl, contains "FLAGS (" (pre ++ "FLAGS (" ++ tl) = true).
  { intros tl. apply contains_append_r. apply (prefix_append "FLAGS (" tl). }
  assert (Hdrop : forall tl,
            drop (Z.to_nat (len pre + 7)) (pre ++ "FLAGS (" ++ tl) = tl).
  { intros tl.
    replace (Z.to_nat (len pre + 7)) with (String.length (pre ++ "FLAGS ("))
      by (rewrite length_append; unfold len; simpl; lia).
    rewrite <- append_assoc. apply drop_append. }
  assert (Hlen : forall tl,
            len (pre ++ "FLAGS (" ++ tl) = (len pre + 7 + len tl)%Z).
  { intros tl. unfold len. rewrite !length_append. simpl String.length. lia. }
  split; [|split; [|split; [reflexivity|split; [|reflexivity]]]].
  3: { intros it email_flags. destruct it as [b|b|]; cbn [flags_of_item];
         try discriminate.
       destruct (contains "FLAGS (" b); [|discriminate].
       destruct (_ && _)%bool; [|discriminate].
       intros E. injection E as <-. now apply split_str_words. }
  - cbn [flags_of_item]. rewrite Hin, Hstart.
    assert (Hend : find ")" (pre ++ "FLAGS (" ++ fl ++ ")" ++ rest) (len pre + 7)
                   = (len pre + 7 + len fl)%Z).
    { unfold find. rewrite Hlen.
      destruct (Z.ltb_spec (len pre + 7 + len (fl ++ ")" ++ rest)) (len pre + 7));
        [unfold len in *; lia|].
      rewrite Hdrop.
      rewrite <- (append_nil_r fl) in Hfl.
      change (fl ++ ")" ++ rest)%string with (fl ++ "" ++ (")" ++ rest))%string.
      rewrite find_at_first;
        [reflexivity | simpl; lia | exact Hfl | exact (prefix_append ")" rest)]. }
    rewrite Hend.
    destruct (Z.ltb_spec 6 (len pre + 7)); [|unfold len in *; lia].
    destruct fl as [|c fl'] eqn:Efl.
    + destruct (Z.ltb_spec (len pre + 7) (len pre + 7 + len "")); [|reflexivity].
      unfold len in *. simpl in *. lia.
    + rewrite <- Efl in *.
      destruct (Z.ltb_spec (len pre + 7) (len pre + 7 + len fl));
        [|subst fl; unfold len in *; simpl in *; lia].
      cbn [andb].
      assert (Hs : (fl =? "")%string = false) by (subst fl; reflexivity).
      rewrite Hs. do 3 f_equal.
      unfold bytes_slice, slice_bound. rewrite Hlen.
      destruct (Z.ltb_spec (len pre + 7) 0); [unfold len in *; lia|].
      destruct (Z.ltb_spec (len pre + 7 + len fl) 0); [unfold len in *; lia|].
      rewrite !Z.min_l
        by (unfold len; rewrite !length_append; simpl String.length; lia).
      replace (Z.to_nat (len pre + 7)) with (String.length (pre ++ "FLAGS ("))
        by (rewrite length_append; unfold len; simpl; lia).
      replace (Z.to_nat (len pre + 7 + len fl - (len pre + 7)))
        with (String.length fl) by (unfold len; lia).
      rewrite <- append_assoc. apply substring_append.
  - cbn [flags_of_item]. rewrite Hin, Hstart.
    assert (Hend : find ")" (pre ++ "FLAGS (" ++ fl) (len pre + 7) = (-1)%Z).
    { unfold find. rewrite Hlen.
      destruct (Z.ltb_spec (len pre + 7 + len fl) (len pre + 7)); [reflexivity|].
      rewrite Hdrop. now apply find_at_none. }
    rewrite Hend.
    destruct (Z.ltb_spec 6 (len pre + 7)); [|unfold len in *; lia].
    destruct (Z.ltb_spec (len pre + 7) (-1)); [unfold len in *; lia|].
    reflexivity.
Qed.

End FlagFacts.

(* ================================================================== *)
(** ** Further properties: the parser and the sender *)

Section ParserFacts.

Variable lib : EmailLib.

Lemma walk_parts_attachments parts body attachments b a :
  walk_parts lib parts body attachments = Reply (b, a) ->
  a = attachments ++ attachment_names parts.
Proof.
  revert body attachments.
  induction parts as [|part rest IH]; intros body attachments.
  - simpl. intros E. injection E as _ <-. now rewrite app_nil_r.
  - cbn [walk_parts attachment_names flat_map].
    unfold is_attachment, get_content_charset.
    destruct (get_content_type part) as [ct|e]; cbn [and_then]; [|discriminate].
    destruct (get_content_disposition part) as [cd|e]; cbn [and_then];
      [|discriminate].
    destruct (contains "attachment" _).
    + destruct (get_filename part) as [fn|e]; cbn [and_then]; [|discriminate].
      destruct (truthy_str fn); intros E; apply IH in E.
      * now rewrite <- app_assoc in E.
      * exact E.
    + cbn [app].
      destruct (ct =? "text/plain")%string; [|apply IH].
      destruct (get_payload_decoded part) as [pl|e]; cbn [and_then];
        [|discriminate].
      destruct pl as [x|]; [|apply IH].
      destruct (truthy_bytes (Some x)); [|apply IH].
      destruct (declared_charset part) as [[c|]|e]; cbn [and_then];
        try discriminate;
        (destruct (decode_or_replace lib x _); cbn [and_then];
         [apply IH | discriminate]).
Qed.

Lemma walk_parts_body parts body attachments b a :
  walk_parts lib parts body attachments = Reply (b, a) ->
  forall attachments',
    walk_parts lib (filter is_body_part parts) body attachments'
    = Reply (b, attachments').
Proof.
  revert body attachments.
  induction parts as [|part rest IH]; intros body attachments.
  - simpl. intros E att'. now injection E as <- _.
  - cbn [walk_parts filter]. unfold is_body_part, is_attachment.
    destruct (get_content_type part) as [ct|e] eqn:Ec; cbn [and_then];
      [|discriminate].
    destruct (get_content_disposition part) as [cd|e] eqn:Ed; cbn [and_then];
      [|discriminate].
    destruct (contains "attachment" _) eqn:Ea; cbn [negb andb].
    + destruct (get_filename part) as [fn|e]; cbn [and_then]; [|discriminate].
      destruct (truthy_str fn); apply IH.
    + destruct (ct =? "text/plain")%string eqn:Et; cbn [andb]; [|apply IH].
      destruct (get_payload_decoded part) as [pl|e] eqn:Ep; cbn [and_then];
        [|discriminate].
      destruct pl as [x|]; [|apply IH].
      destruct (truthy_bytes (Some x)) eqn:Ex; [|apply IH].
      intros E att'. cbn [walk_parts].
      rewrite Ec, Ed. cbn [and_then]. rewrite Ea, Et, Ep. cbn [and_then].
      rewrite Ex.
      destruct (get_content_charset part "utf-8") as [cs|e]; cbn [and_then] in *;
        [|discriminate].
      destruct (decode_or_replace lib x cs); cbn [and_then] in *;
        [eapply IH; eassumption | discriminate].
Qed.






(** X16.  When the parser returns, the library has parsed the bytes and
    read the headers: for a multipart message the attachments are the
    non-empty file names of the attachment parts, in order, and the body
    is what the text/plain parts that are not attachments and have a
    payload give alone; for a message that is not multipart there are no
    attachments; subject and sender are the headers, or empty. *)
Theorem body_and_attachments_are_separate (raw : bytes) (p : ParsedEmail) :
  _parse_email_data lib raw = Reply p ->
  exists email_message subject sender,
    parsebytes lib raw = Reply email_message /\
    (is_multipart email_message = true ->
     pe_attachments p = attachment_names (walk email_message) /\
     walk_parts lib (filter is_body_part (walk email_message)) "" []
       = Reply (pe_body p, [])) /\
    (is_multipart email_message = false -> pe_attachments p = []) /\
    get_subject email_message = Reply subject /\
    get_from email_message = Reply sender /\
    pe_subject p = get_default subject "" /\
    pe_from p = get_default sender "".
Proof.
  unfold _parse_email_data.
  destruct (parsebytes lib raw) as [m|e'] eqn:Er; cbn [and_then];
    [|discriminate].
  destruct (get_subject m) as [su|e'] eqn:Hsu; cbn [and_then]; [|discriminate].
  destruct (get_from m) as [se|e'] eqn:Hse; cbn [and_then]; [|discriminate].
  destruct (get_date m) as [da|e'] eqn:Hda; cbn [and_then]; [|discriminate].
  intros H. exists m, su, se. split; [reflexivity|].
  destruct (is_multipart m).
  - destruct (walk_parts lib (walk m) "" []) as [[b a]|e'] eqn:E;
      cbn [and_then] in H; [|discriminate].
    injection H as <-. cbn.
    split; [intros _|split; [discriminate | repeat split; assumption]].
    split; [exact (walk_parts_attachments _ _ _ E) |
            exact (walk_parts_body _ _ _ E [])].
  - split; [discriminate|].
    destruct (get_payload_decoded (self_part m)) as [[x|]|e'];
      cbn [and_then] in H; try discriminate.
    + destruct (truthy_bytes (Some x)).
      * destruct (get_content_charset (self_part m) "utf-8") as [cs|e'];
          cbn [and_then] in H; [|discriminate].
        destruct (decode_or_replace lib x cs); cbn [and_then] in H;
          [|discriminate].
        injection H as <-. cbn. repeat split; assumption.
      * injection H as <-. cbn. repeat split; assumption.
    + injection H as <-. cbn. repeat split; assumption.
Qed.

End ParserFacts.

Section SendMore.

Variable St : Type.
Variable smtp : SMTP St.
Variable MIMEText : string -> MimeMessage.

(** X17.  On any SMTP session, [send_email] does one of three things: it
    fails to enter the session and does nothing else; or it enters,
    fails to log in, and leaves; or it enters, logs in, hands over the
    message with the delivery list once, and leaves.  It ends normally
    only when the session accepted the message. *)
Theorem smtp_session_is_left_once email_server sender recipients subject body
    cc bcc (s : St) :
  let run := send_email smtp MIMEText email_server sender
               recipients subject body cc bcc s in
  let login_event := SmtpLogin (user_name email_server) (password email_server) in
  let msg := compose MIMEText sender recipients subject body cc in
  (snd run = [SmtpEnter] /\ (exists e, fst (fst run) = Raise e)) \/
  (snd run = [SmtpEnter; login_event; SmtpExit] /\
   (exists e, fst (fst run) = Raise e)) \/
  (snd run = [SmtpEnter; login_event;
              SmtpSend msg (delivery_list recipients cc bcc); SmtpExit] /\
   (fst (fst run) = Ok tt ->
    snd (send_message smtp msg (delivery_list recipients cc bcc)
           (fst (smtp_login smtp (user_name email_server)
                   (password email_server) (fst (smtp_enter smtp s)))))
    = Reply tt)).
Proof.
  unfold send_email, send_body.
  destruct (smtp_enter smtp s) as [s0 [[]|e]]; cbn [fst snd].
  2: { left. eauto. }
  destruct (smtp_login smtp _ _ s0) as [s1 [[]|e]]; cbn [fst snd].
  - right. right.
    destruct (send_message smtp _ _ s1) as [s2 [[]|e]]; cbn [fst snd of_reply];
      destruct (smtp_exit smtp s2) as [s3 [[]|e']]; cbn [fst snd app];
      split; try reflexivity; intros H; discriminate H.
  - right. left.
    destruct (smtp_exit smtp s1) as [s3 [[]|e']]; cbn [fst snd app]; eauto.
Qed.

Lemma formatted_sender_truthy name address :
  truthy_str (Some (name ++ " <" ++ address ++ ">")%string) = true.
Proof. destruct name; reflexivity. Qed.

(** X18.  A handler built from the settings sends every message with the
    From header "full_name <email_address>", whatever the names are, and
    logs in with the credentials of the outgoing server; its incoming
    client, built without a sender, and any client built with an empty
    sender, have the user name as sender. *)
Theorem handler_sends_as_the_configured_identity (settings : EmailSettings)
    recipients subject body cc bcc (s : St) :
  let handler := ClassicEmailHandler_init settings in
  let run := handler_send_email smtp MIMEText handler
               recipients subject body cc bcc s in
  let identity := (full_name settings ++ " <" ++ email_address settings ++ ">")%string in
  (forall msg, In msg (sent_messages (snd run)) ->
     In ("From", identity) (headers msg) /\
     headers msg =
       headers (MIMEText body)
       ++ [("Subject", subject); ("From", identity); ("To", join ", " recipients)]
       ++ (if truthy_list cc then [("Cc", join ", " (list_of cc))] else [])) /\
  (forall login, In login (smtp_logins (snd run)) ->
     login = (user_name (outgoing settings), password (outgoing settings))) /\
  ec_sender (incoming_client handler) = user_name (incoming settings) /\
  (forall server, ec_sender (EmailClient_init server (Some "")) = user_name server).
Proof.
  intros handler run identity.
  assert (Hs : ec_sender (outgoing_client handler) = identity).
  { subst handler identity. unfold ClassicEmailHandler_init, EmailClient_init.
    cbn [outgoing_client ec_sender]. now rewrite formatted_sender_truthy. }
  assert (Hrun : run = send_email smtp MIMEText (outgoing settings) identity
                         recipients subject body cc bcc s).
  { subst run. unfold handler_send_email, client_send_email. now rewrite Hs. }
  split; [|split; [|split; reflexivity]].
  - intros msg Hin. rewrite Hrun in Hin.
    pose proof (send_email_sends smtp MIMEText (outgoing settings) identity
                  recipients subject body cc bcc s) as H.
    cbv zeta in H. destruct H as [(Hm & _)|(Hm & _)]; rewrite Hm in Hin.
    + contradiction.
    + destruct Hin as [<-|[]]. rewrite compose_headers. split; [|reflexivity].
      rewrite !in_app_iff. right. left. simpl. auto.
  - intros login Hin. rewrite Hrun in Hin. revert Hin.
    unfold send_email, send_body.
    destruct (smtp_enter smtp s) as [s0 [[]|e]]; cbn; [|tauto].
    destruct (smtp_login smtp _ _ s0) as [s1 [[]|e]]; cbn.
    + destruct (send_message smtp _ _ s1) as [s2 r].
      destruct (smtp_exit smtp s2) as [s3 [[]|e']]; cbn; intuition.
    + destruct (smtp_exit smtp s1) as [s3 [[]|e']]; cbn; intuition.
Qed.

End SendMore.

(* ================================================================== *)
(** ** The further statements on the test doubles *)

Lemma date_token_determines_date_witness :
  day march_5 < 100 /\ (Z.of_nat (year march_5) < 10000)%Z /\
  String.length (upper (strftime_d_b_Y march_5)) = 11 /\
  upper (strftime_d_b_Y march_5) = "05-MAR-2024".
Proof.
  assert (Hd : day march_5 < 100) by (simpl; lia).
  assert (Hy : (Z.of_nat (year march_5) < 10000)%Z) by (simpl; lia).
  split; [exact Hd|]. split; [exact Hy|]. split; [|reflexivity].
  apply (proj1 (proj2 (date_token_determines_date march_5 march_5 Hd Hd Hy Hy))).
  simpl. lia.
Defined.

Lemma flag_criteria_follow_the_flags_witness :
  (forall w, In w flag_words -> ~ In (Some w) (text_fields unread_filter)) /\
  In "UNSEEN" (_build_search_criteria unread_filter) /\
  ~ In "SEEN" (_build_search_criteria unread_filter).
Proof.
  assert (H : forall w, In w flag_words ->
                ~ In (Some w) (text_fields unread_filter))
    by (intros w _; simpl; intuition discriminate).
  split; [exact H|].
  destruct (flag_criteria_follow_the_flags H) as (H1 & H2 & _).
  split; [apply H1; reflexivity|].
  intros X. apply H2 in X. discriminate X.
Defined.

Lemma search_line_is_split_into_its_identifiers_witness :
  established (mailbox ["1"; "2"; "3"] (fun _ => false)) /\
  Forall (fun t => is_word t = true) ["1"; "2"; "3"] /\
  search_ids (Some ["1 2 3"; "SEARCH completed"]) = ["1"; "2"; "3"] /\
  fst (fst (get_email_count (scripted (mailbox ["1"; "2"; "3"] (fun _ => false)))
              test_server no_filter w0)) = Ok 3%Z.
Proof.
  assert (Hw : Forall (fun t => is_word t = true) ["1"; "2"; "3"])
    by (repeat constructor).
  split; [apply mailbox_established|]. split; [exact Hw|].
  destruct (search_line_is_split_into_its_identifiers test_server no_filter
              (ids := ["1"; "2"; "3"]) (rest := ["SEARCH completed"])
              (mailbox_established ["1"; "2"; "3"] (fun _ => false)) Hw eq_refl)
    as (H1 & H2 & _).
  split; [exact H1 | exact H2].
Defined.

Lemma pages_tile_the_list_witness :
  (0 <= 10)%Z /\
  flat_map (fun p => page_ids (Z.of_nat p) 10 "desc" ids25) (seq 1 3)
  = rev ids25.
Proof.
  split; [lia|].
  apply (proj2 (pages_tile_the_list "desc" ids25 3 (page_size := 10) ltac:(lia))).
  vm_compute. repeat constructor.
Defined.

Lemma flags_are_read_between_the_parentheses_witness :
  contains "FLAGS (" "1 FETCH (UID 5 FLAGS " = false /\
  contains ")" "\Seen \Flagged" = false /\
  flags_of_item toy_lib
    (Bytes "1 FETCH (UID 5 FLAGS (\Seen \Flagged) BODY[] {150}")
  = Some [str_of "\Seen"; str_of "\Flagged"].
Proof.
  split; [reflexivity|]. split; [reflexivity|].
  exact (proj1 (flags_are_read_between_the_parentheses toy_lib
                  "1 FETCH (UID 5 " "\Seen \Flagged" " BODY[] {150}"
                  eq_refl eq_refl)).
Defined.

Lemma content_without_message_ends_the_fallback_witness :
  has_content [Bytes long_protocol_line] = true /\
  last_raw [Bytes long_protocol_line] None = None /\
  fst (fst (process_message (scripted line_only) toy_lib "7" w0)) = Ok tt /\
  map fst (fetches (snd (process_message (scripted line_only) toy_lib "7" w0)))
    = ["(BODY.PEEK[] FLAGS)"] /\
  yields (snd (process_message (scripted line_only) toy_lib "7" w0)) = [] /\
  errors_logged (snd (process_message (scripted line_only) toy_lib "7" w0))
    = [NoEmailData "7"].
Proof.
  split; [reflexivity|]. split; [reflexivity|].
  exact (content_without_message_ends_the_fallback (scripted line_only) toy_lib
           "7" (uid := "7")
           (data := Some [Bytes long_protocol_line]) (s := tt) w0
           eq_refl eq_refl eq_refl eq_refl).
Defined.

Lemma page_never_exceeds_page_size_witness :
  (0 <= 10)%Z /\
  (List.length
     (yields (snd (get_emails_stream (scripted (mailbox ids25 (fun _ => false)))
                     toy_lib test_server 1 10 no_filter "desc" w0))) <= 10)%nat.
Proof.
  split; [lia|].
  exact (proj1 (page_never_exceeds_page_size
                  (scripted (mailbox ids25 (fun _ => false))) toy_lib test_server
                  1 no_filter "desc" w0 tt (page_size := 10) ltac:(lia))).
Defined.


Lemma closing_consumer_stops_the_stream_witness :
  consumer (closing_after 2) = Some 2 /\
  fst (fst (get_emails_stream (scripted (mailbox ["1"; "2"; "3"] (fun _ => false)))
              toy_lib test_server 1 10 no_filter "asc" (closing_after 2)))
    = Closed /\
  List.length
    (yields (snd (get_emails_stream
                    (scripted (mailbox ["1"; "2"; "3"] (fun _ => false)))
                    toy_lib test_server 1 10 no_filter "asc" (closing_after 2))))
    = 2 /\
  fetched (snd (get_emails_stream
                  (scripted (mailbox ["1"; "2"; "3"] (fun _ => false)))
                  toy_lib test_server 1 10 no_filter "asc" (closing_after 2)))
    = ["1"; "2"].
Proof.
  split; [reflexivity|].
  assert (Hc : fst (fst (get_emails_stream
                 (scripted (mailbox ["1"; "2"; "3"] (fun _ => false)))
                 toy_lib test_server 1 10 no_filter "asc" (closing_after 2)))
               = Closed) by (vm_compute; reflexivity).
  split; [exact Hc|]. split; [|vm_compute; reflexivity].
  exact (proj1 (proj1 (proj2
    (closing_consumer_stops_the_stream
       (scripted (mailbox ["1"; "2"; "3"] (fun _ => false)))
       toy_lib test_server 1 10 no_filter "asc" (closing_after 2)
       (k := 2) eq_refl)) Hc)).
Defined.


Lemma body_and_attachments_are_separate_witness :
  exists p,
    _parse_email_data multipart_lib "any message" = Reply p /\
    pe_attachments p = attachment_names mixed_parts /\
    pe_attachments p = ["notes.txt"] /\
    pe_body p = "hello world" /\
    pe_subject p = "greetings".
Proof.
  destruct (_parse_email_data multipart_lib "any message") as [p|e] eqn:E;
    [|discriminate E].
  exists p. split; [reflexivity|].
  destruct (body_and_attachments_are_separate multipart_lib "any message" E)
    as (m & su & se & Hm & H1 & _).
  injection Hm as <-.
  split; [exact (proj1 (H1 eq_refl))|].
  vm_compute in E. injection E as <-. repeat split.
Defined.

Lemma bcc_only_in_delivery_list_witness :
  sent_to
    (snd (send_email accepting_smtp plain_text test_server "alice@example.org"
            ["a@example.org"] "hi" "hello" None (Some ["b@example.org"]) tt))
  = [["a@example.org"; "b@example.org"]] /\
  map headers
    (sent_messages
       (snd (send_email accepting_smtp plain_text test_server "alice@example.org"
               ["a@example.org"] "hi" "hello" None (Some ["b@example.org"]) tt)))
  = [headers (plain_text "hello")
     ++ [("Subject", "hi"); ("From", "alice@example.org");
         ("To", "a@example.org")]] /\
  forallb (fun h => negb (contains "b@example.org" (snd h)))
    (headers (plain_text "hello")
     ++ [("Subject", "hi"); ("From", "alice@example.org");
         ("To", "a@example.org")]) = true.
Proof.
  destruct (bcc_only_in_delivery_list accepting_smtp plain_text test_server
              "alice@example.org" ["a@example.org"] "hi" "hello" None
              (Some ["b@example.org"]) tt)
    as (_ & _ & _ & _ & _ & H).
  destruct (H tt tt eq_refl eq_refl) as (msg & Hh & _ & Hrun).
  rewrite Hrun. cbn [snd sent_to sent_messages flat_map app map].
  rewrite Hh. repeat split.
Defined.

Lemma fetch_fallback_witness :
  decode toy_lib "7" "utf-8" = Reply "7" /\
  fetches (snd (process_message (scripted third_format_only) toy_lib "7" w0)) =
    [("(BODY.PEEK[] FLAGS)", Reply flags_only_response);
     ("BODY.PEEK[] FLAGS", Reply flags_only_response);
     ("(BODY[] FLAGS)", Reply (content_response "7"))] /\
  only_flags flags_only_response = true /\
  passes (Reply flags_only_response) = false /\
  only_flags long_flags_response = true /\
  passes (Reply long_flags_response) = true /\
  fetches (snd (process_message (scripted flags_before_content) toy_lib "7" w0)) =
    [("(BODY.PEEK[] FLAGS)", Reply long_flags_response)] /\
  yields (snd (process_message (scripted flags_before_content) toy_lib "7" w0))
    = [] /\
  errors_logged
    (snd (process_message (scripted flags_before_content) toy_lib "7" w0))
    = [NoEmailData "7"].
Proof.
  split; [reflexivity|].
  split.
  { exact (proj1 (proj2 (proj2 (fetch_fallback (scripted third_format_only)
                                  toy_lib "7" w0)) "7" eq_refl)). }
  split; [reflexivity|]. split; [reflexivity|].
  split; [reflexivity|]. split; [reflexivity|].
  destruct (proj2 (proj2 (fetch_fallback (scripted flags_before_content) toy_lib
                            "7" w0)) "7" eq_refl)
    as (_ & _ & _ & _ & _ & _ & _ & _ & H).
  destruct (H long_flags_response tt eq_refl eq_refl eq_refl)
    as (H1 & _ & H2 & H3).
  auto.
Defined.
